(** * spoofy: the DUID subsystem (lib/duid.js, kept as src/unnamed/part_000)

    A shallow embedding of the DUID codec, the original-value store and the
    three platform adapters of lib/duid.js, with the properties of the
    specification stated over it.

    Conventions of the embedding.
    - A [Buffer] is a [list byte]; a JavaScript string is a [string] whose
      characters are read as code units below 256.
    - A JavaScript exception is the [Throw] outcome of [result]; code that
      touches the host runs in the state-and-exception monad [M].
    - The runtime's own functions (Buffer hex coding, [parseInt],
      [String.prototype.split], [toUpperCase] on hex text) are written out
      as Node and ECMAScript define them.
    - The file system is a finite map from paths to contents with a set of
      directories; a write the host refuses ([writable]) throws and changes
      nothing.  An external command is a constructor of [command]; whether
      it exits with 0 and what it prints is read from the [env] of the
      call, and a command that fails changes nothing.
    - [JSON.stringify], [JSON.parse] and the regular expressions applied to
      command output are fields of the [runtime] record; the one law used
      of them, [json_round_trip], is a hypothesis wherever it is needed. *)

From Stdlib Require Import ZArith NArith List String Ascii Bool Lia.
From Stdlib.Strings Require Import Byte.
From stdpp Require Import base gmap strings list fin_maps.

Import ListNotations.
Local Open Scope string_scope.
Local Open Scope Z_scope.

(** ** Outcomes *)

Inductive error : Type :=
  | RangeError
  | TypeError
  | Error (msg : string).

Inductive result (A : Type) : Type :=
  | Ok (a : A)
  | Throw (e : error).

Arguments Ok {A} a.
Arguments Throw {A} e.

Definition rbind {A B} (r : result A) (k : A -> result B) : result B :=
  match r with
  | Ok a => k a
  | Throw e => Throw e
  end.

Definition is_ok {A} (r : result A) : bool :=
  match r with Ok _ => true | Throw _ => false end.

(** ** Bytes and characters *)

Module Codec.

Definition byte_to_Z (b : byte) : Z := Z.of_N (Byte.to_N b).

(** Storing a number in a [Uint8Array] slot keeps its low eight bits. *)
Definition u8 (z : Z) : byte :=
  match Byte.of_N (Z.to_N (z mod 256)) with
  | Some b => b
  | None => x00
  end.

Definition code (c : ascii) : Z := Z.of_N (N_of_ascii c).

Definition chr (z : Z) : ascii := ascii_of_N (Z.to_N z).

(** One lowercase hexadecimal digit, for a value below 16. *)
Definition hex_digit (n : Z) : ascii :=
  if n <? 10 then chr (48 + n) else chr (87 + n).

(** [unhex] of Node's hex decoder: the value of a hexadecimal digit of
    either case, nothing for any other character. *)
Definition unhex (c : ascii) : option Z :=
  let n := code c in
  if (48 <=? n) && (n <=? 57) then Some (n - 48)
  else if (97 <=? n) && (n <=? 102) then Some (n - 87)
  else if (65 <=? n) && (n <=? 70) then Some (n - 55)
  else None.

(** [n.toString(16).padStart(2, '0')] for a number in 0..255. *)
Definition hex2 (n : Z) : string :=
  String (hex_digit (n / 16)) (String (hex_digit (n mod 16)) "").

(** What [buf.toString('hex')] writes for one byte. *)
Definition byte_to_hex (b : byte) : string := hex2 (byte_to_Z b).

(** [buf.toString('hex')] *)
Fixpoint Buffer_toString_hex (buf : list byte) : string :=
  match buf with
  | [] => ""
  | b :: rest => byte_to_hex b ++ Buffer_toString_hex rest
  end.

(** [Buffer.from(s, 'hex')]: pairs of digits are decoded from the left; the
    decoder stops at the first pair that holds a character which is not a
    hexadecimal digit, and a last unpaired character is dropped. *)
Fixpoint Buffer_from_hex (s : string) : list byte :=
  match s with
  | String c1 (String c2 rest) =>
      match unhex c1, unhex c2 with
      | Some a, Some b => u8 (a * 16 + b) :: Buffer_from_hex rest
      | _, _ => []
      end
  | _ => []
  end.

Definition upper_char (c : ascii) : ascii :=
  let n := code c in
  if (97 <=? n) && (n <=? 122) then chr (n - 32) else c.

Definition lower_char (c : ascii) : ascii :=
  let n := code c in
  if (65 <=? n) && (n <=? 90) then chr (n + 32) else c.

Fixpoint map_string (f : ascii -> ascii) (s : string) : string :=
  match s with
  | "" => ""
  | String c rest => String (f c) (map_string f rest)
  end.

(** [s.toUpperCase()] and [s.toLowerCase()], on the ASCII letters; the
    source applies them to hexadecimal text only. *)
Definition toUpperCase (s : string) : string := map_string upper_char s.
Definition toLowerCase (s : string) : string := map_string lower_char s.

(** The class [\s] of a regular expression, among code units below 256:
    tab, line feed, vertical tab, form feed, carriage return, space and
    the no-break space. *)
Definition is_space (c : ascii) : bool :=
  let n := code c in
  ((9 <=? n) && (n <=? 13)) || (n =? 32) || (n =? 160).

Definition is_colon (c : ascii) : bool := code c =? 58.

Fixpoint remove_chars (p : ascii -> bool) (s : string) : string :=
  match s with
  | "" => ""
  | String c rest =>
      if p c then remove_chars p rest else String c (remove_chars p rest)
  end.

(** [duidToHex] (lib/duid.js:130) *)
Definition duidToHex (duid : list byte) : string :=
  toUpperCase (Buffer_toString_hex duid).

(** [hexToDuid] (lib/duid.js:134): [hex.replace(/[:\s]/g, '')] then the
    hex decoder. *)
Definition hexToDuid (hex : string) : list byte :=
  Buffer_from_hex (remove_chars (fun c => is_colon c || is_space c) hex).

(** [formatDUID] (lib/duid.js:138): [hex.match(/.{2}/g)] is [null] for an
    empty buffer, and [null.join] throws. *)
Fixpoint pairs_colon (s : string) : string :=
  match s with
  | String c1 (String c2 rest) =>
      match rest with
      | "" => String c1 (String c2 "")
      | _ => String c1 (String c2 (String ":" (pairs_colon rest)))
      end
  | _ => ""
  end.

Definition formatDUID (duid : list byte) : result string :=
  match duid with
  | [] => Throw TypeError
  | _ => Ok (toUpperCase (pairs_colon (Buffer_toString_hex duid)))
  end.

(** ** Strings and numbers of the runtime *)

(** [s.split(':')] *)
Fixpoint split_colon_aux (cur : string) (s : string) : list string :=
  match s with
  | "" => [cur]
  | String c rest =>
      if is_colon c then cur :: split_colon_aux "" rest
      else split_colon_aux (cur ++ String c "") rest
  end.

Definition split_colon (s : string) : list string := split_colon_aux "" s.

(** [parts.join(sep)] *)
Fixpoint join (sep : string) (parts : list string) : string :=
  match parts with
  | [] => ""
  | [p] => p
  | p :: rest => p ++ sep ++ join sep rest
  end.

Fixpoint trim_start (s : string) : string :=
  match s with
  | String c rest => if is_space c then trim_start rest else s
  | "" => ""
  end.

Fixpoint trim_end (s : string) : string :=
  match s with
  | "" => ""
  | String c rest =>
      match trim_end rest with
      | "" => if is_space c then "" else String c ""
      | kept => String c kept
      end
  end.

(** [s.trim()] *)
Definition trim (s : string) : string := trim_end (trim_start s).

(** The digits that [parseInt] reads: the longest prefix of hexadecimal
    digits, accumulated from the left; nothing when there is no digit. *)
Fixpoint hex_prefix (acc : option Z) (s : string) : option Z :=
  match s with
  | String c rest =>
      match unhex c with
      | Some d => hex_prefix (Some (match acc with Some a => a * 16 + d | None => d end)) rest
      | None => acc
      end
  | "" => acc
  end.

(** The steps of [parseInt(s, 16)]: leading white space goes, then a sign,
    then an optional [0x] or [0X]; the digits follow. [None] is [NaN]. *)
Definition split_sign (s : string) : Z * string :=
  match s with
  | String "-" rest => (-1, rest)
  | String "+" rest => (1, rest)
  | _ => (1, s)
  end.

Definition strip_radix_prefix (s : string) : string :=
  match s with
  | String "0" (String "x" rest) => rest
  | String "0" (String "X" rest) => rest
  | _ => s
  end.

Definition parseInt16 (s : string) : option Z :=
  let '(sign, digits) := split_sign (trim_start s) in
  match hex_prefix None (strip_radix_prefix digits) with
  | Some n => Some (sign * n)
  | None => None
  end.

(** ** Buffers *)

(** [Buffer.alloc(n)] *)
Definition Buffer_alloc (n : nat) : list byte := replicate n x00.

(** [buf.writeUInt8(value, offset)]: a value outside 0..255 and an offset
    outside the buffer throw; [NaN] passes both comparisons and is stored
    as 0. *)
Definition writeUInt8 (value : option Z) (offset : nat) (buf : list byte)
  : result (list byte) :=
  let v := match value with Some z => z | None => 0 end in
  if (255 <? v) || (v <? 0) then Throw RangeError
  else if negb (offset <? length buf)%nat then Throw RangeError
  else Ok (<[offset := u8 v]> buf).

(** [buf.writeUInt16BE(value, offset)] *)
Definition writeUInt16BE (value : Z) (offset : nat) (buf : list byte)
  : result (list byte) :=
  if (65535 <? value) || (value <? 0) then Throw RangeError
  else if negb (offset + 1 <? length buf)%nat then Throw RangeError
  else Ok (<[S offset := u8 value]> (<[offset := u8 (Z.shiftr value 8)]> buf)).

(** [buf.writeUInt32BE(value, offset)] *)
Definition writeUInt32BE (value : Z) (offset : nat) (buf : list byte)
  : result (list byte) :=
  if (4294967295 <? value) || (value <? 0) then Throw RangeError
  else if negb (offset + 3 <? length buf)%nat then Throw RangeError
  else Ok (<[offset := u8 (Z.shiftr value 24)]>
          (<[offset + 1 := u8 (Z.shiftr value 16)]>
          (<[offset + 2 := u8 (Z.shiftr value 8)]>
          (<[offset + 3 := u8 value]> buf))))%nat.

(** [src.copy(target, targetStart)]: as much of [src] as fits. *)
Definition Buffer_copy (src target : list byte) (targetStart : nat) : list byte :=
  take targetStart target
    ++ take (length target - targetStart) src
    ++ drop (targetStart + length src) target.

(** [buf.readUInt16BE(offset)] and [buf.readUInt32BE(offset)], read where
    the source has checked the length. *)
Definition byte_at (buf : list byte) (i : nat) : Z :=
  match buf !! i with Some b => byte_to_Z b | None => 0 end.

Definition readUInt16BE (buf : list byte) (offset : nat) : Z :=
  byte_at buf offset * 256 + byte_at buf (offset + 1).

Definition readUInt32BE (buf : list byte) (offset : nat) : Z :=
  ((byte_at buf offset * 256 + byte_at buf (offset + 1)) * 256
     + byte_at buf (offset + 2)) * 256 + byte_at buf (offset + 3).

(** [a.equals(b)] *)
#[export] Instance byte_eq_dec : EqDecision byte := Byte.byte_eq_dec.

Definition Buffer_equals (a b : list byte) : bool := bool_decide (a = b).

(** The bytes that writing a string to a file leaves (UTF-8), for code
    units below 256. *)
Fixpoint utf8 (s : string) : list byte :=
  match s with
  | "" => []
  | String c rest =>
      let n := code c in
      if n <? 128 then u8 n :: utf8 rest
      else u8 (Z.lor 192 (Z.shiftr n 6)) :: u8 (Z.lor 128 (Z.land n 63)) :: utf8 rest
  end.

(** [buf.slice(a, b)] for [a <= b] inside the buffer. *)
Definition slice (buf : list byte) (a b : nat) : list byte :=
  take (b - a) (drop a buf).

(** ** Generation (lib/duid.js:13-123) *)

Definition DUID_LLT : Z := 1.
Definition DUID_EN : Z := 2.
Definition DUID_LL : Z := 3.
Definition DUID_UUID : Z := 4.

Definition HW_TYPE_ETHERNET : Z := 1.

(** The random source: [rng i] is the value of the [i]-th evaluation of
    [Math.floor(Math.random() * 256)] in a call. *)
Definition rng : Type := nat -> byte.

(** [generateRandomMAC] (lib/duid.js:22) *)
Definition generateRandomMAC (r : rng) : string :=
  let bytes := map (fun i => byte_to_Z (r i)) (seq 0 6) in
  let bytes :=
    match bytes with
    | b0 :: rest => Z.land (Z.lor b0 2) 254 :: rest
    | [] => []
    end in
  join ":" (map hex2 bytes).

(** [macBytes.forEach((b, i) => buf.writeUInt8(b, start + i))] *)
Fixpoint write_each (bs : list (option Z)) (start : nat) (buf : list byte)
  : result (list byte) :=
  match bs with
  | [] => Ok buf
  | b :: rest => rbind (writeUInt8 b start buf) (write_each rest (S start))
  end.

(** [generateDUID(type = DUID_LL, mac = null)] (lib/duid.js:70). [now] is
    [Date.now()], in milliseconds; an absent or empty [mac] is falsy and
    replaced by a random address, whose six draws come first. *)
Definition generateDUID (type : option Z) (mac : option string) (r : rng) (now : Z)
  : result (list byte) :=
  let type := default DUID_LL type in
  let '(macAddr, r) :=
    match mac with
    | None | Some "" => (generateRandomMAC r, fun i => r (6 + i)%nat)
    | Some m => (m, r)
    end in
  let macBytes := map parseInt16 (split_colon macAddr) in
  if type =? DUID_LLT then
    rbind (writeUInt16BE DUID_LLT 0 (Buffer_alloc 14)) (fun buf =>
    rbind (writeUInt16BE HW_TYPE_ETHERNET 2 buf) (fun buf =>
    let epoch2000 := now / 1000 - 946684800 in
    rbind (writeUInt32BE epoch2000 4 buf) (fun buf =>
    write_each macBytes 8 buf)))
  else if type =? DUID_EN then
    let identifier := Buffer_from_hex (remove_chars is_colon macAddr) in
    rbind (writeUInt16BE DUID_EN 0 (Buffer_alloc (6 + length identifier))) (fun buf =>
    rbind (writeUInt32BE 9 2 buf) (fun buf =>
    Ok (Buffer_copy identifier buf 6)))
  else if type =? DUID_LL then
    rbind (writeUInt16BE DUID_LL 0 (Buffer_alloc 10)) (fun buf =>
    rbind (writeUInt16BE HW_TYPE_ETHERNET 2 buf) (fun buf =>
    write_each macBytes 4 buf))
  else if type =? DUID_UUID then
    rbind (writeUInt16BE DUID_UUID 0 (Buffer_alloc 18)) (fun buf =>
    rbind (write_each (map (fun i => Some (byte_to_Z (r i))) (seq 0 16)) 2 buf) (fun buf =>
    let buf := <[8%nat := u8 (Z.lor (Z.land (byte_at buf 8) 15) 64)]> buf in
    let buf := <[10%nat := u8 (Z.lor (Z.land (byte_at buf 10) 63) 128)]> buf in
    Ok buf))
  else Throw (Error "Unknown DUID type").

(** ** Parsing (lib/duid.js:1006-1061) *)

Inductive type_tag : Type :=
  | TypeUnknown
  | TypeNumber (n : Z).

Inductive raw_value : Type :=
  | RawInput (duid : option (list byte))
  | RawText (s : string).

Record ParsedDUID : Type := {
  type : type_tag;
  typeName : option string;
  raw : raw_value;
  hwType : option Z;
  time : option Z;
  timeDate : option Z;
  lladdr : option string;
  enterpriseNumber : option Z;
  identifier : option string;
  uuid : option string
}.

(** [Object.keys(DUID_TYPES).find(k => DUID_TYPES[k] === type) || 'unknown'] *)
Definition type_name (t : Z) : string :=
  if t =? DUID_LLT then "DUID_LLT"
  else if t =? DUID_EN then "DUID_EN"
  else if t =? DUID_LL then "DUID_LL"
  else if t =? DUID_UUID then "DUID_UUID"
  else "unknown".

(** [Array.from(bytes).map(b => b.toString(16).padStart(2, '0')).join(':')] *)
Definition colon_hex (bytes : list byte) : string :=
  join ":" (map byte_to_hex bytes).

(** [parseDUID] (lib/duid.js:1006). The time of [timeDate] is kept in
    milliseconds. *)
Definition parseDUID (duid : option (list byte)) : result ParsedDUID :=
  match duid with
  | None => Ok {| type := TypeUnknown; typeName := None; raw := RawInput None;
                  hwType := None; time := None; timeDate := None; lladdr := None;
                  enterpriseNumber := None; identifier := None; uuid := None |}
  | Some d =>
    if (length d <? 2)%nat then
      Ok {| type := TypeUnknown; typeName := None; raw := RawInput (Some d);
            hwType := None; time := None; timeDate := None; lladdr := None;
            enterpriseNumber := None; identifier := None; uuid := None |}
    else
      let t := readUInt16BE d 0 in
      rbind (formatDUID d) (fun text =>
      let result :=
        {| type := TypeNumber t; typeName := Some (type_name t); raw := RawText text;
           hwType := None; time := None; timeDate := None; lladdr := None;
           enterpriseNumber := None; identifier := None; uuid := None |} in
      if t =? DUID_LLT then
        if (14 <=? length d)%nat then
          let tm := readUInt32BE d 4 in
          Ok {| type := type result; typeName := typeName result; raw := raw result;
                hwType := Some (readUInt16BE d 2);
                time := Some tm;
                timeDate := Some ((tm + 946684800) * 1000);
                lladdr := Some (colon_hex (slice d 8 14));
                enterpriseNumber := None; identifier := None; uuid := None |}
        else Ok result
      else if t =? DUID_EN then
        if (6 <=? length d)%nat then
          Ok {| type := type result; typeName := typeName result; raw := raw result;
                hwType := None; time := None; timeDate := None; lladdr := None;
                enterpriseNumber := Some (readUInt32BE d 2);
                identifier := Some (Buffer_toString_hex (drop 6 d));
                uuid := None |}
        else Ok result
      else if t =? DUID_LL then
        if (10 <=? length d)%nat then
          Ok {| type := type result; typeName := typeName result; raw := raw result;
                hwType := Some (readUInt16BE d 2);
                time := None; timeDate := None;
                lladdr := Some (colon_hex (slice d 4 10));
                enterpriseNumber := None; identifier := None; uuid := None |}
        else Ok result
      else if t =? DUID_UUID then
        if (18 <=? length d)%nat then
          let u := slice d 2 18 in
          Ok {| type := type result; typeName := typeName result; raw := raw result;
                hwType := None; time := None; timeDate := None; lladdr := None;
                enterpriseNumber := None; identifier := None;
                uuid := Some (join "-"
                  [Buffer_toString_hex (slice u 0 4);
                   Buffer_toString_hex (slice u 4 6);
                   Buffer_toString_hex (slice u 6 8);
                   Buffer_toString_hex (slice u 8 10);
                   Buffer_toString_hex (slice u 10 16)]) |}
        else Ok result
      else Ok result)
  end.

End Codec.

(** ** The host: files, registry, external commands *)

Module Host.
Import Codec.

(** [os.platform()] *)
Inductive platform_name : Type :=
  | Darwin
  | Linux
  | Win32
  | OtherPlatform (name : string).

Definition platform_string (p : platform_name) : string :=
  match p with
  | Darwin => "darwin"
  | Linux => "linux"
  | Win32 => "win32"
  | OtherPlatform name => name
  end.

(** The record that [storeOriginalDUID] writes. *)
Record metadata : Type := {
  duid : string;
  storedAt : string;
  platform : string;
  hostname : string
}.

(** The text functions of the runtime that are not written out here.
    - [JSON_stringify m] is the file content that
      [writeFileSync(path, JSON.stringify(m, null, 2))] leaves.
    - [JSON_parse_duid content] is the member [metadata.duid] that
      [JSON.parse(readFileSync(path, 'utf8'))] yields: a string, or the
      bytes that [Buffer.from] makes of a member that is an array or a
      buffer object; and nothing when decoding, parsing, the member access
      or [Buffer.from] on the member throws.
    - [match_networkctl_duid], [match_client_id]: the first group of
      [/DUID:\s*([0-9a-fA-F:]+)/i] in a tool's output and of
      [/send\s+dhcp6\.client-id\s+([0-9a-fA-F:]+)/i] in a file read as
      UTF-8.
    - [strip_client_id content]: the file content, read as UTF-8, after
      [.replace(/send\s+dhcp6\.client-id\s+[^;]+;/g, '')], written back. *)
Record runtime : Type := {
  JSON_stringify : metadata -> list byte;
  JSON_parse_duid : list byte -> option (string + list byte);
  match_networkctl_duid : string -> option string;
  match_client_id : list byte -> option string;
  strip_client_id : list byte -> list byte
}.

(** What does not change between calls on one host. [writable p] tells
    whether this process may create, overwrite or remove the path [p]:
    [mkdirSync], [writeFileSync] and [unlinkSync] throw where it is false. *)
Record host : Type := {
  os_platform : platform_name;
  os_homedir : string;
  os_hostname : string;
  env_PROGRAMDATA : option string;
  env_APPDATA : option string;
  writable : string -> bool;
  node : runtime
}.

(** What the calls change: regular files by path, the directories that
    exist, and the value [Dhcpv6DUID] of the Windows registry key. *)
Record world : Type := {
  files : gmap string (list byte);
  dirs : gset string;
  registry_duid : option (list byte)
}.

Definition set_files (f : gmap string (list byte)) (w : world) : world :=
  {| files := f; dirs := dirs w; registry_duid := registry_duid w |}.

Definition set_dirs (d : gset string) (w : world) : world :=
  {| files := files w; dirs := d; registry_duid := registry_duid w |}.

Definition set_registry_duid (r : option (list byte)) (w : world) : world :=
  {| files := files w; dirs := dirs w; registry_duid := r |}.

(** The commands handed to [execSync]. *)
Inductive command : Type :=
  | networksetup_setv6off (name : string)
      (* networksetup -setv6off "<name>" *)
  | networksetup_setv6automatic (name : string)
      (* networksetup -setv6automatic "<name>" *)
  | rm_DUID_glob
      (* rm -f /var/db/dhcpclient/DUID* *)
  | rm_DUID
      (* rm -f /var/db/dhcpclient/DUID *)
  | rm_leases
      (* rm -rf /var/db/dhcpclient/leases/* *)
  | defaults_read_DUID
      (* defaults read /var/db/dhcpclient/DUID 2>/dev/null || true *)
  | systemctl_is_active_networkd
  | pgrep_dhclient
  | pgrep_NetworkManager
  | networkctl_status_duid
      (* networkctl status 2>/dev/null | grep -i duid *)
  | systemctl_restart_networkd
  | dhclient_release (iface : string)
      (* dhclient -6 -r <iface> 2>/dev/null || true *)
  | dhclient_start (iface : string)
      (* dhclient -6 <iface> 2>/dev/null || true *)
  | nmcli_show_duid
      (* nmcli -g dhcp6.duid connection show *)
  | nmcli_device_connection (iface : string)
      (* nmcli -g GENERAL.CONNECTION device show <iface> *)
  | nmcli_modify_duid (conn : string) (value : string)
      (* nmcli connection modify "<conn>" ipv6.dhcp-duid <value> *)
  | nmcli_down_up (conn : string)
      (* nmcli connection down "<conn>" && nmcli connection up "<conn>" *)
  | reg_query
      (* reg query "<key>" /v Dhcpv6DUID 2>nul *)
  | reg_add (hex : string)
      (* reg add "<key>" /v Dhcpv6DUID /t REG_BINARY /d <hex> /f *)
  | reg_delete
      (* reg delete "<key>" /v Dhcpv6DUID /f *)
  | netsh_ipv6 (iface : string) (enabled : bool)
      (* netsh interface ipv6 set interface "<iface>" disabled|enabled *)
  | powershell_rebind (iface : string).
      (* Disable-NetAdapterBinding ...; Enable-NetAdapterBinding ... *)

(** What one call meets outside the process: whether a command exits with
    status 0 ([exec_ok]) and what it prints ([exec_out]); the hardware port
    that [networksetup -listallhardwareports] lists for a device; the
    text of [new Date().toISOString()]. *)
Record env : Type := {
  exec_ok : command -> bool;
  exec_out : command -> string;
  hardware_port : string -> option string;
  now_iso : string
}.

(** State and exceptions: a computation reads the [host] and the call's
    [env], changes the [world], and returns or throws. What was changed
    before a throw stays changed. *)
Definition M (A : Type) : Type := host -> env -> world -> result A * world.

#[export] Instance M_ret : MRet M := fun A a _ _ w => (Ok a, w).

#[export] Instance M_bind : MBind M := fun A B k m h e w =>
  match m h e w with
  | (Ok a, w') => k a h e w'
  | (Throw x, w') => (Throw x, w')
  end.

Definition throw {A} (x : error) : M A := fun _ _ w => (Throw x, w).

(** [try { m } catch (e) { handler }] *)
Definition try_catch {A} (m : M A) (handler : M A) : M A := fun h e w =>
  match m h e w with
  | (Ok a, w') => (Ok a, w')
  | (Throw _, w') => handler h e w'
  end.

Definition get_world : M world := fun _ _ w => (Ok w, w).
Definition put_world (w : world) : M unit := fun _ _ _ => (Ok tt, w).
Definition get_host : M host := fun h _ w => (Ok h, w).
Definition get_env : M env := fun _ e w => (Ok e, w).

(** A pure computation that may throw. *)
Definition lift {A} (r : result A) : M A := fun _ _ w => (r, w).

(** [if (c) { m }] *)
Definition when (c : bool) (m : M unit) : M unit :=
  if c then m else mret tt.

(** A string is truthy when it is not empty; [null] is falsy. *)
Definition truthy (s : option string) : bool :=
  match s with
  | Some (String _ _) => true
  | _ => false
  end.

(** *** The file system *)

(** [fs.existsSync(p)]: a file or a directory is there. *)
Definition exists_in (w : world) (p : string) : bool :=
  bool_decide (is_Some (files w !! p)) || bool_decide (p ∈ dirs w).

Definition existsSync (p : string) : M bool :=
  w ← get_world; mret (exists_in w p).

(** [fs.mkdirSync(p, { recursive: true })] *)
Definition mkdirSync (p : string) : M unit :=
  h ← get_host;
  if writable h p then w ← get_world; put_world (set_dirs ({[p]} ∪ dirs w) w)
  else throw (Error "EACCES").

(** [fs.readFileSync(p)], for a process that may read every file that
    exists; [Refused.readFileSync] is the primitive without that
    assumption. *)
Definition readFileSync (p : string) : M (list byte) :=
  w ← get_world;
  match files w !! p with
  | Some content => mret content
  | None => throw (Error "ENOENT")
  end.

Definition writeFileSync (p : string) (content : list byte) : M unit :=
  h ← get_host;
  if writable h p then w ← get_world; put_world (set_files (<[p := content]> (files w)) w)
  else throw (Error "EACCES").

Definition unlinkSync (p : string) : M unit :=
  h ← get_host;
  w ← get_world;
  match files w !! p with
  | Some _ =>
      if writable h p then put_world (set_files (delete p (files w)) w)
      else throw (Error "EACCES")
  | None => throw (Error "ENOENT")
  end.

(** *** Paths *)

Definition is_sep (p : platform_name) (c : ascii) : bool :=
  match p with
  | Win32 => (code c =? 92) || (code c =? 47)
  | _ => code c =? 47
  end.

Definition sep (p : platform_name) : string :=
  match p with
  | Win32 => String (chr 92) ""
  | _ => "/"
  end.

(** [path.join(a, b, ...)]: the parts with the platform's separator between
    them. The normalisation of dot segments and doubled separators that
    [path.join] also does is left out: the source joins fixed names to
    directories. *)
Definition path_join (p : platform_name) (parts : list string) : string :=
  join (sep p) parts.

(** [path.dirname(s)]: [s] up to its last separator. *)
Fixpoint dirname_aux (p : platform_name) (s : string) : option string :=
  match s with
  | "" => None
  | String c rest =>
      match dirname_aux p rest with
      | Some d => Some (String c d)
      | None => if is_sep p c then Some "" else None
      end
  end.

Definition dirname (p : platform_name) (s : string) : string :=
  match dirname_aux p s with
  | Some "" => sep p
  | Some d => d
  | None => "."
  end.

(** *** Commands *)

Definition DUID_PATH : string := "/var/db/dhcpclient/DUID".

Fixpoint has_slash (s : string) : bool :=
  match s with
  | "" => false
  | String c rest => (code c =? 47) || has_slash rest
  end.

Fixpoint drop_string (n : nat) (s : string) : string :=
  match n, s with
  | O, _ => s
  | S n', String _ rest => drop_string n' rest
  | S _, "" => ""
  end.

(** The paths that the shell pattern [/var/db/dhcpclient/DUID*] expands
    to: the entries of that directory whose name starts with [DUID]. *)
Definition matches_DUID_glob (p : string) : bool :=
  String.prefix DUID_PATH p
    && negb (has_slash (drop_string (String.length DUID_PATH) p)).

(** The paths below the entries that [/var/db/dhcpclient/leases/*] expands
    to; the pattern skips the names that start with a dot. *)
Definition matches_leases_glob (p : string) : bool :=
  let dir := "/var/db/dhcpclient/leases/" in
  String.prefix dir p &&
  match drop_string (String.length dir) p with
  | "" => false
  | String c _ => negb (code c =? 46)
  end.

Definition remove_matching (f : string -> bool) (w : world) : world :=
  {| files := filter (fun kv => f kv.1 = false) (files w);
     dirs := filter (fun d => f d = false) (dirs w);
     registry_duid := registry_duid w |}.

(** What a command that exits with status 0 has done to the [world]. The
    other commands act on state that is not kept here (the IPv6 switch of
    an interface, the DHCP daemons). *)
Definition command_effect (c : command) (w : world) : world :=
  match c with
  | rm_DUID_glob =>
      set_files (filter (fun kv => matches_DUID_glob kv.1 = false) (files w)) w
  | rm_DUID => set_files (delete DUID_PATH (files w)) w
  | rm_leases => remove_matching matches_leases_glob w
  | reg_add hex => set_registry_duid (Some (Buffer_from_hex hex)) w
  | reg_delete => set_registry_duid None w
  | _ => w
  end.

(** [execSync(c)]: throws when the command exits with another status; a
    command that fails has changed nothing. [reg query] and [reg delete]
    fail when the value is absent; what [reg query] prints is kept as the
    hexadecimal digits of its REG_BINARY column. *)
Definition execSync (c : command) : M string := fun _ e w =>
  let failed := (Throw (Error "Command failed"), w) in
  if negb (exec_ok e c) then failed
  else
    match c, registry_duid w with
    | reg_query, Some data => (Ok (duidToHex data), w)
    | reg_query, None => failed
    | reg_delete, None => failed
    | _, _ => (Ok (exec_out e c), command_effect c w)
    end.

End Host.

(** ** The original-value store (lib/duid.js:153-249) *)

Module Store.
Import Codec Host.

(** [v || d] for strings *)
Definition or_else (v : option string) (d : string) : string :=
  match v with
  | Some (String c rest) => String c rest
  | _ => d
  end.

(** [getOriginalDUIDPath] (lib/duid.js:155) *)
Definition getOriginalDUIDPath : M string :=
  h ← get_host;
  let p := os_platform h in
  match p with
  | Darwin => mret "/var/db/dhcpclient/DUID.original"
  | Linux =>
      let linuxPath := "/var/lib/spoofy" in
      ex ← existsSync linuxPath;
      if negb ex then
        try_catch
          (mkdirSync linuxPath;;
           mret (path_join p [linuxPath; "duid.original"]))
          (mret (path_join p [os_homedir h; ".spoofy"; "duid.original"]))
      else mret (path_join p [linuxPath; "duid.original"])
  | Win32 =>
      let winPath :=
        path_join p [or_else (env_PROGRAMDATA h) "C:\ProgramData"; "spoofy"] in
      ex ← existsSync winPath;
      if negb ex then
        try_catch
          (mkdirSync winPath;;
           mret (path_join p [winPath; "duid.original"]))
          (mret (path_join p
             [or_else (env_APPDATA h) (os_homedir h); "spoofy"; "duid.original"]))
      else mret (path_join p [winPath; "duid.original"])
  | OtherPlatform _ =>
      mret (path_join p [os_homedir h; ".spoofy"; "duid.original"])
  end.

(** [storeOriginalDUID] (lib/duid.js:185): store only if not already
    stored. *)
Definition storeOriginalDUID (duid : list byte) : M bool :=
  originalPath ← getOriginalDUIDPath;
  ex ← existsSync originalPath;
  if ex : bool then mret false
  else
    h ← get_host;
    e ← get_env;
    let dir := dirname (os_platform h) originalPath in
    exd ← existsSync dir;
    when (negb exd) (mkdirSync dir);;
    let metadata :=
      {| Host.duid := Buffer_toString_hex duid;
         storedAt := now_iso e;
         platform := platform_string (os_platform h);
         hostname := os_hostname h |} in
    writeFileSync originalPath (JSON_stringify (node h) metadata);;
    mret true.

(** [getOriginalDUID] (lib/duid.js:208): the structured record first, the
    raw content of the file (legacy format) when that fails. *)
Definition getOriginalDUID : M (option (list byte)) :=
  originalPath ← getOriginalDUIDPath;
  ex ← existsSync originalPath;
  if negb ex then mret None
  else
    h ← get_host;
    try_catch
      (content ← readFileSync originalPath;
       match JSON_parse_duid (node h) content with
       | Some (inl text) => mret (Some (Buffer_from_hex text))
       | Some (inr bytes) => mret (Some bytes)
       | None => throw TypeError
       end)
      (try_catch
         (content ← readFileSync originalPath; mret (Some content))
         (mret None)).

(** [hasOriginalDUID] (lib/duid.js:233) *)
Definition hasOriginalDUID : M bool :=
  originalPath ← getOriginalDUIDPath;
  existsSync originalPath.

(** [clearOriginalDUID] (lib/duid.js:242) *)
Definition clearOriginalDUID : M bool :=
  originalPath ← getOriginalDUIDPath;
  ex ← existsSync originalPath;
  if ex : bool then unlinkSync originalPath;; mret true
  else mret false.

End Store.

(** ** The platform adapters *)

(** What [restoreDUID] returns: [true], [false] or ['not_spoofed']. *)
Inductive restore_result : Type :=
  | Restored
  | NoOriginal
  | NotSpoofed.

(** *** macOS (lib/duid.js:253-424) *)

Module macos.
Import Codec Host Store.

Definition DUID_PATH : string := Host.DUID_PATH.

(** [getHardwarePort] (lib/duid.js:409): everything in it is inside one
    [try], so it returns a port name or [null]. *)
Definition getHardwarePort (device : string) : M (option string) :=
  e ← get_env; mret (hardware_port e device).

Definition getCurrentDUID : M (option (list byte)) :=
  try_catch
    (ex ← existsSync DUID_PATH;
     if ex : bool then content ← readFileSync DUID_PATH; mret (Some content)
     else
       out ← execSync defaults_read_DUID;
       let result := trim out in
       if truthy (Some result) then mret (Some (hexToDuid result))
       else mret None)
    (mret None).

Definition backupOriginal : M bool :=
  current ← getCurrentDUID;
  match current : option (list byte) with
  | Some c => _ ← storeOriginalDUID c; mret true
  | None => mret false
  end.

(** The IPv6 switch as [setDUID] and [restoreDUID] use it: by the name
    given, and when that throws, by the hardware port of the device. *)
Definition toggle_v6 (cmd : string -> command) (iface : option string) : M unit :=
  match iface with
  | Some (String c rest) =>
      let name := String c rest in
      try_catch
        (_ ← execSync (cmd name); mret tt)
        (hwPort ← getHardwarePort name;
         match hwPort : option string with
         | Some (String c' rest') => _ ← execSync (cmd (String c' rest')); mret tt
         | _ => mret tt
         end)
  | _ => mret tt
  end.

(** [macos.setDUID] (lib/duid.js:286) *)
Definition setDUID (duid : list byte) (iface : option string) : M bool :=
  backupOriginal;;
  toggle_v6 networksetup_setv6off iface;;
  try_catch
    (execSync rm_DUID_glob;; execSync rm_leases;; mret tt)
    (mret tt);;
  h ← get_host;
  let duidDir := dirname (os_platform h) DUID_PATH in
  ex ← existsSync duidDir;
  when (negb ex) (mkdirSync duidDir);;
  writeFileSync DUID_PATH duid;;
  toggle_v6 networksetup_setv6automatic iface;;
  mret true.

(** [macos.restoreDUID] (lib/duid.js:328) *)
Definition restoreDUID (iface : option string) : M restore_result :=
  original ← getOriginalDUID;
  match original : option (list byte) with
  | None => mret NoOriginal
  | Some original =>
      current ← getCurrentDUID;
      let same :=
        match current : option (list byte) with
        | Some c => Buffer_equals c original
        | None => false
        end in
      if same then mret NotSpoofed
      else
        toggle_v6 networksetup_setv6off iface;;
        try_catch
          (execSync rm_DUID;; execSync rm_leases;; mret tt)
          (mret tt);;
        writeFileSync DUID_PATH original;;
        toggle_v6 networksetup_setv6automatic iface;;
        mret Restored
  end.

(** The IPv6 switch as [resetDUID] uses it: by the hardware port of the
    device, or by the name given when there is none; a failure is dropped. *)
Definition toggle_v6_quiet (cmd : string -> command) (iface : option string) : M unit :=
  match iface with
  | Some (String c rest) =>
      let name := String c rest in
      port ← getHardwarePort name;
      let hwPort := or_else port name in
      try_catch (_ ← execSync (cmd hwPort); mret tt) (mret tt)
  | _ => mret tt
  end.

(** [macos.resetDUID] (lib/duid.js:381) *)
Definition resetDUID (iface : option string) : M bool :=
  toggle_v6_quiet networksetup_setv6off iface;;
  try_catch (_ ← execSync rm_DUID; mret tt) (mret tt);;
  toggle_v6_quiet networksetup_setv6automatic iface;;
  mret true.

End macos.

(** *** Windows (lib/duid.js:775-933) *)

Module windows.
Import Codec Host Store.

Definition getCurrentDUID : M (option (list byte)) :=
  try_catch
    (output ← execSync reg_query;
     if truthy (Some output) then mret (Some (Buffer_from_hex output))
     else mret None)
    (mret None).

Definition backupOriginal : M bool :=
  current ← getCurrentDUID;
  match current : option (list byte) with
  | Some c => _ ← storeOriginalDUID c; mret true
  | None => mret false
  end.

(** Disable and enable IPv6 on the interface; the PowerShell way when
    [netsh] fails; nothing of it propagates. *)
Definition restart_v6 (iface : option string) : M unit :=
  match iface with
  | Some (String c rest) =>
      let name := String c rest in
      try_catch
        (execSync (netsh_ipv6 name false);; execSync (netsh_ipv6 name true);; mret tt)
        (try_catch (_ ← execSync (powershell_rebind name); mret tt) (mret tt))
  | _ => mret tt
  end.

(** [windows.setDUID] (lib/duid.js:815) *)
Definition setDUID (duid : list byte) (iface : option string) : M bool :=
  backupOriginal;;
  let duidHex := toUpperCase (Buffer_toString_hex duid) in
  try_catch
    (_ ← execSync (reg_add duidHex); mret tt)
    (throw (Error "Failed to set DUID. Make sure you are running as Administrator."));;
  restart_v6 iface;;
  mret true.

(** [windows.restoreDUID] (lib/duid.js:854) *)
Definition restoreDUID (iface : option string) : M restore_result :=
  original ← getOriginalDUID;
  match original : option (list byte) with
  | None => mret NoOriginal
  | Some original =>
      current ← getCurrentDUID;
      let same :=
        match current : option (list byte) with
        | Some c => Buffer_equals c original
        | None => false
        end in
      if same then mret NotSpoofed
      else
        let duidHex := toUpperCase (Buffer_toString_hex original) in
        try_catch
          (_ ← execSync (reg_add duidHex); mret tt)
          (throw (Error "Failed to restore DUID. Make sure you are running as Administrator."));;
        restart_v6 iface;;
        mret Restored
  end.

(** [windows.resetDUID] (lib/duid.js:901) *)
Definition resetDUID (iface : option string) : M bool :=
  try_catch (_ ← execSync reg_delete; mret tt) (mret tt);;
  match iface with
  | Some (String c rest) =>
      let name := String c rest in
      try_catch
        (execSync (netsh_ipv6 name false);; execSync (netsh_ipv6 name true);; mret tt)
        (mret tt)
  | _ => mret tt
  end;;
  mret true.

End windows.

(** *** Linux (lib/duid.js:430-769) *)

Module linux.
Import Codec Host Store.

Definition SYSTEMD_DUID_PATH : string := "/etc/systemd/network".
Definition DHCLIENT_CONF : string := "/etc/dhcp/dhclient6.conf".

Inductive dhcp_client : Type :=
  | systemd
  | dhclient
  | networkmanager
  | unknown.

(** [detectDHCPClient] (lib/duid.js:439) *)
Definition detectDHCPClient : M dhcp_client :=
  try_catch (_ ← execSync systemctl_is_active_networkd; mret systemd)
  (try_catch (_ ← execSync pgrep_dhclient; mret dhclient)
  (try_catch (_ ← execSync pgrep_NetworkManager; mret networkmanager)
  (mret unknown))).

(** [linux.getCurrentDUID] (lib/duid.js:461) *)
Definition getCurrentDUID : M (option (list byte)) :=
  client ← detectDHCPClient;
  h ← get_host;
  match client : dhcp_client with
  | systemd =>
      try_catch
        (output ← execSync networkctl_status_duid;
         match match_networkctl_duid (node h) output with
         | Some m => mret (Some (hexToDuid m))
         | None => mret None
         end)
        (mret None)
  | dhclient =>
      try_catch
        (ex ← existsSync DHCLIENT_CONF;
         if ex : bool then
           content ← readFileSync DHCLIENT_CONF;
           match match_client_id (node h) content with
           | Some m => mret (Some (hexToDuid m))
           | None => mret None
           end
         else mret None)
        (mret None)
  | networkmanager =>
      try_catch
        (output ← execSync nmcli_show_duid;
         if truthy (Some (trim output)) then mret (Some (hexToDuid (trim output)))
         else mret None)
        (mret None)
  | unknown => mret None
  end.

Definition backupOriginal : M bool :=
  current ← getCurrentDUID;
  match current : option (list byte) with
  | Some c => _ ← storeOriginalDUID c; mret true
  | None => mret false
  end.

Definition nl : string := String (chr 10) "".

(** The content of a systemd network file, with and without a [Match]
    section. *)
Definition network_file_content (iface : option string) (rawDuid : string) : string :=
  match iface with
  | Some (String c rest) =>
      "[Match]" ++ nl ++ "Name=" ++ String c rest ++ nl ++ nl
        ++ "[DHCPv6]" ++ nl ++ "DUIDType=raw" ++ nl ++ "DUIDRawData=" ++ rawDuid ++ nl
  | _ =>
      "[DHCPv6]" ++ nl ++ "DUIDType=raw" ++ nl ++ "DUIDRawData=" ++ rawDuid ++ nl
  end.

(** The rewriting of [dhclient6.conf] that [setDUID] and [restoreDUID]
    share: the old [send dhcp6.client-id] lines out, the new one appended. *)
Definition write_dhclient_conf (duidHex : string) : M unit :=
  h ← get_host;
  let confDir := dirname (os_platform h) DHCLIENT_CONF in
  exd ← existsSync confDir;
  when (negb exd) (mkdirSync confDir);;
  ex ← existsSync DHCLIENT_CONF;
  content ← (if ex : bool then
               content ← readFileSync DHCLIENT_CONF;
               mret (strip_client_id (node h) content)
             else mret []);
  writeFileSync DHCLIENT_CONF
    (content ++ utf8 (nl ++ "send dhcp6.client-id " ++ duidHex ++ ";" ++ nl)).

(** [dhclient -6 -r iface; dhclient -6 iface], when an interface is given. *)
Definition restart_dhclient (iface : option string) : M unit :=
  match iface with
  | Some (String c rest) =>
      let name := String c rest in
      try_catch
        (execSync (dhclient_release name);; execSync (dhclient_start name);; mret tt)
        (mret tt)
  | _ => mret tt
  end.

(** The NetworkManager way of [setDUID] and [restoreDUID]: the connection
    of the interface gets the value and is taken down and up. *)
Definition nmcli_set_duid (iface : option string) (value : string) (restart : bool) : M unit :=
  match iface with
  | Some (String c rest) =>
      let name := String c rest in
      try_catch
        (out ← execSync (nmcli_device_connection name);
         let connName := trim out in
         if truthy (Some connName) then
           execSync (nmcli_modify_duid connName value);;
           (if restart then _ ← execSync (nmcli_down_up connName); mret tt
            else mret tt)
         else mret tt)
        (mret tt)
  | _ => mret tt
  end.

(** [linux.setDUID] (lib/duid.js:525) *)
Definition setDUID (duid : list byte) (iface : option string) : M bool :=
  backupOriginal;;
  client ← detectDHCPClient;
  text ← lift (formatDUID duid);
  let duidHex := toLowerCase text in
  match client : dhcp_client with
  | systemd =>
      let networkFile :=
        match iface with
        | Some (String c rest) => SYSTEMD_DUID_PATH ++ "/" ++ String c rest ++ ".network"
        | _ => SYSTEMD_DUID_PATH ++ "/00-duid.network"
        end in
      ex ← existsSync SYSTEMD_DUID_PATH;
      when (negb ex) (mkdirSync SYSTEMD_DUID_PATH);;
      let rawDuid := Buffer_toString_hex duid in
      let content := utf8 (network_file_content iface rawDuid) in
      when (negb (truthy iface))
        (writeFileSync (SYSTEMD_DUID_PATH ++ "/00-duid.conf") content);;
      when (truthy iface) (writeFileSync networkFile content);;
      try_catch (_ ← execSync systemctl_restart_networkd; mret tt) (mret tt);;
      mret true
  | dhclient =>
      write_dhclient_conf duidHex;;
      restart_dhclient iface;;
      mret true
  | networkmanager =>
      nmcli_set_duid iface duidHex true;;
      mret true
  | unknown =>
      throw (Error "Could not detect DHCP client. Please configure DUID manually.")
  end.

(** [linux.restoreDUID] (lib/duid.js:633) *)
Definition restoreDUID (iface : option string) : M restore_result :=
  original ← getOriginalDUID;
  match original : option (list byte) with
  | None => mret NoOriginal
  | Some original =>
      current ← getCurrentDUID;
      let same :=
        match current : option (list byte) with
        | Some c => Buffer_equals c original
        | None => false
        end in
      if same then mret NotSpoofed
      else
        client ← detectDHCPClient;
        text ← lift (formatDUID original);
        let duidHex := toLowerCase text in
        match client : dhcp_client with
        | systemd =>
            let rawDuid := Buffer_toString_hex original in
            writeFileSync (SYSTEMD_DUID_PATH ++ "/00-duid.conf")
              (utf8 (network_file_content None rawDuid));;
            try_catch (_ ← execSync systemctl_restart_networkd; mret tt) (mret tt)
        | dhclient =>
            write_dhclient_conf duidHex;;
            restart_dhclient iface
        | networkmanager => nmcli_set_duid iface duidHex true
        | unknown => mret tt
        end;;
        mret Restored
  end.

(** [files.forEach(f => { if (fs.existsSync(f)) fs.unlinkSync(f) })] *)
Fixpoint unlink_existing (paths : list string) : M unit :=
  match paths with
  | [] => mret tt
  | f :: rest =>
      ex ← existsSync f;
      when ex (unlinkSync f);;
      unlink_existing rest
  end.

(** [linux.resetDUID] (lib/duid.js:716) *)
Definition resetDUID (iface : option string) : M bool :=
  client ← detectDHCPClient;
  match client : dhcp_client with
  | systemd =>
      let paths :=
        (SYSTEMD_DUID_PATH ++ "/00-duid.conf") ::
        match iface with
        | Some (String c rest) => [SYSTEMD_DUID_PATH ++ "/" ++ String c rest ++ ".network"]
        | _ => []
        end in
      unlink_existing paths;;
      try_catch (_ ← execSync systemctl_restart_networkd; mret tt) (mret tt)
  | dhclient =>
      h ← get_host;
      ex ← existsSync DHCLIENT_CONF;
      when ex
        (content ← readFileSync DHCLIENT_CONF;
         writeFileSync DHCLIENT_CONF (strip_client_id (node h) content))
  | networkmanager => nmcli_set_duid iface "stable-llt" false
  | unknown => mret tt
  end;;
  mret true.

End linux.

(** ** The cross-platform API (lib/duid.js:935-999) *)

(** The methods that the three platform objects share. *)
Record adapter : Type := {
  getCurrentDUID : Host.M (option (list byte));
  backupOriginal : Host.M bool;
  setDUID : list byte -> option string -> Host.M bool;
  restoreDUID : option string -> Host.M restore_result;
  resetDUID : option string -> Host.M bool
}.

Definition macos_impl : adapter :=
  {| getCurrentDUID := macos.getCurrentDUID;
     backupOriginal := macos.backupOriginal;
     setDUID := macos.setDUID;
     restoreDUID := macos.restoreDUID;
     resetDUID := macos.resetDUID |}.

Definition linux_impl : adapter :=
  {| getCurrentDUID := linux.getCurrentDUID;
     backupOriginal := linux.backupOriginal;
     setDUID := linux.setDUID;
     restoreDUID := linux.restoreDUID;
     resetDUID := linux.resetDUID |}.

Definition windows_impl : adapter :=
  {| getCurrentDUID := windows.getCurrentDUID;
     backupOriginal := windows.backupOriginal;
     setDUID := windows.setDUID;
     restoreDUID := windows.restoreDUID;
     resetDUID := windows.resetDUID |}.

Module API.
Import Codec Host.

(** [getPlatformImpl] (lib/duid.js:942) *)
Definition getPlatformImpl : M adapter :=
  h ← get_host;
  match os_platform h with
  | Darwin => mret macos_impl
  | Linux => mret linux_impl
  | Win32 => mret windows_impl
  | OtherPlatform _ => throw (Error "Unsupported platform")
  end.

Definition getCurrentDUID : M (option (list byte)) :=
  impl ← getPlatformImpl; getCurrentDUID impl.

(** [setDUID(duid, iface = null)] (lib/duid.js:968): a [Buffer] is passed
    on, a string goes through [hexToDuid]. *)
Definition setDUID (duid : list byte + string) (iface : option string) : M bool :=
  let duidBuf :=
    match duid with
    | inl buf => buf
    | inr hex => hexToDuid hex
    end in
  impl ← getPlatformImpl; setDUID impl duidBuf iface.

Definition restoreDUID (iface : option string) : M restore_result :=
  impl ← getPlatformImpl; restoreDUID impl iface.

Definition resetDUID (iface : option string) : M bool :=
  impl ← getPlatformImpl; resetDUID impl iface.

End API.

(** ** The address of an interface and the calls that generate and apply
    (lib/duid.js:32-68, 143-151, 979-983) *)

Module Link.
Import Codec Host.

(** [s.toLowerCase()] on code units below 256: the capitals of ASCII and
    those of Latin-1 (192 to 222, without the multiplication sign 215). *)
Definition lower_unit (c : ascii) : ascii :=
  let n := code c in
  if ((65 <=? n) && (n <=? 90)) || ((192 <=? n) && (n <=? 222) && negb (n =? 215))
  then chr (n + 32)
  else c.

Definition toLowerCase_units (s : string) : string := map_string lower_unit s.

(** [s.replace(/-/g, ':')] *)
Definition dashes_to_colons (s : string) : string :=
  map_string (fun c => if code c =? 45 then ":"%char else c) s.

(** A character of the class [[0-9a-f:]] under the flag [i]. *)
Definition is_hex_or_colon (c : ascii) : bool :=
  is_colon c || match unhex c with Some _ => true | None => false end.

(** The literal [lit], in lowercase letters, matched under the flag [i] at
    the head of [s]: what follows it. *)
Fixpoint literal_ci (lit s : string) : option string :=
  match lit, s with
  | "", _ => Some s
  | String a lit', String b s' =>
      if Ascii.eqb a (lower_char b) then literal_ci lit' s' else None
  | String _ _, "" => None
  end.

(** [n] characters of the class at the head of [s]. *)
Fixpoint class_run (n : nat) (s : string) : option string :=
  match n with
  | O => Some ""
  | S n' =>
      match s with
      | String c rest =>
          if is_hex_or_colon c then
            match class_run n' rest with
            | Some run => Some (String c run)
            | None => None
            end
          else None
      | "" => None
      end
  end.

(** The pattern [lit\s+([0-9a-f:]{17})] matched at the head of [s]: its
    group. The white space is taken in full: no character of it is in the
    class that follows. *)
Definition ether_at (lit s : string) : option string :=
  match literal_ci lit s with
  | Some (String c rest) =>
      if is_space c then class_run 17 (trim_start rest) else None
  | _ => None
  end.

(** [s.match(/lit\s+([0-9a-f:]{17})/i)]: the group of the leftmost match,
    or nothing. *)
Fixpoint match_ether (lit s : string) : option string :=
  match ether_at lit s with
  | Some m => Some m
  | None =>
      match s with
      | "" => None
      | String _ rest => match_ether lit rest
      end
  end.

(** What [getCurrentMACAddress] meets outside the process: the text that
    each of its three commands prints for an interface, or the failure of
    the command; and [os.networkInterfaces()], as the names in the order of
    [for ... in] with the [mac] members of their entries. *)
Record link_probe : Type := {
  ifconfig : string -> result string;
      (* ifconfig <iface> *)
  ip_link_show : string -> result string;
      (* ip link show <iface> *)
  Get_NetAdapter_MacAddress : string -> result string;
      (* powershell -Command "Get-NetAdapter -Name '<iface>' | Select-Object -ExpandProperty MacAddress" *)
  networkInterfaces : list (string * list string)
}.

(** The handler of [getCurrentMACAddress]: the first name that equals the
    interface when case is set aside decides, by its first entry with an
    address other than the null address. *)
Fixpoint fallback_mac (ifaces : list (string * list string)) (iface : string)
  : option string :=
  match ifaces with
  | [] => None
  | (name, macs) :: rest =>
      if String.eqb (toLowerCase_units name) (toLowerCase_units iface) then
        List.find
          (fun mac => truthy (Some mac) && negb (String.eqb mac "00:00:00:00:00:00"))
          macs
      else fallback_mac rest iface
  end.

(** [getCurrentMACAddress] (lib/duid.js:32) *)
Definition getCurrentMACAddress (pr : link_probe) (iface : option string)
  : M (option string) :=
  match iface with
  | Some (String c rest) =>
      let iface := String c rest in
      h ← get_host;
      try_catch
        (match os_platform h with
         | Darwin =>
             output ← lift (ifconfig pr iface);
             mret (match_ether "ether" output)
         | Linux =>
             output ← lift (ip_link_show pr iface);
             mret (match_ether "link/ether" output)
         | Win32 =>
             out ← lift (Get_NetAdapter_MacAddress pr iface);
             let output := trim out in
             if truthy (Some output)
             then mret (Some (toLowerCase_units (dashes_to_colons output)))
             else mret None
         | OtherPlatform _ => mret None
         end)
        (mret (fallback_mac (networkInterfaces pr) iface))
  | _ => throw (Error "Interface name required")
  end.

(** [randomizeDUID(type, iface, mac)] (lib/duid.js:979) *)
Definition randomizeDUID (type : option Z) (iface : option string) (mac : option string)
    (r : rng) (now : Z) : M (list byte) :=
  duid ← lift (generateDUID type mac r now);
  API.setDUID (inl duid) iface;;
  mret duid.

(** [syncDUID(iface, type)] (lib/duid.js:143). Where the message is
    built, [iface] is a name: [getCurrentMACAddress] has thrown otherwise. *)
Definition syncDUID (pr : link_probe) (iface : option string) (type : option Z)
    (r : rng) (now : Z) : M (list byte) :=
  currentMac ← getCurrentMACAddress pr iface;
  if truthy currentMac then
    duid ← lift (generateDUID type currentMac r now);
    API.setDUID (inl duid) iface;;
    mret duid
  else
    throw (Error ("Could not get MAC address for interface: " ++ default "" iface)).

End Link.

(** ** Reading where the process may be refused (lib/duid.js:208-227,
    256-269)

    [Host.readFileSync] returns the content of every file that exists: the
    process may read what is there. Here it may be refused: [readable p]
    tells whether the process may read the file at [p], and
    [fs.readFileSync] throws where it may not. The two functions that
    catch the errors of their reads are written out over this primitive. *)

Module Refused.
Import Codec Host Store.

Section Readable.
Variable readable : string -> bool.

(** [fs.readFileSync(p)] *)
Definition readFileSync (p : string) : M (list byte) :=
  w ← get_world;
  match files w !! p with
  | Some content => if readable p then mret content else throw (Error "EACCES")
  | None => throw (Error "ENOENT")
  end.

(** [getOriginalDUID] (lib/duid.js:208) *)
Definition getOriginalDUID : M (option (list byte)) :=
  originalPath ← getOriginalDUIDPath;
  ex ← existsSync originalPath;
  if negb ex then mret None
  else
    h ← get_host;
    try_catch
      (content ← readFileSync originalPath;
       match JSON_parse_duid (node h) content with
       | Some (inl text) => mret (Some (Buffer_from_hex text))
       | Some (inr bytes) => mret (Some bytes)
       | None => throw TypeError
       end)
      (try_catch
         (content ← readFileSync originalPath; mret (Some content))
         (mret None)).

(** [macos.getCurrentDUID] (lib/duid.js:256) *)
Definition macos_getCurrentDUID : M (option (list byte)) :=
  try_catch
    (ex ← existsSync macos.DUID_PATH;
     if ex : bool then content ← readFileSync macos.DUID_PATH; mret (Some content)
     else
       out ← execSync defaults_read_DUID;
       let result := trim out in
       if truthy (Some result) then mret (Some (hexToDuid result))
       else mret None)
    (mret None).

End Readable.

End Refused.

(** ** The command line (lib/duid-cli.js, kept as src/unnamed/part_000:1105-1608)

    What is kept of a command is what it does to the system and how it
    ends; what it prints is not. Each place where the source prints is
    marked by [say], and every call made to build a printed text is kept,
    since it may throw. One command meets one [env]: the commands it runs
    answer alike throughout. *)

Module CLI.
Import Codec Host Store Link.

(** What a command reads of its process and its surroundings:
    [process.getuid && process.getuid()], nothing where the function is
    missing; whether [net session] exits with 0; the probe of
    [getCurrentMACAddress]; the draws of [Math.random] and [Date.now()]. *)
Record session : Type := {
  getuid : option Z;
  net_session_ok : bool;
  probe : link_probe;
  draws : rng;
  clock : Z
}.

(** The arguments of a command. *)
Definition argv : Type := Datatypes.list string.

(** How a command ends: it returns, an exception leaves it uncaught, or
    [process.exit(code)] ends the process on the spot. *)
Inductive ending (A : Type) : Type :=
  | Returned (a : A)
  | Uncaught (x : error)
  | Exited (code : Z).

Arguments Returned {A} a.
Arguments Uncaught {A} x.
Arguments Exited {A} code.

Definition C (A : Type) : Type := session -> host -> env -> world -> ending A * world.

#[export] Instance C_ret : MRet C := fun A a _ _ _ w => (Returned a, w).

#[export] Instance C_bind : MBind C := fun A B k m s h e w =>
  match m s h e w with
  | (Returned a, w') => k a s h e w'
  | (Uncaught x, w') => (Uncaught x, w')
  | (Exited code, w') => (Exited code, w')
  end.

(** A call into lib/duid.js. *)
Definition call {A} (m : M A) : C A := fun _ h e w =>
  match m h e w with
  | (Ok a, w') => (Returned a, w')
  | (Throw x, w') => (Uncaught x, w')
  end.

Definition get_session : C session := fun s _ _ w => (Returned s, w).

(** [process.exit(code)] *)
Definition process_exit {A} (code : Z) : C A := fun _ _ _ w => (Exited code, w).

(** [try { body } catch (e) { error(...); process.exit(1) }]: the handler
    of every [try] of the file. An exit inside [body] is no exception. *)
Definition try_or_exit {A} (body : C A) : C A := fun s h e w =>
  match body s h e w with
  | (Uncaught _, w') => (Exited 1, w')
  | other => other
  end.

(** [console.log], [log], [success], [error], [info] *)
Definition say : C unit := mret tt.

(** [printDUIDInfo] (duid-cli.js:1137) *)
Definition printDUIDInfo (duidBuf : option (list byte)) : C unit :=
  match duidBuf with
  | None => say
  | Some buf =>
      _ ← call (lift (parseDUID (Some buf)));
      say
  end.

(** [checkPrivileges] (duid-cli.js:1169) *)
Definition checkPrivileges : C bool :=
  s ← get_session;
  h ← call get_host;
  match os_platform h with
  | Win32 => mret (net_session_ok s)
  | _ =>
      mret match getuid s with
           | Some uid => uid =? 0
           | None => false
           end
  end.

(** [args[i] || null] *)
Definition arg_or_null (args : argv) (i : nat) : option string :=
  match args !! i with
  | Some (String c rest) => Some (String c rest)
  | _ => None
  end.

Definition is_equals_sign (c : ascii) : bool := code c =? 61.

Fixpoint up_to_equals (s : string) : string :=
  match s with
  | "" => ""
  | String c rest => if is_equals_sign c then "" else String c (up_to_equals rest)
  end.

(** [arg.split('=')[1]]: what stands between the first and the second
    equals sign; [undefined] where there is none. *)
Fixpoint split_equals_1 (arg : string) : option string :=
  match arg with
  | "" => None
  | String c rest => if is_equals_sign c then Some (up_to_equals rest) else split_equals_1 rest
  end.

(** [args.find(a => a.startsWith(name))] *)
Definition find_arg (name : string) (args : argv) : option string :=
  List.find (String.prefix name) args.

(** The type that [randomize], [generate] and [sync] read from their
    arguments (duid-cli.js:1292-1301, 1427-1439, 1470-1479): the first
    argument that starts with [--type=] decides, a value that is none of
    the eight names leaves DUID-LL. [toUpperCase] on the ASCII letters
    decides the comparison for code units below 256: of the others only
    the sharp s gets ASCII capitals, two of the letter S, and no name
    holds that letter. *)
Definition duidType_of (args : argv) : result Z :=
  match find_arg "--type=" args with
  | Some typeArg =>
      match split_equals_1 typeArg with
      | Some value =>
          let typeStr := toUpperCase value in
          Ok (if String.eqb typeStr "LLT" || String.eqb typeStr "1" then DUID_LLT
              else if String.eqb typeStr "EN" || String.eqb typeStr "2" then DUID_EN
              else if String.eqb typeStr "LL" || String.eqb typeStr "3" then DUID_LL
              else if String.eqb typeStr "UUID" || String.eqb typeStr "4" then DUID_UUID
              else DUID_LL)
      | None => Throw TypeError
      end
  | None => Ok DUID_LL
  end.

(** [commands.list] (duid-cli.js:1183) *)
Definition list : C unit :=
  try_or_exit
    (current ← call API.getCurrentDUID;
     printDUIDInfo current;;
     has ← call hasOriginalDUID;
     if has : bool then
       original ← call getOriginalDUID;
       say;;
       _ ← call getOriginalDUIDPath;
       match current, original with
       | Some c, Some o =>
           if negb (Buffer_equals c o) then
             _ ← call (lift (formatDUID o));
             say
           else say
       | _, _ => say
       end
     else say).

(** [commands.show] *)
Definition show : C unit := list.

(** [commands.original] (duid-cli.js:1224) *)
Definition original (args : argv) : C unit :=
  let subcommand := default "show" (arg_or_null args 0) in
  if String.eqb subcommand "show" then
    has ← call hasOriginalDUID;
    if has : bool then
      stored ← call getOriginalDUID;
      say;;
      printDUIDInfo stored;;
      _ ← call getOriginalDUIDPath;
      say
    else say
  else if String.eqb subcommand "clear" then
    ok ← checkPrivileges;
    if negb ok then say;; process_exit 1
    else
      has ← call hasOriginalDUID;
      if has : bool then
        say;;
        (if negb (bool_decide ("--force" ∈ args)) then say;; process_exit 1
         else
           _ ← call clearOriginalDUID;
           say)
      else say
  else if String.eqb subcommand "path" then
    _ ← call getOriginalDUIDPath;
    say
  else say;; process_exit 1.

(** [commands.randomize] (duid-cli.js:1284) *)
Definition randomize (args : argv) : C unit :=
  ok ← checkPrivileges;
  if negb ok then say;; process_exit 1
  else
    let iface := arg_or_null args 0 in
    duidType ← call (lift (duidType_of args));
    try_or_exit
      (say;;
       s ← get_session;
       newDuid ← call (randomizeDUID (Some duidType) iface None (draws s) (clock s));
       say;;
       printDUIDInfo (Some newDuid);;
       say).

(** [commands.set] (duid-cli.js:1326) *)
Definition set (args : argv) : C unit :=
  ok ← checkPrivileges;
  if negb ok then say;; process_exit 1
  else
    match args with
    | [] => say;; process_exit 1
    | duidHex :: _ =>
        let iface := arg_or_null args 1 in
        try_or_exit
          (let duidBuf := hexToDuid duidHex in
           _ ← call (lift (formatDUID duidBuf));
           say;;
           _ ← call (API.setDUID (inl duidBuf) iface);
           say;;
           printDUIDInfo (Some duidBuf);;
           say)
    end.

(** [commands.reset] (duid-cli.js:1362) *)
Definition reset (args : argv) : C unit :=
  ok ← checkPrivileges;
  if negb ok then say;; process_exit 1
  else
    let iface := arg_or_null args 0 in
    try_or_exit
      (say;;
       _ ← call (API.resetDUID iface);
       say).

(** [commands.restore] (duid-cli.js:1387) *)
Definition restore (args : argv) : C unit :=
  ok ← checkPrivileges;
  if negb ok then say;; process_exit 1
  else
    let iface := arg_or_null args 0 in
    has ← call hasOriginalDUID;
    if negb has then say;; process_exit 1
    else
      try_or_exit
        (result ← call (API.restoreDUID iface);
         match result : restore_result with
         | NotSpoofed =>
             say;;
             current ← call API.getCurrentDUID;
             printDUIDInfo current
         | Restored =>
             say;;
             current ← call API.getCurrentDUID;
             printDUIDInfo current;;
             say
         | NoOriginal => say
         end).

(** [commands.generate] (duid-cli.js:1426) *)
Definition generate (args : argv) : C unit :=
  duidType ← call (lift (duidType_of args));
  let mac :=
    match find_arg "--mac=" args with
    | Some macArg => split_equals_1 macArg
    | None => None
    end in
  s ← get_session;
  generated ← call (lift (generateDUID (Some duidType) mac (draws s) (clock s)));
  say;;
  printDUIDInfo (Some generated);;
  say;;
  _ ← call (lift (formatDUID generated));
  say.

(** [commands.sync] (duid-cli.js:1456) *)
Definition sync (args : argv) : C unit :=
  ok ← checkPrivileges;
  if negb ok then say;; process_exit 1
  else
    match args with
    | [] => say;; process_exit 1
    | iface :: _ =>
        duidType ← call (lift (duidType_of args));
        try_or_exit
          (say;;
           s ← get_session;
           currentMac ← call (getCurrentMACAddress (probe s) (Some iface));
           if negb (truthy currentMac) then say;; process_exit 1
           else
             say;;
             newDuid ← call (syncDUID (probe s) (Some iface) (Some duidType)
                               (draws s) (clock s));
             say;;
             printDUIDInfo (Some newDuid);;
             say)
    end.

(** [commands.help] *)
Definition help : C unit := say.

(** The names that [commands[command]] finds on [Object.prototype] when
    the object itself has none: called with the arguments, nine of them
    return without an effect, and three throw a [TypeError] ([__proto__] is
    no function, the two definers expect one). *)
Definition inherited (command : string) : option (result unit) :=
  if bool_decide (command ∈ ["constructor"; "hasOwnProperty"; "isPrototypeOf";
                              "propertyIsEnumerable"; "toLocaleString"; "toString";
                              "valueOf"; "__lookupGetter__"; "__lookupSetter__"])
  then Some (Ok tt)
  else if bool_decide (command ∈ ["__proto__"; "__defineGetter__"; "__defineSetter__"])
  then Some (Throw TypeError)
  else None.

(** [run] (duid-cli.js:1589) *)
Definition run (args : argv) : C unit :=
  let command := default "help" (arg_or_null args 0) in
  let commandArgs := drop 1 args in
  if String.eqb command "list" then list
  else if String.eqb command "show" then show
  else if String.eqb command "original" then original commandArgs
  else if String.eqb command "randomize" then randomize commandArgs
  else if String.eqb command "set" then set commandArgs
  else if String.eqb command "reset" then reset commandArgs
  else if String.eqb command "restore" then restore commandArgs
  else if String.eqb command "generate" then generate commandArgs
  else if String.eqb command "sync" then sync commandArgs
  else if String.eqb command "help" then help
  else
    match inherited command with
    | Some r => call (lift r)
    | None => say;; help;; process_exit 1
    end.

End CLI.

(** * The vocabulary of the properties *)

Module Spec.
Import Codec.

(** A group of two hexadecimal digits, of either case, that spells [b]. *)
Definition hex_group (b : byte) (g : string) : Prop :=
  exists c1 c2, g = String c1 (String c2 "")
    /\ unhex c1 = Some (byte_to_Z b / 16)
    /\ unhex c2 = Some (byte_to_Z b mod 16).

(** The textual forms [xx:xx:xx:xx:xx:xx] of the six bytes [m]: six groups
    of two hexadecimal digits, lower or upper case, with colons between. *)
Definition mac_text (m : list byte) (s : string) : Prop :=
  length m = 6%nat /\ exists groups, Forall2 hex_group m groups /\ s = join ":" groups.

(** The six bytes behind [generateRandomMAC]. *)
Definition random_mac_bytes (r : rng) : list byte :=
  u8 (Z.land (Z.lor (byte_to_Z (r 0%nat)) 2) 254) :: map r (seq 1 5).

(** The address that [generateDUID] works with. *)
Definition macAddr_of (mac : option string) (r : rng) : string :=
  match mac with
  | None | Some "" => generateRandomMAC r
  | Some m => m
  end.

(** The draws left to [generateDUID] after the address. *)
Definition rng_after_mac (mac : option string) (r : rng) : rng :=
  match mac with
  | None | Some "" => fun i => r (6 + i)%nat
  | Some _ => r
  end.

(** The clocks for which the 32-bit time field of a DUID-LLT exists:
    from 2000-01-01 to 2136-02-07. *)
Definition clock_in_range (now : Z) : Prop :=
  0 <= now / 1000 - 946684800 <= 4294967295.

Definition time_bytes (v : Z) : list byte :=
  [u8 (Z.shiftr v 24); u8 (Z.shiftr v 16); u8 (Z.shiftr v 8); u8 v].

(** The sixteen bytes of the UUID as they are drawn. *)
Definition uuid_draws (mac : option string) (r : rng) : list byte :=
  map (rng_after_mac mac r) (seq 0 16).

Definition force_uuid_bits (buf : list byte) : list byte :=
  let buf := <[8%nat := u8 (Z.lor (Z.land (byte_at buf 8) 15) 64)]> buf in
  <[10%nat := u8 (Z.lor (Z.land (byte_at buf 10) 63) 128)]> buf.

Fixpoint forallb_string (p : ascii -> bool) (s : string) : bool :=
  match s with
  | "" => true
  | String c rest => p c && forallb_string p rest
  end.

(** A digit or one of the capitals A to F. *)
Definition is_upper_hex (c : ascii) : bool :=
  let n := code c in
  ((48 <=? n) && (n <=? 57)) || ((65 <=? n) && (n <=? 70)).

Definition is_hex (c : ascii) : bool :=
  match unhex c with Some _ => true | None => false end.

Definition is_separator (c : ascii) : bool := is_colon c || is_space c.

(** What is left of a text when separators and letter case are set
    aside. *)
Definition fold_hex_text (s : string) : string :=
  toLowerCase (remove_chars is_separator s).

(** The pairs of hexadecimal digits at the head of a text, up to the first
    pair that is incomplete or holds another character. *)
Fixpoint leading_hex_pairs (s : string) : string :=
  match s with
  | String c1 (String c2 rest) =>
      if is_hex c1 && is_hex c2 then String c1 (String c2 (leading_hex_pairs rest))
      else ""
  | _ => ""
  end.



(** The size that goes with a type; for a DUID-EN it is six bytes of
    header and the identifier decoded from the address. *)
Definition size_by_type (t : Z) (mac : option string) (r : rng) (d : list byte) : Prop :=
  (t = DUID_LLT -> length d = 14%nat)
  /\ (t = DUID_LL -> length d = 10%nat)
  /\ (t = DUID_UUID -> length d = 18%nat)
  /\ (t = DUID_EN ->
        exists ident,
          ident = Buffer_from_hex (remove_chars is_colon (macAddr_of mac r))
          /\ d = ([x00; x02; x00; x00; x00; x09] ++ ident)%list
          /\ length d = (6 + length ident)%nat).

(** An address argument that is absent or the text of six bytes. *)
Definition absent_or_mac_text (mac : option string) : Prop :=
  mac = None \/ exists m s, mac = Some s /\ mac_text m s.

End Spec.

Module HostSpec.
Import Codec Host Store.

(** The law of [JSON.parse] after [JSON.stringify] that the store relies
    on: the [duid] member of a record comes back as it was written. *)
Definition json_round_trip (rt : runtime) : Prop :=
  forall m, JSON_parse_duid rt (JSON_stringify rt m) = Some (inl (duid m)).

(** [w'] has what [w] has, and whatever it has more is at a path that the
    process may write. *)
Definition grows_from (h : host) (w w' : world) : Prop :=
  (forall q, is_Some (files w !! q) -> is_Some (files w' !! q))
  /\ dirs w ⊆ dirs w'
  /\ (forall q, exists_in w' q = true -> exists_in w q = true \/ writable h q = true).

(** The place of the directory that the store prefers, where the platform
    has one. *)
Definition system_dir (h : host) : option string :=
  match os_platform h with
  | Linux => Some "/var/lib/spoofy"
  | Win32 => Some (path_join Win32 [or_else (env_PROGRAMDATA h) "C:\ProgramData"; "spoofy"])
  | _ => None
  end.

Fixpoint last_char (s : string) : option ascii :=
  match s with
  | "" => None
  | String c "" => Some c
  | String _ rest => last_char rest
  end.

(** The paths that the store looks at on a host: the directory it
    prefers, the record there, and the record at the fallback place. *)
Definition store_paths (h : host) : list string :=
  let p := os_platform h in
  match p with
  | Darwin => ["/var/db/dhcpclient/DUID.original"]
  | Linux =>
      ["/var/lib/spoofy";
       path_join p ["/var/lib/spoofy"; "duid.original"];
       path_join p [os_homedir h; ".spoofy"; "duid.original"]]
  | Win32 =>
      let winPath := path_join p [or_else (env_PROGRAMDATA h) "C:\ProgramData"; "spoofy"] in
      [winPath;
       path_join p [winPath; "duid.original"];
       path_join p [or_else (env_APPDATA h) (os_homedir h); "spoofy"; "duid.original"]]
  | OtherPlatform _ => [path_join p [os_homedir h; ".spoofy"; "duid.original"]]
  end.

(** Between [w] and [w'] nothing that the store looks at has changed: at
    each path of the store there is a directory or not as before, and a
    file or not as before, with the content it had. *)
Definition store_untouched (h : host) (w w' : world) : Prop :=
  forall q, q ∈ store_paths h ->
    (q ∈ dirs w' <-> q ∈ dirs w) /\ files w' !! q = files w !! q.

(** A computation keeps a relation between the world it starts in and the
    world it ends in, whatever it returns or throws. *)
Definition keeps (R : host -> world -> world -> Prop) {A} (m : M A) : Prop :=
  forall h e w, R h w (snd (m h e w)).

(** [getOriginalDUIDPath] as a function of the host and the world: the
    record in the preferred directory when that directory exists or can
    be created, the record at the fallback place otherwise. *)
Definition store_path (h : host) (w : world) : string :=
  let p := os_platform h in
  let fallback_home := path_join p [os_homedir h; ".spoofy"; "duid.original"] in
  match p with
  | Darwin => "/var/db/dhcpclient/DUID.original"
  | Linux =>
      if exists_in w "/var/lib/spoofy" || writable h "/var/lib/spoofy"
      then path_join p ["/var/lib/spoofy"; "duid.original"]
      else fallback_home
  | Win32 =>
      let winPath := path_join p [or_else (env_PROGRAMDATA h) "C:\ProgramData"; "spoofy"] in
      if exists_in w winPath || writable h winPath
      then path_join p [winPath; "duid.original"]
      else path_join p [or_else (env_APPDATA h) (os_homedir h); "spoofy"; "duid.original"]
  | OtherPlatform _ => fallback_home
  end.

(** The world that [getOriginalDUIDPath] leaves: the preferred directory
    is created when it was missing and may be written. *)
Definition after_path (h : host) (w : world) : world :=
  match system_dir h with
  | Some d =>
      if negb (exists_in w d) && writable h d then set_dirs ({[d]} ∪ dirs w) w else w
  | None => w
  end.

(** What [getOriginalDUID] reads at the path [p]. *)
Definition read_original (h : host) (w : world) (p : string) : option (list byte) :=
  if exists_in w p then
    match files w !! p with
    | Some content =>
        match JSON_parse_duid (node h) content with
        | Some (inl text) => Some (Buffer_from_hex text)
        | Some (inr bytes) => Some bytes
        | None => Some content
        end
    | None => None
    end
  else None.

(** The store of the host holds the original [o]: that is what
    [getOriginalDUID] returns. *)
Definition stored (h : host) (w : world) (o : list byte) : Prop :=
  read_original h (after_path h w) (store_path h w) = Some o.

(** Whatever original is stored in [w] is stored in [w']. *)
Definition original_kept (h : host) (w w' : world) : Prop :=
  forall o, stored h w o -> stored h w' o.

(** No file at the path [p] in [w], none in [w']. *)
Definition stays_absent (p : string) (h : host) (w w' : world) : Prop :=
  files w !! p = None -> files w' !! p = None.

(** A call of [setDUID]: the DUID as a buffer or as text, the interface,
    and what the call meets outside. *)
Definition setDUID_call : Type := (list byte + string) * option string * env.

(** The world after a sequence of [setDUID] calls, each run to its end,
    returned or thrown. *)
Fixpoint after_setDUID_calls (h : host) (calls : list setDUID_call) (w : world) : world :=
  match calls with
  | [] => w
  | (d, iface, e) :: rest =>
      after_setDUID_calls h rest (snd (API.setDUID d iface h e w))
  end.

(** The active DUID of a host, where the platform keeps it in the
    [world]: the file [/var/db/dhcpclient/DUID] on macOS, the registry
    value on Windows. *)
Definition active_duid (h : host) (w : world) : option (list byte) :=
  match os_platform h with
  | Darwin => files w !! Host.DUID_PATH
  | Win32 => registry_duid w
  | _ => None
  end.

(** The IPv6 switch of [macos.setDUID] and [macos.restoreDUID] returns:
    no interface was given, or the command by name exits with 0, or there
    is no hardware port to fall back to, or the command by port exits
    with 0. *)
Definition toggle_returns (e : env) (cmd : string -> command) (iface : option string) : bool :=
  match iface with
  | Some (String c rest) =>
      exec_ok e (cmd (String c rest))
      || match hardware_port e (String c rest) with
         | Some (String c' rest') => exec_ok e (cmd (String c' rest'))
         | _ => true
         end
  | _ => true
  end.

(** The steps of [restoreDUID] that may throw do not: on macOS, the two
    IPv6 switches return and the DUID file may be written; on Windows,
    [reg add] exits with 0. *)
Definition restore_steps_succeed (h : host) (e : env) (iface : option string)
    (original : list byte) : bool :=
  match os_platform h with
  | Darwin =>
      toggle_returns e networksetup_setv6off iface
      && writable h Host.DUID_PATH
      && toggle_returns e networksetup_setv6automatic iface
  | Win32 => exec_ok e (reg_add (toUpperCase (Buffer_toString_hex original)))
  | _ => false
  end.

(** A runtime to evaluate with: the record is kept as the letter J and the
    [duid] text, the searches find nothing. *)
Definition line_runtime : runtime :=
  {| JSON_stringify := fun m => list_byte_of_string ("J" ++ duid m);
     JSON_parse_duid := fun content =>
       match string_of_list_byte content with
       | String "J" rest => Some (inl rest)
       | _ => None
       end;
     match_networkctl_duid := fun _ => None;
     match_client_id := fun _ => None;
     strip_client_id := fun content => content |}.

(** A macOS host where the process may write everywhere. *)
Definition mac_host : host :=
  {| os_platform := Darwin;
     os_homedir := "/var/root";
     os_hostname := "mac";
     env_PROGRAMDATA := None;
     env_APPDATA := None;
     writable := fun _ => true;
     node := line_runtime |}.

Definition windows_host : host :=
  {| os_platform := Win32;
     os_homedir := "C:\Users\admin";
     os_hostname := "pc";
     env_PROGRAMDATA := None;
     env_APPDATA := None;
     writable := fun _ => true;
     node := line_runtime |}.

Definition linux_host : host :=
  {| os_platform := Linux;
     os_homedir := "/root";
     os_hostname := "box";
     env_PROGRAMDATA := None;
     env_APPDATA := None;
     writable := fun _ => true;
     node := line_runtime |}.

(** Every command exits with 0 and prints nothing. *)
Definition quiet_env : env :=
  {| exec_ok := fun _ => true;
     exec_out := fun _ => "";
     hardware_port := fun _ => None;
     now_iso := "2025-01-01T00:00:00.000Z" |}.

(** [networksetup] refuses both the device name [en0] and its hardware
    port [Wi-Fi]; every other command exits with 0. *)
Definition v6_refused_env : env :=
  {| exec_ok := fun c =>
       match c with
       | networksetup_setv6off _ => false
       | networksetup_setv6automatic _ => false
       | _ => true
       end;
     exec_out := fun _ => "";
     hardware_port := fun device => if String.eqb device "en0" then Some "Wi-Fi" else None;
     now_iso := "2025-01-01T00:00:00.000Z" |}.

(** No command exits with 0: no DHCP client is detected. *)
Definition failing_env : env :=
  {| exec_ok := fun _ => false;
     exec_out := fun _ => "";
     hardware_port := fun _ => None;
     now_iso := "2025-01-01T00:00:00.000Z" |}.

Definition duid_A : list byte := [x00; x03; x00; x01; x11; x22; x33; x44; x55; x66].
Definition duid_B : list byte := [x00; x03; x00; x01; xaa; xbb; xcc; xdd; xee; xff].
Definition duid_C : list byte := [x00; x03; x00; x01; x02; x00; x00; x00; x00; x01].

(** A Mac whose active DUID is [duid_A] and that has no backup yet. *)
Definition mac_world : world :=
  {| files := {[ Host.DUID_PATH := duid_A ]};
     dirs := {[ "/var/db/dhcpclient" ]};
     registry_duid := None |}.

Definition windows_world : world :=
  {| files := ∅; dirs := ∅; registry_duid := Some duid_A |}.

(** A Linux host on which [duid_A] is stored as the original. *)
Definition linux_world : world :=
  {| files := {[ "/var/lib/spoofy/duid.original" :=
                   list_byte_of_string "J00030001112233445566" ]};
     dirs := {[ "/var/lib/spoofy" ]};
     registry_duid := None |}.

Definition empty_world : world :=
  {| files := ∅; dirs := ∅; registry_duid := None |}.

End HostSpec.

(** ** More vocabulary: shapes of texts and buffers *)

Module Shape.
Import Codec Spec.

(** A digit or one of the letters a to f. *)
Definition is_lower_hex (c : ascii) : bool :=
  let n := code c in
  ((48 <=? n) && (n <=? 57)) || ((97 <=? n) && (n <=? 102)).

(** The text [XX:XX:...] of a buffer: two capital hexadecimal digits for
    each byte, colons between. *)
Definition upper_colon_hex (b : list byte) : string :=
  join ":" (map (fun x => toUpperCase (byte_to_hex x)) b).

(** The fields of a parsed DUID that depend on its type are all absent. *)
Definition no_typed_field (p : ParsedDUID) : Prop :=
  hwType p = None /\ time p = None /\ timeDate p = None /\ lladdr p = None
  /\ enterpriseNumber p = None /\ identifier p = None /\ uuid p = None.

Definition is_dash (c : ascii) : bool := code c =? 45.

(** The text of a version-4 UUID: five groups of 8, 4, 4, 4 and 12
    lowercase hexadecimal digits with dashes between, the third starting
    with 4 and the fourth with 8, 9, a or b. *)
Definition is_uuid_v4_text (u : string) : Prop :=
  exists g1 g2 g3 g4 g5,
    u = g1 ++ "-" ++ g2 ++ "-" ++ g3 ++ "-" ++ g4 ++ "-" ++ g5
    /\ map String.length [g1; g2; g3; g4; g5] = [8; 4; 4; 4; 12]%nat
    /\ Forall (fun g => forallb_string is_lower_hex g = true) [g1; g2; g3; g4; g5]
    /\ String.get 0 g3 = Some "4"%char
    /\ (exists c, String.get 0 g4 = Some c /\ In c ["8"; "9"; "a"; "b"]%char).

(** What [writeUInt8] stores for one group of an address: the value that
    [parseInt] reads from it, 0 when it reads none; nothing when that value
    is outside 0..255, where [writeUInt8] throws. *)
Definition group_byte (g : string) : option byte :=
  match parseInt16 g with
  | None => Some x00
  | Some v => if (0 <=? v) && (v <=? 255) then Some (u8 v) else None
  end.

Fixpoint group_bytes (groups : list string) : option (list byte) :=
  match groups with
  | [] => Some []
  | g :: rest =>
      match group_byte g, group_bytes rest with
      | Some b, Some bs => Some (b :: bs)
      | _, _ => None
      end
  end.

(** The bytes that an address text of any form leaves in the six bytes of
    a DUID-LL or DUID-LLT: those of its groups, then zeros; nothing when a
    group is out of range or there are more than six. *)
Definition lenient_mac_bytes (s : string) : option (list byte) :=
  match group_bytes (split_colon s) with
  | Some bs =>
      if (length bs <=? 6)%nat then Some (bs ++ replicate (6 - length bs) x00)%list
      else None
  | None => None
  end.

End Shape.

Module HostShape.
Import Codec Host Store Spec HostSpec.

(** Between [w] and [w'] no file outside the store has changed, and the
    registry value has not. *)
Definition off_store (h : host) (w w' : world) : Prop :=
  (forall q, q ∉ store_paths h -> files w' !! q = files w !! q)
  /\ registry_duid w' = registry_duid w.

(** The DHCP client that [detectDHCPClient] finds, by the three commands
    it tries in turn. *)
Definition detected (e : env) : linux.dhcp_client :=
  if exec_ok e systemctl_is_active_networkd then linux.systemd
  else if exec_ok e pgrep_dhclient then linux.dhclient
  else if exec_ok e pgrep_NetworkManager then linux.networkmanager
  else linux.unknown.

(** Between [w] and [w'] the path [q] has kept what it had: the same file
    or none, a directory or none. *)
Definition path_kept (q : string) (h : host) (w w' : world) : Prop :=
  files w' !! q = files w !! q /\ (q ∈ dirs w' <-> q ∈ dirs w).

(** The record of the store on macOS. *)
Definition DUID_ORIGINAL : string := "/var/db/dhcpclient/DUID.original".

(** The file that [linux.setDUID] writes for systemd-networkd: the network
    file of the interface, or the system-wide one when none is given. *)
Definition systemd_target (iface : option string) : string :=
  match iface with
  | Some (String c rest) => linux.SYSTEMD_DUID_PATH ++ "/" ++ String c rest ++ ".network"
  | _ => linux.SYSTEMD_DUID_PATH ++ "/00-duid.conf"
  end.

(** A Mac that was spoofed: the DUID file holds [duid_B], the store holds
    the record of [duid_A]. *)
Definition spoofed_mac_world : world :=
  {| files := {[ Host.DUID_PATH := duid_B;
                 DUID_ORIGINAL := list_byte_of_string "J00030001112233445566" ]};
     dirs := {[ "/var/db/dhcpclient" ]};
     registry_duid := None |}.

(** A Linux host that was spoofed for [eth0] under systemd-networkd: the
    network file of the interface holds [duid_B], the store holds the
    record of [duid_A]. *)
Definition spoofed_linux_world : world :=
  {| files := {[ "/var/lib/spoofy/duid.original" :=
                   list_byte_of_string "J00030001112233445566";
                 "/etc/systemd/network/eth0.network" :=
                   utf8 (linux.network_file_content (Some "eth0") "00030001aabbccddeeff") ]};
     dirs := {[ "/var/lib/spoofy"; "/etc/systemd/network" ]};
     registry_duid := None |}.

(** [networksetup -setv6automatic] refuses both the device name [en0] and
    its hardware port [Wi-Fi]; every other command exits with 0. *)
Definition v6_on_refused_env : env :=
  {| exec_ok := fun c =>
       match c with
       | networksetup_setv6automatic _ => false
       | _ => true
       end;
     exec_out := fun _ => "";
     hardware_port := fun device => if String.eqb device "en0" then Some "Wi-Fi" else None;
     now_iso := "2025-01-01T00:00:00.000Z" |}.

(** An address as the commands print it: 17 characters, each a
    hexadecimal digit or a colon. *)
Definition mac_shaped (m : option string) : Prop :=
  forall s, m = Some s ->
    String.length s = 17%nat /\ forallb_string Link.is_hex_or_colon s = true.

(** What [ifconfig en0] prints on a Mac, cut to four lines. *)
Definition ifconfig_en0 : string :=
  "en0: flags=8863<UP,BROADCAST,SMART,RUNNING,SIMPLEX,MULTICAST> mtu 1500"
    ++ linux.nl ++ String (chr 9) "options=400<CHANNEL_IO>"
    ++ linux.nl ++ String (chr 9) "ether 02:00:00:00:00:01"
    ++ linux.nl ++ String (chr 9) "inet6 fe80::1%en0 prefixlen 64 scopeid 0x6"
    ++ linux.nl.

(** A probe that knows the interface [en0] and no other. *)
Definition en0_probe : Link.link_probe :=
  {| Link.ifconfig := fun iface =>
       if String.eqb iface "en0" then Ok ifconfig_en0 else Throw (Error "Command failed");
     Link.ip_link_show := fun _ => Throw (Error "Command failed");
     Link.Get_NetAdapter_MacAddress := fun _ => Throw (Error "Command failed");
     Link.networkInterfaces := [("lo0", ["00:00:00:00:00:00"])] |}.

End HostShape.

Module CLIShape.
Import Codec Host Link HostShape.

(** How a command ends that does nothing but call into the library: it
    returns when the call returns, whatever the value, and it exits with 1
    when the call throws; the system is as the call leaves it. *)
Definition follows {A} (out : result A * world) : CLI.ending unit * world :=
  match out with
  | (Ok _, w') => (CLI.Returned tt, w')
  | (Throw _, w') => (CLI.Exited 1, w')
  end.

(** The process of the superuser on a Mac, and that of another user. *)
Definition root_session : CLI.session :=
  {| CLI.getuid := Some 0; CLI.net_session_ok := false; CLI.probe := en0_probe;
     CLI.draws := fun _ => x00; CLI.clock := 1700000000000 |}.

Definition user_session : CLI.session :=
  {| CLI.getuid := Some 501; CLI.net_session_ok := false; CLI.probe := en0_probe;
     CLI.draws := fun _ => x00; CLI.clock := 1700000000000 |}.

End CLIShape.

(** * Properties *)

(** ** The codec *)

Module CodecFacts.
Import Codec.

Lemma unhex_lower_char c : unhex (lower_char c) = unhex c.
Proof. destruct c as [[] [] [] [] [] [] [] []]; reflexivity. Qed.

Lemma unhex_upper_char c : unhex (upper_char c) = unhex c.
Proof. destruct c as [[] [] [] [] [] [] [] []]; reflexivity. Qed.

Lemma from_hex_map_case (f : ascii -> ascii) :
  (forall c, unhex (f c) = unhex c) ->
  forall s, Buffer_from_hex (map_string f s) = Buffer_from_hex s.
Proof.
  intros Hf. fix IH 1. intros [|c1 [|c2 rest]]; try reflexivity.
  cbn [map_string Buffer_from_hex]. rewrite !Hf, (IH rest). reflexivity.
Qed.

Lemma from_hex_byte b rest :
  Buffer_from_hex (byte_to_hex b ++ rest) = b :: Buffer_from_hex rest.
Proof. destruct b; reflexivity. Qed.

Lemma toString_hex_app a b :
  Buffer_toString_hex (a ++ b)%list = Buffer_toString_hex a ++ Buffer_toString_hex b.
Proof.
  induction a as [|x a IH]; [reflexivity|].
  cbn [Buffer_toString_hex app]. rewrite IH. unfold byte_to_hex, hex2.
  reflexivity.
Qed.

(** Decoding what the encoder wrote gives the bytes back. *)
Lemma from_hex_toString_hex buf :
  Buffer_from_hex (Buffer_toString_hex buf) = buf.
Proof.
  induction buf as [|b buf IH]; [reflexivity|].
  cbn [Buffer_toString_hex]. rewrite from_hex_byte, IH. reflexivity.
Qed.

Lemma hex_roundtrip buf : Buffer_from_hex (duidToHex buf) = buf.
Proof.
  unfold duidToHex, toUpperCase.
  rewrite (from_hex_map_case _ unhex_upper_char). apply from_hex_toString_hex.
Qed.

End CodecFacts.

Module CodecFacts2.
Import Codec CodecFacts.

Lemma byte_to_Z_range b : 0 <= byte_to_Z b < 256.
Proof. destruct b; vm_compute; split; congruence. Qed.

Lemma u8_byte_to_Z b : u8 (byte_to_Z b) = b.
Proof. destruct b; reflexivity. Qed.

(** *** Writes keep the size of a buffer *)

Lemma writeUInt8_length v off buf buf' :
  writeUInt8 v off buf = Ok buf' -> length buf' = length buf.
Proof.
  unfold writeUInt8.
  destruct (_ || _); [discriminate|]. destruct (negb _); [discriminate|].
  intros [= <-]. apply length_insert.
Qed.

Lemma writeUInt16BE_length v off buf buf' :
  writeUInt16BE v off buf = Ok buf' -> length buf' = length buf.
Proof.
  unfold writeUInt16BE.
  destruct (_ || _); [discriminate|]. destruct (negb _); [discriminate|].
  intros [= <-]. by rewrite !length_insert.
Qed.

Lemma writeUInt32BE_length v off buf buf' :
  writeUInt32BE v off buf = Ok buf' -> length buf' = length buf.
Proof.
  unfold writeUInt32BE.
  destruct (_ || _); [discriminate|]. destruct (negb _); [discriminate|].
  intros [= <-]. by rewrite !length_insert.
Qed.

Lemma write_each_length bs : forall off buf buf',
  write_each bs off buf = Ok buf' -> length buf' = length buf.
Proof.
  induction bs as [|b bs IH]; intros off buf buf'; cbn [write_each].
  - by intros [= <-].
  - destruct (writeUInt8 b off buf) as [buf1|] eqn:E; cbn [rbind]; [|discriminate].
    intros H. apply IH in H. apply writeUInt8_length in E. congruence.
Qed.

(** Writing bytes that are in range, inside the buffer, succeeds and
    replaces that stretch of it. *)
Lemma write_each_bytes bs : forall off buf,
  (off + length bs <= length buf)%nat ->
  write_each (map (fun b => Some (byte_to_Z b)) bs) off buf
    = Ok (take off buf ++ bs ++ drop (off + length bs) buf)%list.
Proof.
  induction bs as [|b bs IH]; intros off buf Hlen; cbn [write_each map].
  - cbn [app length]. rewrite Nat.add_0_r, take_drop. reflexivity.
  - cbn [length] in Hlen. unfold writeUInt8.
    pose proof (byte_to_Z_range b) as Hb.
    replace (255 <? byte_to_Z b) with false by (symmetry; apply Z.ltb_ge; lia).
    replace (byte_to_Z b <? 0) with false by (symmetry; apply Z.ltb_ge; lia).
    replace (off <? length buf)%nat with true by (symmetry; apply Nat.ltb_lt; lia).
    cbn [orb negb rbind]. rewrite IH by (rewrite length_insert; lia).
    f_equal. rewrite u8_byte_to_Z. cbn [length].
    rewrite (take_S_r _ _ b) by (apply list_lookup_insert_eq; lia).
    rewrite take_insert_ge by lia.
    rewrite drop_insert_lt by lia.
    rewrite <- app_assoc. cbn [app].
    replace (S off + length bs)%nat with (off + S (length bs))%nat by lia.
    reflexivity.
Qed.

End CodecFacts2.

Module MacText.
Import Codec Spec CodecFacts CodecFacts2.

Lemma unhex_not_sep c a :
  unhex c = Some a -> is_colon c = false /\ is_space c = false.
Proof. destruct c as [[] [] [] [] [] [] [] []]; (discriminate || (intros _; split; reflexivity)). Qed.

Lemma unhex_hex_digit n : 0 <= n < 16 -> unhex (hex_digit n) = Some n.
Proof.
  intros Hn. rewrite <- (Z2Nat.id n) by lia.
  assert (Hk : (Z.to_nat n < 16)%nat) by lia.
  revert Hk. generalize (Z.to_nat n). intros k Hk.
  do 16 (destruct k as [|k]; [reflexivity|]). lia.
Qed.

Lemma hex_group_byte_to_hex b : hex_group b (byte_to_hex b).
Proof.
  pose proof (byte_to_Z_range b) as Hb.
  exists (hex_digit (byte_to_Z b / 16)), (hex_digit (byte_to_Z b mod 16)).
  split; [reflexivity|]. split; apply unhex_hex_digit.
  - split; [apply Z.div_pos; lia | apply Z.div_lt_upper_bound; lia].
  - apply Z.mod_pos_bound. lia.
Qed.

Lemma split_sign_digit c a rest :
  unhex c = Some a -> split_sign (String c rest) = (1, String c rest).
Proof. destruct c as [[] [] [] [] [] [] [] []]; (discriminate || reflexivity). Qed.

Lemma strip_radix_prefix_digits c1 c2 b rest :
  unhex c2 = Some b ->
  strip_radix_prefix (String c1 (String c2 rest)) = String c1 (String c2 rest).
Proof.
  intros H2. destruct c1 as [[] [] [] [] [] [] [] []]; try reflexivity.
  destruct c2 as [[] [] [] [] [] [] [] []]; (discriminate || reflexivity).
Qed.

Lemma parseInt16_group c1 c2 a b :
  unhex c1 = Some a -> unhex c2 = Some b ->
  parseInt16 (String c1 (String c2 "")) = Some (a * 16 + b).
Proof.
  intros H1 H2. unfold parseInt16. cbn [trim_start].
  rewrite (proj2 (unhex_not_sep _ _ H1)), (split_sign_digit _ _ _ H1).
  rewrite (strip_radix_prefix_digits _ _ _ _ H2).
  cbn [hex_prefix]. rewrite H1, H2. f_equal. apply Z.mul_1_l.
Qed.

Lemma parseInt16_hex_group b g : hex_group b g -> parseInt16 g = Some (byte_to_Z b).
Proof.
  intros (c1 & c2 & -> & H1 & H2). rewrite (parseInt16_group _ _ _ _ H1 H2).
  f_equal. pose proof (Z.div_mod (byte_to_Z b) 16). lia.
Qed.

Lemma split_colon_aux_group c1 c2 a b rest :
  unhex c1 = Some a -> unhex c2 = Some b ->
  split_colon_aux "" (String c1 (String c2 rest))
    = split_colon_aux (String c1 (String c2 "")) rest.
Proof.
  intros H1 H2. cbn [split_colon_aux].
  rewrite (proj1 (unhex_not_sep _ _ H1)), (proj1 (unhex_not_sep _ _ H2)).
  reflexivity.
Qed.

(** Splitting the text of an address at its colons gives its groups back. *)
Lemma split_colon_join m groups :
  Forall2 hex_group m groups -> groups <> [] ->
  split_colon (join ":" groups) = groups.
Proof.
  unfold split_colon.
  induction 1 as [|b g m groups (c1 & c2 & -> & H1 & H2) Hrest IH]; [congruence|].
  intros _. destruct groups as [|g' groups].
  - cbn [join]. rewrite (split_colon_aux_group _ _ _ _ _ H1 H2). reflexivity.
  - change (join ":" (String c1 (String c2 "") :: g' :: groups))
      with (String c1 (String c2 (String ":" (join ":" (g' :: groups))))).
    rewrite (split_colon_aux_group _ _ _ _ _ H1 H2).
    cbn [split_colon_aux]. change (is_colon ":") with true. cbn match.
    rewrite IH by congruence. reflexivity.
Qed.

Lemma map_parseInt16_groups m groups :
  Forall2 hex_group m groups ->
  map parseInt16 groups = map (fun b => Some (byte_to_Z b)) m.
Proof.
  induction 1 as [|b g m groups Hg _ IH]; [reflexivity|].
  cbn [map]. rewrite (parseInt16_hex_group _ _ Hg), IH. reflexivity.
Qed.

Lemma mac_text_nonempty m s : mac_text m s -> exists c rest, s = String c rest.
Proof.
  intros [Hlen (groups & HF & ->)].
  destruct HF as [|b g m groups (c1 & c2 & -> & _) Hrest]; [discriminate|].
  destruct groups; cbn; eauto.
Qed.

(** [macBytes] of [generateDUID], for the text of an address. *)
Lemma macBytes_of_text m s :
  mac_text m s ->
  map parseInt16 (split_colon s) = map (fun b => Some (byte_to_Z b)) m.
Proof.
  intros [Hlen (groups & HF & ->)].
  rewrite (split_colon_join m groups HF).
  - apply map_parseInt16_groups, HF.
  - intros ->. apply Forall2_length in HF. rewrite Hlen in HF. discriminate.
Qed.

Lemma u8_hex_pair z : 0 <= z < 256 -> u8 (z / 16 * 16 + z mod 16) = u8 z.
Proof. intros _. f_equal. pose proof (Z.div_mod z 16). lia. Qed.

(** The identifier of a DUID-EN, for the text of an address. *)
Lemma from_hex_groups m groups :
  Forall2 hex_group m groups ->
  Buffer_from_hex (remove_chars is_colon (join ":" groups)) = m.
Proof.
  induction 1 as [|b g m groups (c1 & c2 & -> & H1 & H2) Hrest IH]; [reflexivity|].
  assert (Hb : u8 (byte_to_Z b / 16 * 16 + byte_to_Z b mod 16) = b).
  { rewrite u8_hex_pair by apply byte_to_Z_range. apply u8_byte_to_Z. }
  destruct groups as [|g' groups].
  - inversion Hrest; subst. cbn [join remove_chars].
    rewrite (proj1 (unhex_not_sep _ _ H1)), (proj1 (unhex_not_sep _ _ H2)).
    cbn [Buffer_from_hex]. rewrite H1, H2, Hb. reflexivity.
  - change (join ":" (String c1 (String c2 "") :: g' :: groups))
      with (String c1 (String c2 (String ":" (join ":" (g' :: groups))))).
    cbn [remove_chars].
    rewrite (proj1 (unhex_not_sep _ _ H1)), (proj1 (unhex_not_sep _ _ H2)).
    change (is_colon ":") with true. cbn match.
    cbn [Buffer_from_hex]. rewrite H1, H2, Hb, IH. reflexivity.
Qed.

(** The lowercase text of an address is one of its texts. *)
Lemma mac_text_colon_hex m : length m = 6%nat -> mac_text m (colon_hex m).
Proof.
  intros Hlen. split; [exact Hlen|]. exists (map byte_to_hex m). split; [|reflexivity].
  clear Hlen. induction m; constructor; auto using hex_group_byte_to_hex.
Qed.

Lemma random_first_byte b :
  Z.land (Z.lor (byte_to_Z b) 2) 254 = byte_to_Z (u8 (Z.land (Z.lor (byte_to_Z b) 2) 254)).
Proof. destruct b; reflexivity. Qed.

Lemma generateRandomMAC_text r :
  generateRandomMAC r = colon_hex (random_mac_bytes r).
Proof.
  unfold generateRandomMAC, colon_hex, random_mac_bytes, byte_to_hex.
  cbn [seq map]. rewrite <- random_first_byte. reflexivity.
Qed.

Lemma generateRandomMAC_mac_text r : mac_text (random_mac_bytes r) (generateRandomMAC r).
Proof. rewrite generateRandomMAC_text. apply mac_text_colon_hex. reflexivity. Qed.

End MacText.

Module GenerateFacts.
Import Codec Spec CodecFacts CodecFacts2 MacText.

Lemma generateDUID_LLT mac r now :
  generateDUID (Some DUID_LLT) mac r now
  = rbind (writeUInt32BE (now / 1000 - 946684800) 4
             [x00; x01; x00; x01; x00; x00; x00; x00; x00; x00; x00; x00; x00; x00])
          (write_each (map parseInt16 (split_colon (macAddr_of mac r))) 8).
Proof. destruct mac as [[|c s]|]; reflexivity. Qed.

Lemma generateDUID_LL mac r now :
  generateDUID (Some DUID_LL) mac r now
  = write_each (map parseInt16 (split_colon (macAddr_of mac r))) 4
      [x00; x03; x00; x01; x00; x00; x00; x00; x00; x00].
Proof. destruct mac as [[|c s]|]; reflexivity. Qed.

Lemma Buffer_copy_tail (src hdr : list byte) :
  Buffer_copy src (hdr ++ replicate (length src) x00) (length hdr) = (hdr ++ src)%list.
Proof.
  unfold Buffer_copy.
  rewrite take_app_length, length_app, length_replicate.
  replace (length hdr + length src - length hdr)%nat with (length src) by lia.
  rewrite firstn_all, drop_ge by (rewrite length_app, length_replicate; lia).
  by rewrite app_nil_r.
Qed.

Lemma generateDUID_EN mac r now :
  generateDUID (Some DUID_EN) mac r now
  = Ok ([x00; x02; x00; x00; x00; x09]
          ++ Buffer_from_hex (remove_chars is_colon (macAddr_of mac r)))%list.
Proof.
  transitivity (Ok (Buffer_copy (Buffer_from_hex (remove_chars is_colon (macAddr_of mac r)))
    ([x00; x02; x00; x00; x00; x09]
       ++ replicate (length (Buffer_from_hex (remove_chars is_colon (macAddr_of mac r)))) x00)
    (length [x00; x02; x00; x00; x00; x09]))).
  - destruct mac as [[|c s]|]; reflexivity.
  - f_equal. apply Buffer_copy_tail.
Qed.

Lemma generateDUID_UUID mac r now :
  generateDUID (Some DUID_UUID) mac r now
  = Ok (force_uuid_bits ([x00; x04] ++ uuid_draws mac r)).
Proof.
  transitivity (rbind
    (write_each (map (fun b => Some (byte_to_Z b)) (uuid_draws mac r)) 2
       (x00 :: x04 :: replicate 16 x00))
    (fun buf => Ok (force_uuid_bits buf))).
  - destruct mac as [[|c s]|]; reflexivity.
  - rewrite write_each_bytes by (cbn; lia). reflexivity.
Qed.

Lemma writeUInt32BE_in_range v off buf :
  0 <= v <= 4294967295 -> (off + 3 < length buf)%nat ->
  writeUInt32BE v off buf
  = Ok (<[off := u8 (Z.shiftr v 24)]>
       (<[(off + 1)%nat := u8 (Z.shiftr v 16)]>
       (<[(off + 2)%nat := u8 (Z.shiftr v 8)]>
       (<[(off + 3)%nat := u8 v]> buf)))).
Proof.
  intros Hv Hoff. unfold writeUInt32BE.
  replace (4294967295 <? v) with false by (symmetry; apply Z.ltb_ge; lia).
  replace (v <? 0) with false by (symmetry; apply Z.ltb_ge; lia).
  replace (off + 3 <? length buf)%nat with true by (symmetry; apply Nat.ltb_lt; lia).
  reflexivity.
Qed.

(** What [generateDUID] builds from the text of an address. *)
Lemma generateDUID_LL_text m s r now :
  mac_text m s ->
  generateDUID (Some DUID_LL) (Some s) r now = Ok ([x00; x03; x00; x01] ++ m)%list.
Proof.
  intros Hm. rewrite generateDUID_LL.
  destruct (mac_text_nonempty _ _ Hm) as (c & rest & Hs).
  replace (macAddr_of (Some s) r) with s by (subst s; reflexivity).
  rewrite (macBytes_of_text _ _ Hm). destruct Hm as [Hlen _].
  rewrite write_each_bytes by (cbn; lia).
  rewrite Hlen. cbn. by rewrite app_nil_r.
Qed.

Lemma generateDUID_LLT_text m s r now :
  mac_text m s -> clock_in_range now ->
  generateDUID (Some DUID_LLT) (Some s) r now
  = Ok ([x00; x01; x00; x01] ++ time_bytes (now / 1000 - 946684800) ++ m)%list.
Proof.
  intros Hm Hclock. rewrite generateDUID_LLT.
  destruct (mac_text_nonempty _ _ Hm) as (c & rest & Hs).
  replace (macAddr_of (Some s) r) with s by (subst s; reflexivity).
  rewrite (macBytes_of_text _ _ Hm). destruct Hm as [Hlen _].
  rewrite writeUInt32BE_in_range by (assumption || (cbn; lia)).
  cbn [rbind]. rewrite write_each_bytes by (cbn; lia).
  rewrite Hlen. cbn. by rewrite app_nil_r.
Qed.

Lemma macAddr_of_None r : macAddr_of None r = generateRandomMAC r.
Proof. reflexivity. Qed.

Lemma generateDUID_LL_random r now :
  generateDUID (Some DUID_LL) None r now
  = Ok ([x00; x03; x00; x01] ++ random_mac_bytes r)%list.
Proof.
  rewrite generateDUID_LL, macAddr_of_None.
  rewrite (macBytes_of_text _ _ (generateRandomMAC_mac_text r)).
  rewrite write_each_bytes by (cbn; lia). reflexivity.
Qed.

Lemma generateDUID_LLT_random r now :
  clock_in_range now ->
  generateDUID (Some DUID_LLT) None r now
  = Ok ([x00; x01; x00; x01] ++ time_bytes (now / 1000 - 946684800)
          ++ random_mac_bytes r)%list.
Proof.
  intros Hclock. rewrite generateDUID_LLT, macAddr_of_None.
  rewrite (macBytes_of_text _ _ (generateRandomMAC_mac_text r)).
  rewrite writeUInt32BE_in_range by (assumption || (cbn; lia)).
  cbn [rbind]. rewrite write_each_bytes by (cbn; lia). reflexivity.
Qed.

(** *** Parsing what was generated *)

Lemma parseDUID_LL m :
  length m = 6%nat ->
  exists p, parseDUID (Some ([x00; x03; x00; x01] ++ m)%list) = Ok p
    /\ type p = TypeNumber DUID_LL /\ lladdr p = Some (colon_hex m).
Proof.
  intros Hlen. do 7 (destruct m as [|? m]; try discriminate Hlen).
  eexists. split; [reflexivity|]. split; reflexivity.
Qed.

Lemma parseDUID_LLT tm m :
  length tm = 4%nat -> length m = 6%nat ->
  exists p, parseDUID (Some ([x00; x01; x00; x01] ++ tm ++ m)%list) = Ok p
    /\ type p = TypeNumber DUID_LLT /\ lladdr p = Some (colon_hex m).
Proof.
  intros Htm Hlen. do 5 (destruct tm as [|? tm]; try discriminate Htm).
  do 7 (destruct m as [|? m]; try discriminate Hlen).
  eexists. split; [reflexivity|]. split; reflexivity.
Qed.

Lemma parseDUID_EN ident :
  exists p, parseDUID (Some ([x00; x02; x00; x00; x00; x09] ++ ident)%list) = Ok p
    /\ type p = TypeNumber DUID_EN
    /\ identifier p = Some (Buffer_toString_hex ident).
Proof. eexists. split; [reflexivity|]. split; reflexivity. Qed.

Lemma force_uuid_bits_length buf : length (force_uuid_bits buf) = length buf.
Proof. unfold force_uuid_bits. by rewrite !length_insert. Qed.

Lemma parseDUID_UUID draws :
  length draws = 16%nat ->
  exists p, parseDUID (Some (force_uuid_bits ([x00; x04] ++ draws))) = Ok p
    /\ type p = TypeNumber DUID_UUID.
Proof.
  intros Hlen. do 17 (destruct draws as [|? draws]; try discriminate Hlen).
  eexists. split; [reflexivity|]. reflexivity.
Qed.

End GenerateFacts.

Module HexFacts.
Import Codec Spec CodecFacts CodecFacts2 MacText.

Lemma upper_hex_byte b :
  forallb_string is_upper_hex (toUpperCase (byte_to_hex b)) = true.
Proof. destruct b; reflexivity. Qed.

Lemma duidToHex_cons b buf :
  duidToHex (b :: buf) = toUpperCase (byte_to_hex b) ++ duidToHex buf.
Proof. reflexivity. Qed.

Lemma forallb_string_app p a b :
  forallb_string p (a ++ b) = forallb_string p a && forallb_string p b.
Proof.
  induction a as [|c a IH]; [reflexivity|].
  simpl. rewrite IH. apply andb_assoc.
Qed.

Lemma string_length_app a b :
  String.length (a ++ b) = (String.length a + String.length b)%nat.
Proof. induction a as [|c a IH]; [reflexivity|]. simpl. by rewrite IH. Qed.

Lemma duidToHex_canonical buf :
  forallb_string is_upper_hex (duidToHex buf) = true
  /\ String.length (duidToHex buf) = (2 * length buf)%nat.
Proof.
  induction buf as [|b buf [IH1 IH2]]; [split; reflexivity|].
  rewrite duidToHex_cons, forallb_string_app, string_length_app, upper_hex_byte, IH1, IH2.
  split; [reflexivity|].
  change (String.length (toUpperCase (byte_to_hex b))) with 2%nat. cbn [length]. lia.
Qed.

Lemma hexToDuid_fold s : hexToDuid s = Buffer_from_hex (fold_hex_text s).
Proof.
  unfold fold_hex_text, toLowerCase.
  rewrite (from_hex_map_case _ unhex_lower_char). reflexivity.
Qed.




Lemma byte_to_Z_u8 z : 0 <= z < 256 -> byte_to_Z (u8 z) = z.
Proof.
  intros Hz. unfold u8, byte_to_Z. rewrite Z.mod_small by lia.
  destruct (Byte.of_N (Z.to_N z)) as [b|] eqn:E.
  - apply Byte.to_of_N in E. rewrite E. lia.
  - apply Byte.of_N_None_iff in E. lia.
Qed.

Lemma unhex_lower c a :
  unhex c = Some a -> lower_char c = hex_digit a /\ 0 <= a < 16.
Proof.
  destruct c as [[] [] [] [] [] [] [] []]; try discriminate;
    intros [= <-]; split; (reflexivity || (vm_compute; split; congruence)).
Qed.

Lemma byte_to_hex_pair c1 c2 a b :
  unhex c1 = Some a -> unhex c2 = Some b ->
  byte_to_hex (u8 (a * 16 + b)) = String (lower_char c1) (String (lower_char c2) "").
Proof.
  intros H1 H2.
  destruct (unhex_lower _ _ H1) as [-> Ha], (unhex_lower _ _ H2) as [-> Hb].
  unfold byte_to_hex, hex2. rewrite byte_to_Z_u8 by lia.
  replace ((a * 16 + b) / 16) with a by (apply Z.div_unique with b; lia).
  replace ((a * 16 + b) mod 16) with b by (apply Z.mod_unique with a; lia).
  reflexivity.
Qed.

(** The bytes decoded are those of the leading pairs, and no more. *)
Lemma toString_hex_from_hex : forall s,
  Buffer_toString_hex (Buffer_from_hex s) = toLowerCase (leading_hex_pairs s).
Proof.
  fix IH 1. intros [|c1 [|c2 rest]]; try reflexivity.
  cbn [leading_hex_pairs Buffer_from_hex]. unfold is_hex.
  destruct (unhex c1) as [a|] eqn:E1, (unhex c2) as [b|] eqn:E2; cbn [andb];
    try reflexivity.
  cbn [Buffer_toString_hex]. rewrite (byte_to_hex_pair _ _ _ _ E1 E2), (IH rest).
  reflexivity.
Qed.

End HexFacts.


Import Codec Spec CodecFacts CodecFacts2 MacText GenerateFacts HexFacts.

Lemma mac_text_lower m s : mac_text m s -> toLowerCase s = colon_hex m.
Proof.
  intros [_ (groups & HF & ->)]. unfold colon_hex.
  induction HF as [|b g m groups (c1 & c2 & -> & H1 & H2) Hrest IH]; [reflexivity|].
  assert (Hg : String (lower_char c1) (String (lower_char c2) "") = byte_to_hex b).
  { rewrite (proj1 (unhex_lower _ _ H1)), (proj1 (unhex_lower _ _ H2)). reflexivity. }
  destruct Hrest as [|b' g' m groups Hg' Hrest].
  - cbn [join map toLowerCase map_string]. exact Hg.
  - change (join ":" (String c1 (String c2 "") :: g' :: groups))
      with (String c1 (String c2 (String ":" (join ":" (g' :: groups))))).
    change (join ":" (map byte_to_hex (b :: b' :: m)))
      with (byte_to_hex b ++ String ":" (join ":" (map byte_to_hex (b' :: m)))).
    rewrite <- Hg, <- IH. reflexivity.
Qed.


(** ** The claims on the codec *)

(** C6, as the code has it. A DUID-LLT or DUID-LL generated from the text
    of a six-byte address parses back to that address in lowercase
    colon-separated form, which is the text given when that text is in
    lowercase; a DUID of each of the four types generated without an
    address parses back to its type. For a DUID-LLT the clock must lie in
    the range of the 32-bit time field. *)
Theorem C6_lladdr_and_type_round_trip (t : Z) (r : rng) (now : Z) :
  t = DUID_LLT \/ t = DUID_EN \/ t = DUID_LL \/ t = DUID_UUID ->
  (t = DUID_LLT -> clock_in_range now) ->
  (forall m s, t = DUID_LLT \/ t = DUID_LL -> mac_text m s ->
     exists d p, generateDUID (Some t) (Some s) r now = Ok d
       /\ parseDUID (Some d) = Ok p
       /\ lladdr p = Some (toLowerCase s)
       /\ toLowerCase s = colon_hex m)
  /\ (exists d p, generateDUID (Some t) None r now = Ok d
       /\ parseDUID (Some d) = Ok p
       /\ type p = TypeNumber t).
Proof.
  intros Ht Hclock. split.
  - intros m s Ht' Hm. pose proof (mac_text_lower _ _ Hm) as Hlow.
    pose proof (proj1 Hm) as Hlen. rewrite Hlow.
    destruct Ht' as [-> | ->].
    + rewrite (generateDUID_LLT_text _ _ _ _ Hm (Hclock eq_refl)).
      destruct (parseDUID_LLT (time_bytes (now / 1000 - 946684800)) m eq_refl Hlen)
        as (p & Hp & _ & Hl).
      eexists. exists p. split; [reflexivity|]. auto.
    + rewrite (generateDUID_LL_text _ _ _ _ Hm).
      destruct (parseDUID_LL m Hlen) as (p & Hp & _ & Hl).
      eexists. exists p. split; [reflexivity|]. auto.
  - destruct Ht as [-> | [-> | [-> | ->]]].
    + rewrite (generateDUID_LLT_random _ _ (Hclock eq_refl)).
      destruct (parseDUID_LLT (time_bytes (now / 1000 - 946684800)) (random_mac_bytes r)
                  eq_refl eq_refl) as (p & Hp & Hty & _).
      eexists. exists p. split; [reflexivity|]. auto.
    + rewrite generateDUID_EN.
      destruct (parseDUID_EN (Buffer_from_hex (remove_chars is_colon (macAddr_of None r))))
        as (p & Hp & Hty & _).
      eexists. exists p. split; [reflexivity|]. auto.
    + rewrite generateDUID_LL_random.
      destruct (parseDUID_LL (random_mac_bytes r) eq_refl) as (p & Hp & Hty & _).
      eexists. exists p. split; [reflexivity|]. auto.
    + rewrite generateDUID_UUID.
      destruct (parseDUID_UUID (uuid_draws None r) eq_refl) as (p & Hp & Hty).
      eexists. exists p. split; [reflexivity|]. auto.
Qed.

Lemma sample_mac_text :
  mac_text [xaa; xbb; xcc; xdd; xee; xff] "AA:BB:CC:DD:EE:FF".
Proof.
  split; [reflexivity|].
  exists ["AA"; "BB"; "CC"; "DD"; "EE"; "FF"]. split; [|reflexivity].
  repeat constructor; do 2 eexists; (split; [reflexivity|split; reflexivity]).
Defined.

Lemma C6_witness :
  exists d p,
    generateDUID (Some DUID_LLT) (Some "AA:BB:CC:DD:EE:FF") (fun _ => x00) 1700000000000 = Ok d
    /\ parseDUID (Some d) = Ok p
    /\ lladdr p = Some "aa:bb:cc:dd:ee:ff"
    /\ "aa:bb:cc:dd:ee:ff" = colon_hex [xaa; xbb; xcc; xdd; xee; xff].
Proof.
  refine (proj1 (C6_lladdr_and_type_round_trip DUID_LLT (fun _ => x00) 1700000000000 _ _)
            [xaa; xbb; xcc; xdd; xee; xff] "AA:BB:CC:DD:EE:FF" _ sample_mac_text).
  - left. reflexivity.
  - intros _. unfold clock_in_range. vm_compute. split; discriminate.
  - left. reflexivity.
Defined.

(** C6 as the specification words it fails where the address is written
    in capitals: [lladdr] comes back in lowercase. *)
Lemma C6_counterexample :
  mac_text [xaa; xbb; xcc; xdd; xee; xff] "AA:BB:CC:DD:EE:FF"
  /\ exists d p,
       generateDUID (Some DUID_LL) (Some "AA:BB:CC:DD:EE:FF") (fun _ => x00) 1700000000000 = Ok d
       /\ parseDUID (Some d) = Ok p
       /\ lladdr p = Some "aa:bb:cc:dd:ee:ff"
       /\ lladdr p <> Some "AA:BB:CC:DD:EE:FF".
Proof.
  split; [exact sample_mac_text|].
  eexists. eexists. split; [vm_compute; reflexivity|].
  split; [vm_compute; reflexivity|]. split; [reflexivity|]. discriminate.
Qed.

(** C8. Every DUID that [generateDUID] returns, for an address argument of
    any kind, has the size of its type: 14 for LLT, 10 for LL, 18 for UUID
    and 6 plus the identifier for EN; and it does return one for each of
    the four types when the address is absent or well formed. *)
Theorem C8_generated_lengths (t : Z) (mac : option string) (r : rng) (now : Z) :
  (forall d, generateDUID (Some t) mac r now = Ok d -> size_by_type t mac r d)
  /\ (t = DUID_LLT \/ t = DUID_EN \/ t = DUID_LL \/ t = DUID_UUID ->
      absent_or_mac_text mac ->
      (t = DUID_LLT -> clock_in_range now) ->
      exists d, generateDUID (Some t) mac r now = Ok d).
Proof.
  split.
  - intros d Hd. repeat split; intros ->.
    + rewrite generateDUID_LLT in Hd.
      destruct (writeUInt32BE _ _ _) as [buf|] eqn:E; [|discriminate].
      cbn [rbind] in Hd. apply write_each_length in Hd.
      apply writeUInt32BE_length in E. rewrite Hd, E. reflexivity.
    + rewrite generateDUID_LL in Hd. apply write_each_length in Hd.
      rewrite Hd. reflexivity.
    + rewrite generateDUID_UUID in Hd. injection Hd as <-.
      rewrite force_uuid_bits_length. reflexivity.
    + rewrite generateDUID_EN in Hd. injection Hd as <-.
      eexists. split; [reflexivity|]. split; reflexivity.
  - intros Ht Hmac Hclock.
    destruct Ht as [-> | [-> | [-> | ->]]].
    + destruct Hmac as [-> | (m & s & -> & Hm)].
      * rewrite (generateDUID_LLT_random _ _ (Hclock eq_refl)). eauto.
      * rewrite (generateDUID_LLT_text _ _ _ _ Hm (Hclock eq_refl)). eauto.
    + rewrite generateDUID_EN. eauto.
    + destruct Hmac as [-> | (m & s & -> & Hm)].
      * rewrite generateDUID_LL_random. eauto.
      * rewrite (generateDUID_LL_text _ _ _ _ Hm). eauto.
    + rewrite generateDUID_UUID. eauto.
Qed.

Lemma C8_witness :
  exists d,
    generateDUID (Some DUID_LLT) (Some "AA:BB:CC:DD:EE:FF") (fun _ => x00) 1700000000000 = Ok d
    /\ size_by_type DUID_LLT (Some "AA:BB:CC:DD:EE:FF") (fun _ => x00) d.
Proof.
  destruct (C8_generated_lengths DUID_LLT (Some "AA:BB:CC:DD:EE:FF") (fun _ => x00)
              1700000000000) as [Hsize Hret].
  destruct Hret as [d Hd].
  - left. reflexivity.
  - right. exists [xaa; xbb; xcc; xdd; xee; xff], "AA:BB:CC:DD:EE:FF".
    split; [reflexivity|exact sample_mac_text].
  - intros _. unfold clock_in_range. vm_compute. split; discriminate.
  - exists d. split; [exact Hd|exact (Hsize d Hd)].
Defined.

Lemma uuid_version_bits b :
  Z.land (byte_to_Z (u8 (Z.lor (Z.land (byte_to_Z b) 15) 64))) 240 = 64.
Proof. destruct b; reflexivity. Qed.

Lemma uuid_variant_bits b :
  Z.land (byte_to_Z (u8 (Z.lor (Z.land (byte_to_Z b) 63) 128))) 192 = 128.
Proof. destruct b; reflexivity. Qed.

(** C9. For every address argument and every outcome of the random draws,
    [generateDUID] returns a DUID-UUID of 18 bytes whose byte 8 has the high
    nibble 4 and whose byte 10 has the top bits 10. *)
Theorem C9_uuid_version_and_variant (mac : option string) (r : rng) (now : Z) :
  exists d, generateDUID (Some DUID_UUID) mac r now = Ok d
    /\ length d = 18%nat
    /\ Z.land (byte_at d 8) 240 = 64
    /\ Z.land (byte_at d 10) 192 = 128.
Proof.
  rewrite generateDUID_UUID. eexists. split; [reflexivity|].
  unfold uuid_draws. generalize (rng_after_mac mac r). intros r'.
  split; [reflexivity|]. split.
  - apply (uuid_version_bits (r' 6%nat)).
  - apply (uuid_variant_bits (r' 8%nat)).
Qed.


(** C7. Hex text round trip: decoding the text of a buffer gives the buffer
    back; that text is uppercase hexadecimal without punctuation, two
    characters a byte; and two texts that differ only in colons, white
    space and letter case decode to the same bytes. *)
Theorem C7_hex_text_round_trip (b : list byte) (s1 s2 : string) :
  hexToDuid (duidToHex b) = b
  /\ forallb_string is_upper_hex (duidToHex b) = true
  /\ String.length (duidToHex b) = (2 * length b)%nat
  /\ (fold_hex_text s1 = fold_hex_text s2 -> hexToDuid s1 = hexToDuid s2).
Proof.
  split; [|split; [|split]].
  - rewrite hexToDuid_fold. unfold fold_hex_text, toLowerCase.
    rewrite (from_hex_map_case _ unhex_lower_char).
    replace (remove_chars is_separator (duidToHex b)) with (duidToHex b).
    + apply hex_roundtrip.
    + destruct (duidToHex_canonical b) as [H _]. revert H.
      generalize (duidToHex b). induction s as [|c s IH]; [reflexivity|].
      cbn [forallb_string remove_chars]. intros [Hc Hs]%andb_prop.
      replace (is_separator c) with false; [by rewrite <- IH|].
      clear -Hc. destruct c as [[] [] [] [] [] [] [] []]; (discriminate || reflexivity).
  - apply duidToHex_canonical.
  - apply duidToHex_canonical.
  - intros H. rewrite !hexToDuid_fold, H. reflexivity.
Qed.

Lemma C7_witness :
  fold_hex_text "00:03:00:01:AA:BB:CC:DD:EE:FF" = fold_hex_text "0003000 1aabbccddeeff"
  /\ hexToDuid "00:03:00:01:AA:BB:CC:DD:EE:FF" = hexToDuid "0003000 1aabbccddeeff".
Proof.
  split; [vm_compute; reflexivity|].
  apply (proj2 (proj2 (proj2
    (C7_hex_text_round_trip [] "00:03:00:01:AA:BB:CC:DD:EE:FF" "0003000 1aabbccddeeff")))).
  vm_compute. reflexivity.
Defined.


(** The end-to-end example of the specification: a DUID-LL generated from
    [aa:bb:cc:dd:ee:ff] is [00 03 00 01 AA BB CC DD EE FF] and parses back
    to type 3, [DUID_LL] and that address. *)
Example generate_parse_LL :
  exists p,
    generateDUID (Some DUID_LL) (Some "aa:bb:cc:dd:ee:ff") (fun _ => x00) 0
    = Ok [x00; x03; x00; x01; xaa; xbb; xcc; xdd; xee; xff]
    /\ parseDUID (Some [x00; x03; x00; x01; xaa; xbb; xcc; xdd; xee; xff]) = Ok p
    /\ type p = TypeNumber 3
    /\ typeName p = Some "DUID_LL"
    /\ lladdr p = Some "aa:bb:cc:dd:ee:ff"
    /\ raw p = RawText "00:03:00:01:AA:BB:CC:DD:EE:FF".
Proof. eexists. split; [vm_compute; reflexivity|]. split; [vm_compute; reflexivity|]. repeat split. Qed.

(** [generateRandomMAC] sets the locally administered bit and clears the
    multicast bit of the first byte, whatever is drawn. *)
Lemma generateRandomMAC_bits (r : rng) :
  exists b0 rest,
    random_mac_bytes r = b0 :: rest
    /\ generateRandomMAC r = colon_hex (b0 :: rest)
    /\ Z.land (byte_to_Z b0) 2 = 2
    /\ Z.land (byte_to_Z b0) 1 = 0.
Proof.
  eexists _, _. split; [reflexivity|]. split; [apply generateRandomMAC_text|].
  generalize (r 0%nat). intros b. split; destruct b; reflexivity.
Qed.

(** ** The store and the adapters *)

Module HostFacts.
Import Codec Host Store Spec HostSpec CodecFacts.

Lemma bind_eq {A B} (m : M A) (k : A -> M B) h e w :
  (m ≫= k) h e w
  = match m h e w with
    | (Ok a, w') => k a h e w'
    | (Throw x, w') => (Throw x, w')
    end.
Proof. reflexivity. Qed.

Lemma bind_ok {A B} (m : M A) (k : A -> M B) h e w a w' :
  m h e w = (Ok a, w') -> (m ≫= k) h e w = k a h e w'.
Proof. intros H. by rewrite bind_eq, H. Qed.

(** One step of a computation: a bind, a primitive, a match on a result
    that is known. *)
Ltac mred :=
  repeat first
    [ rewrite !bind_eq
    | progress (cbn [get_host get_env get_world put_world mret M_ret throw lift negb])
    | progress (cbv beta iota) ].

Lemma exists_in_set_files_other f w q :
  files w !! q = f !! q -> exists_in (set_files f w) q = exists_in w q.
Proof. unfold exists_in. cbn. by intros ->. Qed.

Lemma exists_in_mkdir w d q :
  exists_in (set_dirs ({[d]} ∪ dirs w) w) q = exists_in w q || bool_decide (q = d).
Proof.
  unfold exists_in. cbn.
  destruct (bool_decide (is_Some (files w !! q))); cbn; [reflexivity|].
  apply eq_true_iff_eq.
  rewrite orb_true_iff, !bool_decide_eq_true, elem_of_union, elem_of_singleton.
  tauto.
Qed.

(** [getOriginalDUIDPath], [hasOriginalDUID] and [getOriginalDUID] as
    functions of the host and the world; none of them throws. *)
Lemma getOriginalDUIDPath_eq h e w :
  getOriginalDUIDPath h e w = (Ok (store_path h w), after_path h w).
Proof.
  unfold getOriginalDUIDPath, store_path, after_path, system_dir. mred.
  destruct (os_platform h) eqn:Hp; try reflexivity.
  - unfold existsSync. mred.
    destruct (exists_in w "/var/lib/spoofy") eqn:Hex; mred; [reflexivity|].
    unfold try_catch, mkdirSync. mred.
    destruct (writable h "/var/lib/spoofy") eqn:Hw; mred; reflexivity.
  - set (d := path_join Win32 [or_else (env_PROGRAMDATA h) "C:\ProgramData"; "spoofy"]).
    unfold existsSync. mred.
    destruct (exists_in w d) eqn:Hex; mred; [reflexivity|].
    unfold try_catch, mkdirSync. mred.
    destruct (writable h d) eqn:Hw; mred; reflexivity.
Qed.

Lemma hasOriginalDUID_eq h e w :
  hasOriginalDUID h e w
  = (Ok (exists_in (after_path h w) (store_path h w)), after_path h w).
Proof.
  unfold hasOriginalDUID. rewrite bind_eq, getOriginalDUIDPath_eq. reflexivity.
Qed.

Lemma getOriginalDUID_eq h e w :
  getOriginalDUID h e w
  = (Ok (read_original h (after_path h w) (store_path h w)), after_path h w).
Proof.
  unfold getOriginalDUID, read_original. rewrite bind_eq, getOriginalDUIDPath_eq. mred.
  unfold existsSync. mred.
  destruct (exists_in (after_path h w) (store_path h w)); mred; [|reflexivity].
  unfold try_catch, readFileSync. mred.
  destruct (files (after_path h w) !! store_path h w) as [content|] eqn:Hf; mred.
  - destruct (JSON_parse_duid (node h) content) as [[text|bytes]|]; mred;
      try reflexivity.
    rewrite Hf. reflexivity.
  - rewrite Hf. reflexivity.
Qed.

Lemma after_path_files h w : files (after_path h w) = files w.
Proof.
  unfold after_path. destruct (system_dir h); [|reflexivity].
  destruct (_ && _); reflexivity.
Qed.

Lemma after_path_registry h w : registry_duid (after_path h w) = registry_duid w.
Proof.
  unfold after_path. destruct (system_dir h); [|reflexivity].
  destruct (_ && _); reflexivity.
Qed.

Lemma store_path_in h w : store_path h w ∈ store_paths h.
Proof.
  unfold store_path, store_paths. destruct (os_platform h).
  - apply list_elem_of_singleton. reflexivity.
  - destruct (_ || _); set_solver.
  - destruct (_ || _); set_solver.
  - apply list_elem_of_singleton. reflexivity.
Qed.

Lemma system_dir_in h d : system_dir h = Some d -> d ∈ store_paths h.
Proof.
  unfold system_dir, store_paths. destruct (os_platform h); try discriminate;
    intros [= <-]; set_solver.
Qed.

(** Once computed, the path of the store stays what it is while the
    [world] only grows at writable places. *)
Lemma getOriginalDUIDPath_stable h e w p w' e2 w2 :
  getOriginalDUIDPath h e w = (Ok p, w') ->
  grows_from h w' w2 ->
  getOriginalDUIDPath h e2 w2 = (Ok p, w2).
Proof.
  rewrite !getOriginalDUIDPath_eq. intros [= <- <-] (Hfiles & Hdirs & Hnew).
  assert (Hkeep : forall d, exists_in (after_path h w) d = true -> exists_in w2 d = true).
  { intros d Hd. unfold exists_in in *. apply orb_true_iff in Hd.
    rewrite !bool_decide_eq_true in Hd. apply orb_true_iff.
    rewrite !bool_decide_eq_true. destruct Hd; [left|right]; auto. }
  assert (Hsys : forall d, system_dir h = Some d ->
            exists_in w2 d || writable h d = exists_in w d || writable h d
            /\ negb (exists_in w2 d) && writable h d = false).
  { intros d Hd. unfold after_path in Hkeep, Hnew. rewrite Hd in Hkeep, Hnew.
    destruct (writable h d) eqn:Hw, (exists_in w d) eqn:Hex;
      cbn [negb andb] in Hkeep, Hnew.
    - rewrite (Hkeep d Hex). auto.
    - rewrite (Hkeep d) by (rewrite exists_in_mkdir, orb_true_iff; right;
                             by apply bool_decide_eq_true).
      auto.
    - rewrite (Hkeep d Hex). rewrite andb_false_r. auto.
    - rewrite andb_false_r. split; [|reflexivity].
      destruct (exists_in w2 d) eqn:Hex2; [|reflexivity].
      destruct (Hnew _ Hex2) as [H|H]; congruence. }
  f_equal.
  - f_equal. unfold store_path. unfold system_dir in Hsys.
    destruct (os_platform h); try reflexivity.
    + destruct (Hsys _ eq_refl) as [-> _]. reflexivity.
    + destruct (Hsys _ eq_refl) as [H _]. cbv zeta. rewrite H. reflexivity.
  - unfold after_path at 1. destruct (system_dir h) as [d|] eqn:Hd; [|reflexivity].
    destruct (Hsys d eq_refl) as [_ ->]. reflexivity.
Qed.

Lemma grows_from_refl h w : grows_from h w w.
Proof. repeat split; auto. Qed.

(** What [storeOriginalDUID] does where there is no record and the place
    may be written. *)
Lemma storeOriginalDUID_fresh h e w p w' d :
  getOriginalDUIDPath h e w = (Ok p, w') ->
  exists_in w' p = false ->
  writable h p = true ->
  writable h (dirname (os_platform h) p) = true ->
  exists w1,
    storeOriginalDUID d h e w = (Ok true, w1)
    /\ grows_from h w' w1
    /\ files w1 !! p
       = Some (JSON_stringify (node h)
                 {| duid := Buffer_toString_hex d;
                    storedAt := now_iso e;
                    platform := platform_string (os_platform h);
                    hostname := os_hostname h |})
    /\ (forall q, q <> p -> files w1 !! q = files w !! q)
    /\ registry_duid w1 = registry_duid w.
Proof.
  intros Hpath Hex Hwp Hwd.
  assert (Hf : files w' = files w /\ registry_duid w' = registry_duid w).
  { rewrite getOriginalDUIDPath_eq in Hpath. injection Hpath as _ <-.
    split; [apply after_path_files|apply after_path_registry]. }
  destruct Hf as [Hf Hr].
  unfold storeOriginalDUID. rewrite bind_eq, Hpath. mred.
  unfold existsSync at 1. mred. rewrite Hex. mred.
  unfold existsSync at 1. mred.
  set (dir := dirname (os_platform h) p) in *.
  unfold when, mkdirSync, writeFileSync.
  destruct (exists_in w' dir) eqn:Hexd; mred.
  - rewrite Hwp. mred.
    eexists. split; [reflexivity|]. split; [|split; [|split]].
    + split; [|split].
      * intros q Hq. cbn. destruct (decide (p = q)) as [->|Hne].
        -- rewrite lookup_insert_eq. eauto.
        -- by rewrite lookup_insert_ne.
      * reflexivity.
      * intros q Hq. destruct (decide (q = p)) as [->|Hne]; [auto|]. left.
        rewrite <- Hq. symmetry. apply exists_in_set_files_other.
        by rewrite lookup_insert_ne.
    + cbn. apply lookup_insert_eq.
    + intros q Hne. cbn. rewrite lookup_insert_ne by congruence. by rewrite Hf.
    + cbn. exact Hr.
  - rewrite Hwd. mred. rewrite Hwp. mred.
    eexists. split; [reflexivity|]. split; [|split; [|split]].
    + split; [|split].
      * intros q Hq. cbn. destruct (decide (p = q)) as [->|Hne].
        -- rewrite lookup_insert_eq. eauto.
        -- by rewrite lookup_insert_ne.
      * cbn. apply union_subseteq_r.
      * intros q Hq. destruct (decide (q = p)) as [->|Hne]; [auto|].
        rewrite exists_in_set_files_other in Hq by (cbn; by rewrite lookup_insert_ne).
        rewrite exists_in_mkdir in Hq. apply orb_true_iff in Hq.
        destruct Hq as [Hq|Hq]; [auto|]. apply bool_decide_eq_true in Hq. subst q. auto.
    + cbn. apply lookup_insert_eq.
    + intros q Hne. cbn. rewrite lookup_insert_ne by congruence. by rewrite Hf.
    + cbn. exact Hr.
Qed.

(** Where a record is, [storeOriginalDUID] writes nothing. *)
Lemma storeOriginalDUID_present h e w p d :
  getOriginalDUIDPath h e w = (Ok p, w) ->
  exists_in w p = true ->
  storeOriginalDUID d h e w = (Ok false, w).
Proof.
  intros Hpath Hex. unfold storeOriginalDUID. rewrite bind_eq, Hpath. mred.
  unfold existsSync at 1. mred. rewrite Hex. reflexivity.
Qed.

(** Reading a record that [storeOriginalDUID] wrote. *)
Lemma getOriginalDUID_record h e w p m :
  json_round_trip (node h) ->
  getOriginalDUIDPath h e w = (Ok p, w) ->
  files w !! p = Some (JSON_stringify (node h) m) ->
  getOriginalDUID h e w = (Ok (Some (Buffer_from_hex (duid m))), w).
Proof.
  intros Hjson Hpath Hfile. unfold getOriginalDUID. rewrite bind_eq, Hpath. mred.
  unfold existsSync at 1. mred.
  replace (exists_in w p) with true
    by (unfold exists_in; rewrite Hfile; symmetry; apply orb_true_iff; left;
        apply bool_decide_eq_true; eauto).
  mred. unfold try_catch at 1. unfold readFileSync at 1. mred.
  rewrite Hfile. mred. rewrite Hjson. reflexivity.
Qed.


(** *** Computations that keep a relation *)

Section Keeps.
Context (R : host -> world -> world -> Prop).
Hypothesis R_refl : forall h w, R h w w.
Hypothesis R_trans : forall h w1 w2 w3, R h w1 w2 -> R h w2 w3 -> R h w1 w3.

Lemma keeps_ret {A} (a : A) : keeps R (mret a).
Proof. intros h e w. apply R_refl. Qed.

Lemma keeps_throw {A} x : keeps R (throw x : M A).
Proof. intros h e w. apply R_refl. Qed.

Lemma keeps_lift {A} (r : result A) : keeps R (lift r).
Proof. intros h e w. apply R_refl. Qed.

Lemma keeps_get_host : keeps R get_host.
Proof. intros h e w. apply R_refl. Qed.

Lemma keeps_get_env : keeps R get_env.
Proof. intros h e w. apply R_refl. Qed.

Lemma keeps_get_world : keeps R get_world.
Proof. intros h e w. apply R_refl. Qed.

Lemma keeps_bind {A B} (m : M A) (k : A -> M B) :
  keeps R m -> (forall a, keeps R (k a)) -> keeps R (m ≫= k).
Proof.
  intros Hm Hk h e w. rewrite bind_eq. specialize (Hm h e w).
  destruct (m h e w) as [[a|x] w1]; [|exact Hm].
  eapply R_trans; [exact Hm|apply Hk].
Qed.

Lemma keeps_try_catch {A} (m handler : M A) :
  keeps R m -> keeps R handler -> keeps R (try_catch m handler).
Proof.
  intros Hm Hh h e w. unfold try_catch. specialize (Hm h e w).
  destruct (m h e w) as [[a|x] w1]; [exact Hm|].
  eapply R_trans; [exact Hm|apply Hh].
Qed.

Lemma keeps_when c (m : M unit) : keeps R m -> keeps R (when c m).
Proof. intros Hm. destruct c; [exact Hm|apply keeps_ret]. Qed.

Lemma keeps_existsSync p : keeps R (existsSync p).
Proof. intros h e w. apply R_refl. Qed.

Lemma keeps_readFileSync p : keeps R (readFileSync p).
Proof.
  intros h e w. unfold readFileSync. rewrite bind_eq. cbn [get_world].
  destruct (files w !! p); apply R_refl.
Qed.
End Keeps.



(** Every path of the store ends in [l] or in [y]. *)
Lemma last_char_app a b : b <> "" -> last_char (a ++ b) = last_char b.
Proof.
  intros Hb. induction a as [|c a IH]; [reflexivity|].
  change (String c a ++ b) with (String c (a ++ b)). cbn [last_char].
  destruct (a ++ b) eqn:E; [|exact IH].
  destruct a; [change (b = "") in E; contradiction|discriminate E].
Qed.

Lemma store_paths_last h q :
  q ∈ store_paths h -> last_char q = Some "l"%char \/ last_char q = Some "y"%char.
Proof.
  unfold store_paths. destruct (os_platform h).
  - intros ->%list_elem_of_singleton. auto.
  - intros Hq. apply elem_of_cons in Hq as [-> | Hq]; [auto|].
    apply elem_of_cons in Hq as [-> | Hq]; [auto|].
    apply list_elem_of_singleton in Hq as ->. left.
    apply (last_char_app (os_homedir h) "/.spoofy/duid.original"). discriminate.
  - intros Hq. apply elem_of_cons in Hq as [-> | Hq].
    { right. apply (last_char_app _ "\spoofy"). discriminate. }
    apply elem_of_cons in Hq as [-> | Hq].
    { left. cbn [path_join join sep].
      apply (last_char_app _ "\duid.original"). discriminate. }
    apply list_elem_of_singleton in Hq as ->. left.
    apply (last_char_app _ "\spoofy\duid.original"). discriminate.
  - intros ->%list_elem_of_singleton. left.
    apply (last_char_app (os_homedir h) "/.spoofy/duid.original"). discriminate.
Qed.

Lemma not_store_path h q c :
  last_char q = Some c -> c <> "l"%char -> c <> "y"%char -> q ∉ store_paths h.
Proof. intros Hq Hl Hy Hin. destruct (store_paths_last h q Hin); congruence. Qed.

Lemma store_untouched_refl h w : store_untouched h w w.
Proof. intros q Hq. split; reflexivity. Qed.

Lemma store_untouched_trans h w1 w2 w3 :
  store_untouched h w1 w2 -> store_untouched h w2 w3 -> store_untouched h w1 w3.
Proof.
  intros H12 H23 q Hq. destruct (H12 q Hq) as [Hd1 Hf1], (H23 q Hq) as [Hd2 Hf2].
  split; [by rewrite Hd2|by rewrite Hf2].
Qed.

(** A change of the files at one path that is none of the store's. *)
Lemma store_untouched_set_files h w f q c :
  last_char q = Some c -> c <> "l"%char -> c <> "y"%char ->
  (forall p, p <> q -> f !! p = files w !! p) ->
  store_untouched h w (set_files f w).
Proof.
  intros Hq Hl Hy Hf p Hp. split; [reflexivity|]. cbn. apply Hf.
  intros ->. by apply (not_store_path h q c).
Qed.


(** *** What leaves the store alone *)

Lemma keeps_store_writeFileSync q content c :
  last_char q = Some c -> c <> "l"%char -> c <> "y"%char ->
  keeps store_untouched (writeFileSync q content).
Proof.
  intros Hq Hl Hy h e w. unfold writeFileSync. mred.
  destruct (writable h q); mred; cbn [snd]; [|apply store_untouched_refl].
  apply (store_untouched_set_files h w _ q c Hq Hl Hy).
  intros p Hp. by apply lookup_insert_ne.
Qed.

Lemma keeps_store_mkdirSync q c :
  last_char q = Some c -> c <> "l"%char -> c <> "y"%char ->
  keeps store_untouched (mkdirSync q).
Proof.
  intros Hq Hl Hy h e w. unfold mkdirSync. mred.
  destruct (writable h q); mred; cbn [snd]; [|apply store_untouched_refl].
  intros p Hp. split; [|reflexivity]. cbn.
  rewrite elem_of_union, elem_of_singleton. split; [|auto].
  intros [->|H]; [|exact H]. by destruct (not_store_path h q c Hq Hl Hy).
Qed.

Lemma keeps_store_unlinkSync q c :
  last_char q = Some c -> c <> "l"%char -> c <> "y"%char ->
  keeps store_untouched (unlinkSync q).
Proof.
  intros Hq Hl Hy h e w. unfold unlinkSync. mred.
  destruct (files w !! q); mred; [|apply store_untouched_refl].
  destruct (writable h q); mred; cbn [snd]; [|apply store_untouched_refl].
  apply (store_untouched_set_files h w _ q c Hq Hl Hy).
  intros p Hp. by apply lookup_delete_ne.
Qed.

(** The commands that remove by pattern apart, no command touches what the
    store looks at. *)
Lemma keeps_store_execSync c :
  c <> rm_DUID_glob -> c <> rm_leases -> keeps store_untouched (execSync c).
Proof.
  intros Hglob Hleases h e w. unfold execSync.
  destruct (exec_ok e c); cbn [negb snd]; [|apply store_untouched_refl].
  destruct c; try congruence;
    try (destruct (registry_duid w)); cbn [snd command_effect];
    try apply store_untouched_refl;
    try (intros p Hp; split; reflexivity).
  all: apply (store_untouched_set_files h w _ Host.DUID_PATH "D"%char);
    [reflexivity|discriminate|discriminate|].
  all: intros p Hp; by apply lookup_delete_ne.
Qed.

(** One step through a computation for a relation that is reflexive
    ([refl]) and transitive ([trans]); [leaf] is tried on what is not a
    bind, a [try], a test or a read. *)
Ltac keeps_step refl trans leaf :=
  lazymatch goal with
  | |- keeps _ (mbind _ _) => apply (keeps_bind _ trans); [|intros ?]
  | |- keeps _ (try_catch _ _) => apply (keeps_try_catch _ trans)
  | |- keeps _ (when _ _) => apply (keeps_when _ refl)
  | |- keeps _ (mret _) => apply (keeps_ret _ refl)
  | |- keeps _ (throw _) => apply (keeps_throw _ refl)
  | |- keeps _ (lift _) => apply (keeps_lift _ refl)
  | |- keeps _ get_host => apply (keeps_get_host _ refl)
  | |- keeps _ get_env => apply (keeps_get_env _ refl)
  | |- keeps _ (existsSync _) => apply (keeps_existsSync _ refl)
  | |- keeps _ (readFileSync _) => apply (keeps_readFileSync _ refl)
  | |- keeps _ (let _ := _ in _) => cbv zeta
  | |- keeps _ (if ?c then _ else _) => destruct c
  | |- keeps _ (match ?x with _ => _ end) => destruct x
  | |- _ => leaf
  end.

(** The facts about single operations that the steps below look up. *)
Create HintDb keeps_store discriminated.

Lemma keeps_store_write_f q content :
  last_char q = Some "f"%char -> keeps store_untouched (writeFileSync q content).
Proof. intros Hq. by apply (keeps_store_writeFileSync q content "f"%char). Qed.

Lemma keeps_store_write_k q content :
  last_char q = Some "k"%char -> keeps store_untouched (writeFileSync q content).
Proof. intros Hq. by apply (keeps_store_writeFileSync q content "k"%char). Qed.

Lemma keeps_store_unlink_f q :
  last_char q = Some "f"%char -> keeps store_untouched (unlinkSync q).
Proof. intros Hq. by apply (keeps_store_unlinkSync q "f"%char). Qed.

Lemma keeps_store_unlink_k q :
  last_char q = Some "k"%char -> keeps store_untouched (unlinkSync q).
Proof. intros Hq. by apply (keeps_store_unlinkSync q "k"%char). Qed.

Lemma keeps_store_mkdir_k q :
  last_char q = Some "k"%char -> keeps store_untouched (mkdirSync q).
Proof. intros Hq. by apply (keeps_store_mkdirSync q "k"%char). Qed.

Lemma keeps_store_mkdir_p q :
  last_char q = Some "p"%char -> keeps store_untouched (mkdirSync q).
Proof. intros Hq. by apply (keeps_store_mkdirSync q "p"%char). Qed.

Lemma last_char_network name :
  last_char (linux.SYSTEMD_DUID_PATH ++ "/" ++ name ++ ".network") = Some "k"%char.
Proof.
  rewrite last_char_app by (destruct name; discriminate).
  change ("/" ++ name ++ ".network") with (String "/" (name ++ ".network")).
  destruct name as [|c name]; [reflexivity|].
  change (last_char (String "/" (String c name ++ ".network")))
    with (last_char (String c name ++ ".network")).
  apply (last_char_app (String c name) ".network"). discriminate.
Qed.

Lemma last_char_conf :
  last_char (linux.SYSTEMD_DUID_PATH ++ "/00-duid.conf") = Some "f"%char.
Proof. reflexivity. Qed.

Lemma last_char_dhclient_conf : last_char linux.DHCLIENT_CONF = Some "f"%char.
Proof. reflexivity. Qed.

Lemma last_char_systemd_dir : last_char linux.SYSTEMD_DUID_PATH = Some "k"%char.
Proof. reflexivity. Qed.

Lemma last_char_dhclient_dir p :
  last_char (dirname p linux.DHCLIENT_CONF) = Some "p"%char.
Proof. destruct p; reflexivity. Qed.

#[export] Hint Resolve keeps_store_write_f keeps_store_write_k keeps_store_unlink_f
  keeps_store_unlink_k keeps_store_mkdir_k keeps_store_mkdir_p last_char_network
  last_char_conf last_char_dhclient_conf last_char_systemd_dir last_char_dhclient_dir
  : keeps_store.

Ltac keeps_store :=
  repeat keeps_step store_untouched_refl store_untouched_trans
    ltac:(first [ apply keeps_store_execSync; discriminate
                | solve [eauto with keeps_store] ]).

Lemma keeps_store_getHardwarePort device :
  keeps store_untouched (macos.getHardwarePort device).
Proof. unfold macos.getHardwarePort. keeps_store. Qed.

#[export] Hint Resolve keeps_store_getHardwarePort : keeps_store.

Lemma keeps_store_macos_resetDUID iface : keeps store_untouched (macos.resetDUID iface).
Proof. unfold macos.resetDUID, macos.toggle_v6_quiet. keeps_store. Qed.

Lemma keeps_store_windows_resetDUID iface : keeps store_untouched (windows.resetDUID iface).
Proof. unfold windows.resetDUID. keeps_store. Qed.

Lemma keeps_store_detectDHCPClient : keeps store_untouched linux.detectDHCPClient.
Proof. unfold linux.detectDHCPClient. keeps_store. Qed.

Lemma keeps_store_nmcli_set_duid iface value restart :
  keeps store_untouched (linux.nmcli_set_duid iface value restart).
Proof. unfold linux.nmcli_set_duid. keeps_store. Qed.

Lemma keeps_store_unlink_existing paths :
  Forall (fun q => last_char q = Some "f"%char \/ last_char q = Some "k"%char) paths ->
  keeps store_untouched (linux.unlink_existing paths).
Proof.
  induction 1 as [|q paths [Hq|Hq] _ IH]; cbn [linux.unlink_existing]; keeps_store.
Qed.

#[export] Hint Resolve keeps_store_detectDHCPClient keeps_store_nmcli_set_duid : keeps_store.

Lemma keeps_store_linux_resetDUID iface : keeps store_untouched (linux.resetDUID iface).
Proof.
  unfold linux.resetDUID. keeps_store.
  all: apply keeps_store_unlink_existing; constructor; [left; reflexivity|].
  all: destruct iface as [[|c rest]|];
    [constructor|constructor; [right; apply last_char_network|constructor]|constructor].
Qed.

Lemma keeps_store_resetDUID iface : keeps store_untouched (API.resetDUID iface).
Proof.
  intros h e w. unfold API.resetDUID, API.getPlatformImpl. mred.
  destruct (os_platform h); mred.
  - apply keeps_store_macos_resetDUID.
  - apply keeps_store_linux_resetDUID.
  - apply keeps_store_windows_resetDUID.
  - apply store_untouched_refl.
Qed.

(** What the store reads is the same in two worlds between which it is
    untouched. *)
Lemma exists_in_untouched h w w1 q :
  store_untouched h w w1 -> q ∈ store_paths h -> exists_in w1 q = exists_in w q.
Proof.
  intros Hu Hq. destruct (Hu q Hq) as [Hd Hf]. unfold exists_in. rewrite Hf.
  f_equal. by apply bool_decide_ext.
Qed.

Lemma store_path_untouched h w w1 :
  store_untouched h w w1 -> store_path h w1 = store_path h w.
Proof.
  intros Hu. unfold store_path.
  destruct (os_platform h) eqn:Hp; try reflexivity.
  - rewrite (exists_in_untouched h w w1 "/var/lib/spoofy" Hu); [reflexivity|].
    apply system_dir_in. unfold system_dir. by rewrite Hp.
  - cbv zeta. rewrite (exists_in_untouched h w w1 _ Hu); [reflexivity|].
    apply system_dir_in. unfold system_dir. by rewrite Hp.
Qed.

Lemma after_path_untouched h w w1 :
  store_untouched h w w1 -> store_untouched h (after_path h w) (after_path h w1).
Proof.
  intros Hu. unfold after_path. destruct (system_dir h) as [d|] eqn:Hd; [|exact Hu].
  rewrite (exists_in_untouched h w w1 d Hu) by (by apply system_dir_in).
  destruct (_ && _); [|exact Hu].
  intros q Hq. destruct (Hu q Hq) as [Hdirs Hf]. split; [|exact Hf]. cbn.
  rewrite !elem_of_union, Hdirs. reflexivity.
Qed.

Lemma store_reads_untouched h e w w1 :
  store_untouched h w w1 ->
  fst (getOriginalDUIDPath h e w1) = fst (getOriginalDUIDPath h e w)
  /\ fst (hasOriginalDUID h e w1) = fst (hasOriginalDUID h e w)
  /\ fst (getOriginalDUID h e w1) = fst (getOriginalDUID h e w).
Proof.
  intros Hu. rewrite !getOriginalDUIDPath_eq, !hasOriginalDUID_eq, !getOriginalDUID_eq.
  cbn [fst]. pose proof (after_path_untouched h w w1 Hu) as Hu'.
  rewrite (store_path_untouched h w w1 Hu).
  pose proof (store_path_in h w) as Hin.
  unfold read_original.
  rewrite (exists_in_untouched _ _ _ _ Hu' Hin), (proj2 (Hu' _ Hin)). auto.
Qed.


(** *** Reading the active DUID *)

Lemma macos_getCurrentDUID_pure h e w :
  exists c, macos.getCurrentDUID h e w = (Ok c, w).
Proof.
  unfold macos.getCurrentDUID, try_catch, existsSync, readFileSync. mred.
  destruct (exists_in w macos.DUID_PATH); mred.
  - destruct (files w !! macos.DUID_PATH); mred; eauto.
  - unfold execSync. destruct (exec_ok e defaults_read_DUID); cbn [negb]; mred.
    + cbn [command_effect]. destruct (registry_duid w); mred;
        destruct (truthy _); mred; eauto.
    + eauto.
Qed.

Lemma windows_getCurrentDUID_pure h e w :
  exists c, windows.getCurrentDUID h e w = (Ok c, w).
Proof.
  unfold windows.getCurrentDUID, try_catch, execSync. mred.
  destruct (exec_ok e reg_query); cbn [negb]; mred; [|eauto].
  destruct (registry_duid w); mred; [|eauto].
  destruct (truthy _); mred; eauto.
Qed.

Lemma same_as_original (current : option (list byte)) (original : list byte) :
  match current with
  | Some c => Buffer_equals c original
  | None => false
  end = bool_decide (current = Some original).
Proof.
  destruct current as [c|]; [|reflexivity]. unfold Buffer_equals.
  apply bool_decide_ext. split; [intros ->; reflexivity|intros [= ->]; reflexivity].
Qed.

(** *** The steps of [restoreDUID] after the comparison *)

(** The IPv6 switch of macOS changes nothing that is kept here; it returns
    where [toggle_returns] says so and throws otherwise. *)
Lemma macos_toggle_v6_eq cmd iface h e w :
  (forall name, command_effect (cmd name) w = w) ->
  (forall name, cmd name <> reg_query /\ cmd name <> reg_delete) ->
  exists r, macos.toggle_v6 cmd iface h e w = (r, w)
    /\ (toggle_returns e cmd iface = true -> r = Ok tt)
    /\ (toggle_returns e cmd iface = false -> exists err, r = Throw err).
Proof.
  intros Heff Hcmd.
  assert (Hexec : forall name, execSync (cmd name) h e w
            = if exec_ok e (cmd name) then (Ok (exec_out e (cmd name)), w)
              else (Throw (Error "Command failed"), w)).
  { intros name. unfold execSync. destruct (exec_ok e (cmd name)); cbn [negb]; [|reflexivity].
    rewrite Heff. destruct (Hcmd name) as [H1 H2].
    destruct (cmd name); try congruence; destruct (registry_duid w); reflexivity. }
  unfold macos.toggle_v6, toggle_returns.
  destruct iface as [[|c rest]|]; try (eexists; split; [reflexivity|]; split; [auto|discriminate]).
  unfold try_catch, macos.getHardwarePort. mred. rewrite Hexec.
  destruct (exec_ok e (cmd (String c rest))); mred.
  { eexists; split; [reflexivity|]; split; [auto|discriminate]. }
  destruct (hardware_port e (String c rest)) as [[|c' rest']|]; mred;
    try (eexists; split; [reflexivity|]; split; [auto|discriminate]).
  rewrite Hexec. destruct (exec_ok e (cmd (String c' rest'))); mred;
    eexists; (split; [reflexivity|]); split; eauto; discriminate.
Qed.

Lemma macos_clear_returns (extra : command) h e w :
  exists w2, try_catch (execSync extra;; execSync rm_leases;; mret tt) (mret tt) h e w
             = (Ok tt, w2).
Proof.
  unfold try_catch. mred.
  destruct (execSync extra h e w) as [[out|x] w1]; mred; [|eauto].
  destruct (execSync rm_leases h e w1) as [[out'|x] w2]; mred; eauto.
Qed.

(** The tail of [macos.restoreDUID]: it returns [Restored] with the
    original in the DUID file, or it throws; it returns when the switches
    return and the file may be written. *)
Lemma macos_restore_tail iface original h e w :
  let tail :=
    (macos.toggle_v6 networksetup_setv6off iface;;
     try_catch (execSync rm_DUID;; execSync rm_leases;; mret tt) (mret tt);;
     writeFileSync macos.DUID_PATH original;;
     macos.toggle_v6 networksetup_setv6automatic iface;;
     mret Restored) in
  ((exists w1, tail h e w = (Ok Restored, w1) /\ files w1 !! Host.DUID_PATH = Some original)
   \/ (exists err w1, tail h e w = (Throw err, w1)))
  /\ (toggle_returns e networksetup_setv6off iface
      && writable h Host.DUID_PATH
      && toggle_returns e networksetup_setv6automatic iface = true ->
      exists w1, tail h e w = (Ok Restored, w1)).
Proof.
  cbv zeta. mred.
  destruct (macos_toggle_v6_eq networksetup_setv6off iface h e w)
    as (r1 & -> & Hok1 & Hno1); [reflexivity|split; discriminate|].
  destruct (toggle_returns e networksetup_setv6off iface) eqn:T1.
  2:{ destruct (Hno1 eq_refl) as [err ->]. mred. split; [right; eauto|discriminate]. }
  rewrite (Hok1 eq_refl). mred.
  destruct (macos_clear_returns rm_DUID h e w) as [w2 ->]. mred.
  unfold writeFileSync. mred. change macos.DUID_PATH with Host.DUID_PATH.
  destruct (writable h Host.DUID_PATH) eqn:Hw; mred.
  2:{ split; [right; eauto|discriminate]. }
  set (w3 := set_files _ w2).
  destruct (macos_toggle_v6_eq networksetup_setv6automatic iface h e w3)
    as (r2 & -> & Hok2 & Hno2); [reflexivity|split; discriminate|].
  destruct (toggle_returns e networksetup_setv6automatic iface) eqn:T2.
  2:{ destruct (Hno2 eq_refl) as [err ->]. mred. split; [right; eauto|discriminate]. }
  rewrite (Hok2 eq_refl). mred. split; [left|]; eexists; [split; [reflexivity|]|reflexivity].
  apply lookup_insert_eq.
Qed.

Lemma windows_restart_v6_eq iface h e w : windows.restart_v6 iface h e w = (Ok tt, w).
Proof.
  assert (Hexec : forall c, (forall v, command_effect c v = v) ->
            c <> reg_query -> c <> reg_delete ->
            exists r, execSync c h e w = (r, w)).
  { intros c Heff H1 H2. unfold execSync. destruct (exec_ok e c); cbn [negb]; [|eauto].
    rewrite Heff. destruct c; try congruence; destruct (registry_duid w); eauto. }
  unfold windows.restart_v6. destruct iface as [[|c rest]|]; try reflexivity.
  unfold try_catch. mred.
  destruct (Hexec (netsh_ipv6 (String c rest) false)) as [r1 ->]; try (reflexivity || discriminate).
  destruct (Hexec (netsh_ipv6 (String c rest) true)) as [r2 H2]; try (reflexivity || discriminate).
  destruct (Hexec (powershell_rebind (String c rest))) as [r3 H3]; try (reflexivity || discriminate).
  destruct r1; mred; rewrite ?H2, ?H3; mred;
    repeat match goal with |- context [match ?r with Ok _ => _ | Throw _ => _ end] =>
      destruct r; mred end; rewrite ?H3; mred;
    repeat match goal with |- context [match ?r with Ok _ => _ | Throw _ => _ end] =>
      destruct r; mred end; reflexivity.
Qed.

(** The tail of [windows.restoreDUID] and of [windows.setDUID]. *)
Lemma windows_write_tail {A} (value : list byte) (msg : string) (ret : A) iface h e w :
  let duidHex := toUpperCase (Buffer_toString_hex value) in
  let tail :=
    (try_catch (_ ← execSync (reg_add duidHex); mret tt) (throw (Error msg));;
     windows.restart_v6 iface;;
     mret ret) in
  tail h e w
  = if exec_ok e (reg_add duidHex)
    then (Ok ret, set_registry_duid (Some value) w)
    else (Throw (Error msg), w).
Proof.
  cbv zeta. unfold try_catch, execSync. mred.
  destruct (exec_ok e (reg_add _)); cbn [negb]; mred.
  - replace (match registry_duid w with Some _ | _ => _ end)
      with (Ok (A:=string) (exec_out e (reg_add (toUpperCase (Buffer_toString_hex value)))),
            command_effect (reg_add (toUpperCase (Buffer_toString_hex value))) w)
      by (destruct (registry_duid w); reflexivity).
    mred. rewrite windows_restart_v6_eq. mred. cbn [command_effect].
    change (toUpperCase (Buffer_toString_hex value)) with (duidToHex value).
    rewrite hex_roundtrip. reflexivity.
  - reflexivity.
Qed.


(** *** What keeps the stored original *)

Lemma after_path_idem h w : after_path h (after_path h w) = after_path h w.
Proof.
  unfold after_path. destruct (system_dir h) as [d|]; [|reflexivity].
  destruct (exists_in w d) eqn:Hex, (writable h d) eqn:Hw; cbn [negb andb];
    rewrite ?Hex, ?Hw; try reflexivity.
  rewrite exists_in_mkdir, Hex, bool_decide_eq_true_2 by reflexivity. reflexivity.
Qed.

Lemma store_path_after h w : store_path h (after_path h w) = store_path h w.
Proof.
  assert (H : forall d, system_dir h = Some d ->
            exists_in (after_path h w) d || writable h d = exists_in w d || writable h d).
  { intros d Hd. unfold after_path. rewrite Hd.
    destruct (exists_in w d) eqn:Hex, (writable h d) eqn:Hw; cbn [negb andb];
      rewrite ?Hex; try reflexivity. apply orb_true_r. }
  unfold store_path. unfold system_dir in H.
  destruct (os_platform h); try reflexivity.
  - by rewrite (H _ eq_refl).
  - cbv zeta. by rewrite (H _ eq_refl).
Qed.

Lemma stored_after_path h w o : stored h (after_path h w) o <-> stored h w o.
Proof. unfold stored. by rewrite after_path_idem, store_path_after. Qed.

Lemma stored_exists h w o :
  stored h w o -> exists_in (after_path h w) (store_path h w) = true.
Proof.
  unfold stored, read_original.
  destruct (exists_in (after_path h w) (store_path h w)); [reflexivity|discriminate].
Qed.

Lemma original_kept_refl h w : original_kept h w w.
Proof. intros o Ho. exact Ho. Qed.

Lemma original_kept_trans h w1 w2 w3 :
  original_kept h w1 w2 -> original_kept h w2 w3 -> original_kept h w1 w3.
Proof. intros H12 H23 o Ho. auto. Qed.

Lemma original_kept_of_untouched h w w' :
  store_untouched h w w' -> original_kept h w w'.
Proof.
  intros Hu o. unfold stored.
  destruct (store_reads_untouched h
              {| exec_ok := fun _ => true; exec_out := fun _ => "";
                 hardware_port := fun _ => None; now_iso := "" |} w w' Hu) as (_ & _ & H).
  rewrite !getOriginalDUID_eq in H. cbn [fst] in H. injection H as ->. auto.
Qed.

Lemma keeps_kept_of_store {A} (m : M A) :
  keeps store_untouched m -> keeps original_kept m.
Proof. intros H h e w. apply original_kept_of_untouched, H. Qed.

(** The backup does not overwrite: where an original is stored,
    [storeOriginalDUID] leaves it. *)
Lemma keeps_kept_storeOriginalDUID c : keeps original_kept (storeOriginalDUID c).
Proof.
  intros h e w o Ho. unfold storeOriginalDUID.
  rewrite bind_eq, getOriginalDUIDPath_eq. mred. unfold existsSync. mred.
  rewrite (stored_exists h w o Ho). cbn [snd]. by apply stored_after_path.
Qed.

Ltac keeps_kept :=
  repeat keeps_step original_kept_refl original_kept_trans
    ltac:(first [ apply keeps_kept_storeOriginalDUID
                | apply keeps_kept_of_store; solve [keeps_store] ]).

(** On Linux and on Windows a call of [setDUID] keeps the stored original. *)
Lemma keeps_kept_linux_setDUID d iface : keeps original_kept (linux.setDUID d iface).
Proof.
  unfold linux.setDUID, linux.backupOriginal, linux.getCurrentDUID,
    linux.write_dhclient_conf, linux.restart_dhclient.
  keeps_kept.
  apply keeps_kept_of_store. apply keeps_store_write_k.
  destruct iface as [[|c rest]|]; auto using last_char_network.
Qed.

Lemma keeps_kept_windows_setDUID d iface : keeps original_kept (windows.setDUID d iface).
Proof.
  unfold windows.setDUID, windows.backupOriginal, windows.getCurrentDUID,
    windows.restart_v6.
  keeps_kept.
Qed.


(** The first backup: where there is no record and the place may be
    written, [storeOriginalDUID c] leaves [c] stored. *)
Lemma storeOriginalDUID_fresh_stored h e w c :
  json_round_trip (node h) ->
  exists_in (after_path h w) (store_path h w) = false ->
  writable h (store_path h w) = true ->
  writable h (dirname (os_platform h) (store_path h w)) = true ->
  exists w1, storeOriginalDUID c h e w = (Ok true, w1) /\ stored h w1 c.
Proof.
  intros Hjson Hex Hwp Hwd.
  destruct (storeOriginalDUID_fresh h e w _ _ c (getOriginalDUIDPath_eq h e w) Hex Hwp Hwd)
    as (w1 & Hstore & Hgrow & Hfile & _).
  exists w1. split; [exact Hstore|].
  pose proof (getOriginalDUIDPath_stable _ _ _ _ _ e _ (getOriginalDUIDPath_eq h e w) Hgrow)
    as Hpath1.
  pose proof (getOriginalDUID_record h e w1 _ _ Hjson Hpath1 Hfile) as Hread.
  rewrite getOriginalDUID_eq in Hread. injection Hread as Hread _.
  unfold stored. rewrite Hread. cbn [duid]. by rewrite from_hex_toString_hex.
Qed.

(** *** What [macos.setDUID] does to a file that is gone *)

Lemma stays_absent_refl p h w : stays_absent p h w w.
Proof. intros H. exact H. Qed.

Lemma stays_absent_trans p h w1 w2 w3 :
  stays_absent p h w1 w2 -> stays_absent p h w2 w3 -> stays_absent p h w1 w3.
Proof. unfold stays_absent. auto. Qed.

Lemma keeps_absent_execSync p c : keeps (stays_absent p) (execSync c).
Proof.
  intros h e w Hp. unfold execSync.
  destruct (exec_ok e c); cbn [negb snd]; [|exact Hp].
  destruct c; try (destruct (registry_duid w)); cbn [snd command_effect]; try exact Hp; cbn.
  all: try (apply map_lookup_filter_None; left; exact Hp).
  all: apply lookup_delete_None; right; exact Hp.
Qed.

Lemma keeps_absent_mkdirSync p q : keeps (stays_absent p) (mkdirSync q).
Proof.
  intros h e w Hp. unfold mkdirSync. mred. destruct (writable h q); mred; exact Hp.
Qed.

Lemma keeps_absent_writeFileSync p q content :
  p <> q -> keeps (stays_absent p) (writeFileSync q content).
Proof.
  intros Hne h e w Hp. unfold writeFileSync. mred.
  destruct (writable h q); mred; cbn; [|exact Hp].
  rewrite lookup_insert_ne by congruence. exact Hp.
Qed.

Ltac keeps_absent p :=
  repeat keeps_step (stays_absent_refl p) (stays_absent_trans p)
    ltac:(first [ apply keeps_absent_execSync
                | apply keeps_absent_mkdirSync
                | apply keeps_absent_writeFileSync; discriminate ]).

(** The clearing step of [macos.setDUID] returns, and when [rm] goes
    through, no file whose name starts with [DUID] is left in
    [/var/db/dhcpclient]. *)
Lemma macos_setDUID_clear h e w :
  exec_ok e rm_DUID_glob = true ->
  exists w2,
    try_catch (execSync rm_DUID_glob;; execSync rm_leases;; mret tt) (mret tt) h e w
    = (Ok tt, w2)
    /\ forall p, matches_DUID_glob p = true -> files w2 !! p = None.
Proof.
  intros Hok.
  destruct (macos_clear_returns rm_DUID_glob h e w) as [w2 Hw2]. exists w2.
  split; [exact Hw2|]. intros p Hp.
  assert (Hglob : files (snd (execSync rm_DUID_glob h e w)) !! p = None).
  { unfold execSync. rewrite Hok. cbn [negb].
    assert (Hf : files (command_effect rm_DUID_glob w) !! p = None).
    { cbn. apply map_lookup_filter_None. right. intros x _. cbn. by rewrite Hp. }
    destruct (registry_duid w); exact Hf. }
  revert Hw2. unfold try_catch. mred.
  destruct (execSync rm_DUID_glob h e w) as [[out|x] w1]; mred.
  - pose proof (keeps_absent_execSync p rm_leases h e w1 Hglob) as Hleases.
    destruct (execSync rm_leases h e w1) as [[out'|x] w3]; mred;
      intros [= <-]; exact Hleases.
  - intros [= <-]. exact Hglob.
Qed.

End HostFacts.

Import Host Store HostSpec HostFacts.

(** C2. Write-once store: where no record exists and the place of the
    store may be written, [storeOriginalDUID A] writes a record and returns
    true, after which the stored original is [A]; a following
    [storeOriginalDUID B] returns false and changes nothing, so the stored
    original is [A] still. *)
Theorem C2_store_write_once (h : host) (e1 e2 : env) (w w' : world) (p : string)
    (A B : list byte) :
  json_round_trip (node h) ->
  getOriginalDUIDPath h e1 w = (Ok p, w') ->
  fst (hasOriginalDUID h e1 w) = Ok false ->
  writable h p = true ->
  writable h (dirname (os_platform h) p) = true ->
  exists w1,
    storeOriginalDUID A h e1 w = (Ok true, w1)
    /\ hasOriginalDUID h e2 w1 = (Ok true, w1)
    /\ getOriginalDUID h e2 w1 = (Ok (Some A), w1)
    /\ storeOriginalDUID B h e2 w1 = (Ok false, w1).
Proof.
  intros Hjson Hpath Hhas Hwp Hwd.
  assert (Hex : exists_in w' p = false).
  { unfold hasOriginalDUID in Hhas. rewrite bind_eq, Hpath in Hhas.
    unfold existsSync in Hhas. rewrite bind_eq in Hhas. cbn in Hhas.
    by injection Hhas. }
  destruct (storeOriginalDUID_fresh h e1 w p w' A Hpath Hex Hwp Hwd)
    as (w1 & Hstore & Hgrow & Hfile & _).
  pose proof (getOriginalDUIDPath_stable _ _ _ _ _ e2 _ Hpath Hgrow) as Hpath1.
  assert (Hex1 : exists_in w1 p = true).
  { unfold exists_in. rewrite Hfile. apply orb_true_iff. left.
    apply bool_decide_eq_true. eauto. }
  exists w1. split; [exact Hstore|]. split; [|split].
  - unfold hasOriginalDUID. rewrite bind_eq, Hpath1. mred.
    unfold existsSync. mred. by rewrite Hex1.
  - rewrite (getOriginalDUID_record h e2 w1 p _ Hjson Hpath1 Hfile).
    cbn [duid]. by rewrite from_hex_toString_hex.
  - apply (storeOriginalDUID_present h e2 w1 p B Hpath1 Hex1).
Qed.

Lemma line_runtime_round_trip : json_round_trip line_runtime.
Proof.
  intros m. cbn [line_runtime JSON_parse_duid JSON_stringify].
  rewrite string_of_list_byte_of_string. reflexivity.
Defined.

Lemma C2_witness :
  exists w1,
    storeOriginalDUID duid_A mac_host quiet_env empty_world = (Ok true, w1)
    /\ hasOriginalDUID mac_host quiet_env w1 = (Ok true, w1)
    /\ getOriginalDUID mac_host quiet_env w1 = (Ok (Some duid_A), w1)
    /\ storeOriginalDUID duid_B mac_host quiet_env w1 = (Ok false, w1).
Proof.
  apply (C2_store_write_once mac_host quiet_env quiet_env empty_world empty_world
           "/var/db/dhcpclient/DUID.original" duid_A duid_B).
  - exact line_runtime_round_trip.
  - reflexivity.
  - vm_compute. reflexivity.
  - reflexivity.
  - reflexivity.
Defined.

(** C4. On every platform, with or without an interface argument and
    whatever the commands do, [resetDUID] leaves the store as it was: at
    every path the store looks at there is a file or not as before, with
    the content it had, and a directory or not as before; so the path of
    the record, the presence test and the stored original read the same
    before and after. *)
Theorem C4_reset_leaves_store (h : host) (e e' : env) (w : world) (iface : option string) :
  let w1 := snd (API.resetDUID iface h e w) in
  store_untouched h w w1
  /\ files w1 !! store_path h w = files w !! store_path h w
  /\ fst (getOriginalDUIDPath h e' w1) = fst (getOriginalDUIDPath h e' w)
  /\ fst (hasOriginalDUID h e' w1) = fst (hasOriginalDUID h e' w)
  /\ fst (getOriginalDUID h e' w1) = fst (getOriginalDUID h e' w).
Proof.
  cbv zeta. pose proof (keeps_store_resetDUID iface h e w) as Hu.
  split; [exact Hu|]. split; [apply (Hu _ (store_path_in h w))|].
  apply store_reads_untouched, Hu.
Qed.

Import Spec.

Lemma after_path_active h w : active_duid h (after_path h w) = active_duid h w.
Proof.
  unfold active_duid. rewrite after_path_files, after_path_registry. reflexivity.
Qed.

(** What holds of [restoreDUID] on macOS and on Windows. When the store
    holds no original it returns [NoOriginal] (false); when the stored
    original equals the current DUID it returns [NotSpoofed]; in both cases
    the active DUID is what it was. Otherwise it returns [Restored] (true)
    or throws and nothing else; when it returns [Restored] the active DUID
    is the original; and it does return [Restored] when the steps that may
    throw succeed, the IPv6 switch of macOS among them. *)
Lemma restoreDUID_outcomes_macos_windows (h : host) (e : env) (w : world) (iface : option string) :
  os_platform h = Darwin \/ os_platform h = Win32 ->
  exists original w0,
    getOriginalDUID h e w = (Ok original, w0)
    /\ active_duid h w0 = active_duid h w
    /\ match original with
       | None => API.restoreDUID iface h e w = (Ok NoOriginal, w0)
       | Some o =>
           exists current,
             API.getCurrentDUID h e w0 = (Ok current, w0)
             /\ if bool_decide (current = Some o)
                then API.restoreDUID iface h e w = (Ok NotSpoofed, w0)
                else
                  (forall r w1, API.restoreDUID iface h e w = (r, w1) ->
                     r = Ok Restored \/ exists err, r = Throw err)
                  /\ (forall w1, API.restoreDUID iface h e w = (Ok Restored, w1) ->
                        active_duid h w1 = Some o)
                  /\ (restore_steps_succeed h e iface o = true ->
                      exists w1, API.restoreDUID iface h e w = (Ok Restored, w1))
       end.
Proof.
  intros Hp. rewrite getOriginalDUID_eq.
  exists (read_original h (after_path h w) (store_path h w)), (after_path h w).
  split; [reflexivity|]. split; [apply after_path_active|].
  set (w0 := after_path h w). set (o := read_original h w0 (store_path h w)).
  destruct Hp as [Hp|Hp].
  - (* macOS *)
    assert (Hrestore : API.restoreDUID iface h e w = macos.restoreDUID iface h e w).
    { unfold API.restoreDUID, API.getPlatformImpl. mred. rewrite Hp. reflexivity. }
    assert (Hcurrent : API.getCurrentDUID h e w0 = macos.getCurrentDUID h e w0).
    { unfold API.getCurrentDUID, API.getPlatformImpl. mred. rewrite Hp. reflexivity. }
    rewrite Hrestore, Hcurrent. unfold macos.restoreDUID.
    rewrite bind_eq, getOriginalDUID_eq. fold w0 o. mred.
    destruct o as [o'|]; [|reflexivity].
    destruct (macos_getCurrentDUID_pure h e w0) as [c Hc].
    exists c. split; [exact Hc|]. mred. rewrite Hc. mred.
    rewrite same_as_original.
    destruct (bool_decide (c = Some o')); [reflexivity|].
    destruct (macos_restore_tail iface o' h e w0) as [Hcases Hsucc].
    cbv zeta in Hcases, Hsucc. unfold restore_steps_succeed, active_duid. rewrite Hp.
    split; [|split].
    + intros r w1 Hr. destruct Hcases as [(w2 & Ht & _)|(err & w2 & Ht)];
        rewrite Ht in Hr; injection Hr as <- <-; eauto.
    + intros w1 Hr. destruct Hcases as [(w2 & Ht & Hf)|(err & w2 & Ht)];
        rewrite Ht in Hr; [injection Hr as <-; exact Hf|discriminate].
    + exact Hsucc.
  - (* Windows *)
    assert (Hrestore : API.restoreDUID iface h e w = windows.restoreDUID iface h e w).
    { unfold API.restoreDUID, API.getPlatformImpl. mred. rewrite Hp. reflexivity. }
    assert (Hcurrent : API.getCurrentDUID h e w0 = windows.getCurrentDUID h e w0).
    { unfold API.getCurrentDUID, API.getPlatformImpl. mred. rewrite Hp. reflexivity. }
    rewrite Hrestore, Hcurrent. unfold windows.restoreDUID.
    rewrite bind_eq, getOriginalDUID_eq. fold w0 o. mred.
    destruct o as [o'|]; [|reflexivity].
    destruct (windows_getCurrentDUID_pure h e w0) as [c Hc].
    exists c. split; [exact Hc|]. mred. rewrite Hc. mred.
    rewrite same_as_original.
    destruct (bool_decide (c = Some o')); [reflexivity|].
    pose proof (windows_write_tail o'
      "Failed to restore DUID. Make sure you are running as Administrator."
      Restored iface h e w0) as Ht.
    cbv zeta in Ht. unfold restore_steps_succeed, active_duid. rewrite Hp.
    split; [|split].
    + intros r w1 Hr. rewrite Ht in Hr.
      destruct (exec_ok e _); injection Hr as <- <-; eauto.
    + intros w1 Hr. rewrite Ht in Hr.
      destruct (exec_ok e _); [injection Hr as <-; reflexivity|discriminate].
    + intros Hok. rewrite Ht, Hok. eauto.
Qed.

(** The lemma at a Windows host whose registry holds [duid_A] and whose
    store is empty. *)
Lemma restoreDUID_outcomes_windows :
  exists original w0,
    getOriginalDUID windows_host quiet_env windows_world = (Ok original, w0)
    /\ active_duid windows_host w0 = active_duid windows_host windows_world
    /\ match original with
       | None => API.restoreDUID None windows_host quiet_env windows_world = (Ok NoOriginal, w0)
       | Some o =>
           exists current,
             API.getCurrentDUID windows_host quiet_env w0 = (Ok current, w0)
             /\ if bool_decide (current = Some o)
                then API.restoreDUID None windows_host quiet_env windows_world
                     = (Ok NotSpoofed, w0)
                else
                  (forall r w1,
                     API.restoreDUID None windows_host quiet_env windows_world = (r, w1) ->
                     r = Ok Restored \/ exists err, r = Throw err)
                  /\ (forall w1,
                        API.restoreDUID None windows_host quiet_env windows_world
                        = (Ok Restored, w1) ->
                        active_duid windows_host w1 = Some o)
                  /\ (restore_steps_succeed windows_host quiet_env None o = true ->
                      exists w1,
                        API.restoreDUID None windows_host quiet_env windows_world
                        = (Ok Restored, w1))
       end.
Proof.
  apply (restoreDUID_outcomes_macos_windows windows_host quiet_env windows_world None).
  right. reflexivity.
Defined.

(** The three outcomes of [restoreDUID], on a Windows host whose DUID is
    [duid_A]: nothing stored; then, after [setDUID duid_B], the original
    is written back; then there is nothing left to restore. *)
Example restoreDUID_three_outcomes :
  let w1 := snd (API.setDUID (inl duid_B) None windows_host quiet_env windows_world) in
  let r2 := API.restoreDUID None windows_host quiet_env w1 in
  let r3 := API.restoreDUID None windows_host quiet_env (snd r2) in
  fst (API.restoreDUID None windows_host quiet_env windows_world) = Ok NoOriginal
  /\ registry_duid w1 = Some duid_B
  /\ fst r2 = Ok Restored /\ registry_duid (snd r2) = Some duid_A
  /\ fst r3 = Ok NotSpoofed /\ registry_duid (snd r3) = Some duid_A.
Proof. vm_compute. repeat split. Qed.

(** On Linux with no DHCP client detected, [restoreDUID] finds a stored
    original that is not the current DUID, writes nothing and returns
    [Restored] all the same. *)
Example linux_restoreDUID_without_client :
  let r := API.restoreDUID None linux_host failing_env linux_world in
  fst (getOriginalDUID linux_host failing_env linux_world) = Ok (Some duid_A)
  /\ fst r = Ok Restored
  /\ files (snd r) = files linux_world.
Proof. vm_compute. repeat split. Qed.

(** C3, at inputs where the code departs from it. A Mac was spoofed: the
    store holds [duid_A], the DUID file holds [duid_B]. Where
    [networksetup -setv6off] fails for the device name [en0] and for its
    hardware port [Wi-Fi], the second failure is raised inside the [catch]
    block of the first and leaves [restoreDUID]: the call throws, none of
    the three results, and the active DUID is still the spoofed one. Where
    only [networksetup -setv6automatic] fails, the original is written and
    the call throws all the same. And on Linux with no DHCP client detected
    the call returns [Restored] (true) and has written nothing. *)
Theorem C3_restoreDUID_outside_three_outcomes :
  let off := API.restoreDUID (Some "en0") mac_host v6_refused_env
               HostShape.spoofed_mac_world in
  let on := API.restoreDUID (Some "en0") mac_host HostShape.v6_on_refused_env
              HostShape.spoofed_mac_world in
  let lin := API.restoreDUID None linux_host failing_env linux_world in
  fst (getOriginalDUID mac_host v6_refused_env HostShape.spoofed_mac_world)
  = Ok (Some duid_A)
  /\ fst (API.getCurrentDUID mac_host v6_refused_env HostShape.spoofed_mac_world)
     = Ok (Some duid_B)
  /\ fst off = Throw (Error "Command failed")
  /\ files (snd off) !! Host.DUID_PATH = Some duid_B
  /\ fst on = Throw (Error "Command failed")
  /\ files (snd on) !! Host.DUID_PATH = Some duid_A
  /\ fst (getOriginalDUID linux_host failing_env linux_world) = Ok (Some duid_A)
  /\ fst (API.getCurrentDUID linux_host failing_env linux_world) = Ok None
  /\ fst lin = Ok Restored
  /\ files (snd lin) = files linux_world.
Proof. vm_compute. repeat split. Qed.

(** C1, at an input where the code departs from it. A Mac whose active
    DUID is [duid_A] has no backup yet. [backupOriginal] does store
    [duid_A]; but [setDUID] then runs [rm -f /var/db/dhcpclient/DUID*],
    which also removes [/var/db/dhcpclient/DUID.original], so that after
    the call no original is stored, a second call stores the spoofed value
    and removes it again, and [restoreDUID] finds nothing to go back to. *)
Theorem C1_macos_setDUID_removes_backup :
  let s1 := API.setDUID (inl duid_B) None mac_host quiet_env mac_world in
  let s2 := API.setDUID (inl duid_C) None mac_host quiet_env (snd s1) in
  fst (API.getCurrentDUID mac_host quiet_env mac_world) = Ok (Some duid_A)
  /\ fst (getOriginalDUID mac_host quiet_env
            (snd (macos.backupOriginal mac_host quiet_env mac_world)))
     = Ok (Some duid_A)
  /\ fst s1 = Ok true
  /\ files (snd s1) !! Host.DUID_PATH = Some duid_B
  /\ files (snd s1) !! "/var/db/dhcpclient/DUID.original" = None
  /\ fst (getOriginalDUID mac_host quiet_env (snd s1)) = Ok None
  /\ fst s2 = Ok true
  /\ fst (getOriginalDUID mac_host quiet_env (snd s2)) = Ok None
  /\ fst (API.restoreDUID None mac_host quiet_env (snd s2)) = Ok NoOriginal.
Proof. vm_compute. repeat split. Qed.

(** C5, at an input where the code departs from it. On a Mac,
    [networksetup -setv6off] fails for the device name [en0] and for its
    hardware port [Wi-Fi]. The second failure is raised inside the [catch]
    block of the first and leaves [setDUID]: the call throws, and the
    active DUID is still the old one. *)
Theorem C5_macos_setDUID_aborts_when_v6_switch_fails :
  let s := API.setDUID (inl duid_B) (Some "en0") mac_host v6_refused_env mac_world in
  fst s = Throw (Error "Command failed")
  /\ files (snd s) !! Host.DUID_PATH = Some duid_A.
Proof. vm_compute. repeat split. Qed.

(** On Windows the IPv6 restart of [setDUID] is best effort as C5 says:
    once the backup and [reg add] have gone through, the call returns true
    with the new DUID in the registry, whatever [netsh] and PowerShell
    do. *)
Lemma windows_setDUID_best_effort d iface h e w b w' :
  windows.backupOriginal h e w = (Ok b, w') ->
  exec_ok e (reg_add (toUpperCase (Buffer_toString_hex d))) = true ->
  windows.setDUID d iface h e w = (Ok true, set_registry_duid (Some d) w').
Proof.
  intros Hb Hok. unfold windows.setDUID. rewrite bind_eq, Hb. mred.
  pose proof (windows_write_tail d
    "Failed to set DUID. Make sure you are running as Administrator."
    true iface h e w') as Ht.
  cbv zeta in Ht. rewrite Hok in Ht. exact Ht.
Qed.

(** A text that is not hexadecimal installs an empty DUID and no error is
    raised. *)
Example setDUID_malformed_hex_installs_empty :
  let s := API.setDUID (inr "zz:03") None windows_host quiet_env windows_world in
  fst s = Ok true /\ registry_duid (snd s) = Some [].
Proof. vm_compute. repeat split. Qed.

(** *** The backup comes first, and where it is kept *)

(** On each platform [setDUID] is [backupOriginal] followed by the rest:
    nothing is done before the backup, and when the backup throws nothing
    else is done. *)
Lemma setDUID_backs_up_first (impl : adapter) (d : list byte) (iface : option string) :
  impl = macos_impl \/ impl = linux_impl \/ impl = windows_impl ->
  exists rest : M bool,
    forall h e w, setDUID impl d iface h e w = (backupOriginal impl;; rest) h e w.
Proof.
  intros [-> | [-> | ->]]; eexists; intros h e w; reflexivity.
Qed.

(** On macOS the call that made the backup removes it: whenever the
    backup and the IPv6 switch return and [rm -f /var/db/dhcpclient/DUID*]
    goes through, the record is gone when [setDUID] ends. *)
Lemma macos_setDUID_removes_record d iface h e w b w1 :
  macos.backupOriginal h e w = (Ok b, w1) ->
  toggle_returns e networksetup_setv6off iface = true ->
  exec_ok e rm_DUID_glob = true ->
  files (snd (macos.setDUID d iface h e w)) !! "/var/db/dhcpclient/DUID.original" = None.
Proof.
  intros Hb Htoggle Hrm. unfold macos.setDUID. rewrite (bind_ok _ _ _ _ _ _ _ Hb).
  destruct (macos_toggle_v6_eq networksetup_setv6off iface h e w1)
    as (r & Hr & Hok & _); [reflexivity|split; discriminate|].
  rewrite (Hok Htoggle) in Hr. rewrite (bind_ok _ _ _ _ _ _ _ Hr).
  destruct (macos_setDUID_clear h e w1 Hrm) as (w2 & Hclear & Hgone).
  rewrite (bind_ok _ _ _ _ _ _ _ Hclear).
  match goal with |- files (snd (?m h e w2)) !! ?p = None =>
    assert (K : keeps (stays_absent p) m)
  end.
  { unfold macos.toggle_v6, macos.getHardwarePort.
    keeps_absent "/var/db/dhcpclient/DUID.original". }
  apply K, Hgone. reflexivity.
Qed.

(** On Linux and on Windows the claim C1 holds: an original that is
    stored stays stored through any sequence of [setDUID] calls, whatever
    they are given and whatever they meet. *)
Lemma stored_original_survives_setDUID_calls h calls w o :
  os_platform h = Linux \/ os_platform h = Win32 ->
  stored h w o ->
  stored h (after_setDUID_calls h calls w) o.
Proof.
  intros Hp. revert w. induction calls as [|[[d iface] e] calls IH]; intros w Ho.
  - exact Ho.
  - cbn [after_setDUID_calls]. apply IH.
    unfold API.setDUID, API.getPlatformImpl. mred.
    destruct Hp as [-> | ->]; mred; cbn [setDUID linux_impl windows_impl].
    + by apply keeps_kept_linux_setDUID.
    + by apply keeps_kept_windows_setDUID.
Qed.

(** And the first call stores what it finds: where no record exists, the
    current DUID is [c] and the place of the store may be written, [c] is
    the stored original after the first [setDUID] and after every
    sequence of calls that follows. *)
Lemma first_observed_DUID_survives_setDUID_calls h e w c d iface calls :
  os_platform h = Linux \/ os_platform h = Win32 ->
  json_round_trip (node h) ->
  fst (hasOriginalDUID h e w) = Ok false ->
  API.getCurrentDUID h e w = (Ok (Some c), w) ->
  writable h (store_path h w) = true ->
  writable h (dirname (os_platform h) (store_path h w)) = true ->
  stored h (after_setDUID_calls h ((d, iface, e) :: calls) w) c.
Proof.
  intros Hp Hjson Hhas Hcur Hwp Hwd.
  rewrite hasOriginalDUID_eq in Hhas. injection Hhas as Hex.
  destruct (storeOriginalDUID_fresh_stored h e w c Hjson Hex Hwp Hwd) as (w1 & Hstore & Hst).
  cbn [after_setDUID_calls]. apply (stored_original_survives_setDUID_calls _ _ _ _ Hp).
  revert Hcur. unfold API.setDUID, API.getCurrentDUID, API.getPlatformImpl. mred.
  destruct Hp as [Hp | Hp]; rewrite Hp; mred;
    cbn [setDUID getCurrentDUID linux_impl windows_impl]; intros Hcur.
  - assert (Hb : linux.backupOriginal h e w = (Ok true, w1)).
    { unfold linux.backupOriginal. rewrite (bind_ok _ _ _ _ _ _ _ Hcur).
      by rewrite (bind_ok _ _ _ _ _ _ _ Hstore). }
    unfold linux.setDUID. rewrite (bind_ok _ _ _ _ _ _ _ Hb).
    match goal with |- stored h (snd (?m h e w1)) c =>
      assert (K : keeps original_kept m)
    end.
    { unfold linux.write_dhclient_conf, linux.restart_dhclient. keeps_kept.
      apply keeps_kept_of_store. apply keeps_store_write_k.
      destruct iface as [[|ch rest]|]; auto using last_char_network. }
    by apply K.
  - assert (Hb : windows.backupOriginal h e w = (Ok true, w1)).
    { unfold windows.backupOriginal. rewrite (bind_ok _ _ _ _ _ _ _ Hcur).
      by rewrite (bind_ok _ _ _ _ _ _ _ Hstore). }
    unfold windows.setDUID. rewrite (bind_ok _ _ _ _ _ _ _ Hb).
    match goal with |- stored h (snd (?m h e w1)) c =>
      assert (K : keeps original_kept m)
    end.
    { unfold windows.restart_v6. keeps_kept. }
    by apply K.
Qed.

(** * Further properties of the code *)

Import Codec Host Store Spec HostSpec Shape HostShape Link.
Import CodecFacts CodecFacts2 MacText GenerateFacts HexFacts HostFacts.

(** ** Texts of buffers *)

Lemma pairs_colon_cons b b' rest :
  pairs_colon (Buffer_toString_hex (b :: b' :: rest))
  = byte_to_hex b ++ String ":" (pairs_colon (Buffer_toString_hex (b' :: rest))).
Proof. reflexivity. Qed.

Lemma map_string_app f a b : map_string f (a ++ b) = map_string f a ++ map_string f b.
Proof. induction a as [|c a IH]; [reflexivity|]. simpl. by rewrite IH. Qed.

Lemma formatDUID_text b b' :
  formatDUID (b :: b') = Ok (upper_colon_hex (b :: b')).
Proof.
  unfold formatDUID, upper_colon_hex. f_equal.
  revert b. induction b' as [|c rest IH]; intros b; [reflexivity|].
  rewrite pairs_colon_cons. unfold toUpperCase in *.
  rewrite map_string_app. cbn [map_string]. rewrite IH. reflexivity.
Qed.

Lemma upper_colon_hex_length b :
  String.length (upper_colon_hex b) = (3 * length b - 1)%nat.
Proof.
  unfold upper_colon_hex.
  induction b as [|x [|y rest] IH]; [reflexivity|reflexivity|].
  change (join ":" (map (fun x => toUpperCase (byte_to_hex x)) (x :: y :: rest)))
    with (toUpperCase (byte_to_hex x)
            ++ String ":" (join ":" (map (fun x => toUpperCase (byte_to_hex x)) (y :: rest)))).
  rewrite string_length_app. cbn [String.length]. rewrite IH.
  change (String.length (toUpperCase (byte_to_hex x))) with 2%nat.
  cbn [length]. lia.
Qed.

Lemma upper_pair_not_separator x :
  exists c1 c2, toUpperCase (byte_to_hex x) = String c1 (String c2 "")
    /\ is_separator c1 = false /\ is_separator c2 = false.
Proof. destruct x; do 2 eexists; (split; [reflexivity|split; reflexivity]). Qed.

Lemma join_cons (sep : string) (g g' : string) (rest : list string) :
  join sep (g :: g' :: rest) = g ++ sep ++ join sep (g' :: rest).
Proof. reflexivity. Qed.

Lemma remove_chars_pair p c1 c2 s :
  p c1 = false -> p c2 = false ->
  remove_chars p (String c1 (String c2 "") ++ s) = String c1 (String c2 "") ++ remove_chars p s.
Proof. intros H1 H2. simpl. rewrite H1, H2. reflexivity. Qed.

Lemma unfold_upper_colon_hex b :
  remove_chars is_separator (upper_colon_hex b) = duidToHex b.
Proof.
  unfold upper_colon_hex.
  induction b as [|x [|y rest] IH]; [reflexivity| |].
  - destruct (upper_pair_not_separator x) as (c1 & c2 & E & H1 & H2).
    cbn [map join]. rewrite duidToHex_cons, E. cbn [remove_chars].
    rewrite H1, H2. reflexivity.
  - destruct (upper_pair_not_separator x) as (c1 & c2 & E & H1 & H2).
    cbn [map] in *. rewrite join_cons, duidToHex_cons, E.
    rewrite (remove_chars_pair _ _ _ _ H1 H2). f_equal.
    rewrite <- IH. reflexivity.
Qed.

Lemma hexToDuid_upper_colon_hex b : hexToDuid (upper_colon_hex b) = b.
Proof.
  unfold hexToDuid. change (fun c => is_colon c || is_space c) with is_separator.
  rewrite unfold_upper_colon_hex. apply hex_roundtrip.
Qed.

(** X1. [formatDUID] throws a [TypeError] on the empty buffer; for any
    other buffer it returns the colon-separated capital text, three
    characters a byte less one, and [hexToDuid] reads that text back to
    the buffer. *)
Theorem formatDUID_round_trip (b : list byte) :
  match b with
  | [] => formatDUID b = Throw TypeError
  | _ :: _ =>
      formatDUID b = Ok (upper_colon_hex b)
      /\ String.length (upper_colon_hex b) = (3 * length b - 1)%nat
      /\ hexToDuid (upper_colon_hex b) = b
  end.
Proof.
  destruct b as [|x rest]; [reflexivity|].
  split; [apply formatDUID_text|].
  split; [apply upper_colon_hex_length|apply hexToDuid_upper_colon_hex].
Qed.

(** ** Parsing *)

Lemma parseDUID_long b0 b1 rest :
  parseDUID (Some (b0 :: b1 :: rest))
  = let d := b0 :: b1 :: rest in
    let t := readUInt16BE d 0 in
    let result :=
      {| type := TypeNumber t; typeName := Some (type_name t);
         raw := RawText (upper_colon_hex d);
         hwType := None; time := None; timeDate := None; lladdr := None;
         enterpriseNumber := None; identifier := None; uuid := None |} in
    if t =? DUID_LLT then
      if (14 <=? length d)%nat then
        Ok {| type := type result; typeName := typeName result; raw := raw result;
              hwType := Some (readUInt16BE d 2);
              time := Some (readUInt32BE d 4);
              timeDate := Some ((readUInt32BE d 4 + 946684800) * 1000);
              lladdr := Some (colon_hex (slice d 8 14));
              enterpriseNumber := None; identifier := None; uuid := None |}
      else Ok result
    else if t =? DUID_EN then
      if (6 <=? length d)%nat then
        Ok {| type := type result; typeName := typeName result; raw := raw result;
              hwType := None; time := None; timeDate := None; lladdr := None;
              enterpriseNumber := Some (readUInt32BE d 2);
              identifier := Some (Buffer_toString_hex (drop 6 d));
              uuid := None |}
      else Ok result
    else if t =? DUID_LL then
      if (10 <=? length d)%nat then
        Ok {| type := type result; typeName := typeName result; raw := raw result;
              hwType := Some (readUInt16BE d 2);
              time := None; timeDate := None;
              lladdr := Some (colon_hex (slice d 4 10));
              enterpriseNumber := None; identifier := None; uuid := None |}
      else Ok result
    else if t =? DUID_UUID then
      if (18 <=? length d)%nat then
        let u := slice d 2 18 in
        Ok {| type := type result; typeName := typeName result; raw := raw result;
              hwType := None; time := None; timeDate := None; lladdr := None;
              enterpriseNumber := None; identifier := None;
              uuid := Some (join "-"
                [Buffer_toString_hex (slice u 0 4);
                 Buffer_toString_hex (slice u 4 6);
                 Buffer_toString_hex (slice u 6 8);
                 Buffer_toString_hex (slice u 8 10);
                 Buffer_toString_hex (slice u 10 16)]) |}
      else Ok result
    else Ok result.
Proof.
  unfold parseDUID. rewrite formatDUID_text. reflexivity.
Qed.

(** X2. [parseDUID] never throws. A missing buffer and a buffer of fewer
    than two bytes are reported as type 'unknown', with the input as [raw]
    and nothing else; any longer buffer gets the number in its first two
    bytes as type, the name of that number, and its capital colon text as
    [raw]. *)
Theorem parseDUID_never_throws (d : option (list byte)) :
  exists p, parseDUID d = Ok p
    /\ match d with
       | Some (b0 :: b1 :: rest) =>
           let t := byte_to_Z b0 * 256 + byte_to_Z b1 in
           type p = TypeNumber t
           /\ typeName p = Some (type_name t)
           /\ raw p = RawText (upper_colon_hex (b0 :: b1 :: rest))
       | _ =>
           type p = TypeUnknown /\ typeName p = None /\ raw p = RawInput d
           /\ no_typed_field p
       end.
Proof.
  destruct d as [[|b0 [|b1 rest]]|];
    try (eexists; split; [reflexivity|]; repeat split; reflexivity).
  rewrite parseDUID_long. cbv zeta.
  change (readUInt16BE (b0 :: b1 :: rest) 0) with (byte_to_Z b0 * 256 + byte_to_Z b1).
  repeat match goal with
         | |- context [if ?c then _ else _] => destruct c
         end;
    eexists; (split; [reflexivity|]); repeat split; reflexivity.
Qed.

(** X3. Which fields [parseDUID] fills depends on the type number and on
    the length only: the link-layer address and the hardware type for type
    1 from 14 bytes on and type 3 from 10 bytes on, the time for type 1
    from 14 bytes on, the enterprise number and the identifier for type 2
    from 6 bytes on, the UUID for type 4 from 18 bytes on. A buffer that is
    too short for its type is parsed without them and without an error. *)
Theorem parseDUID_fields_by_length (b0 b1 : byte) (rest : list byte) :
  let d := b0 :: b1 :: rest in
  let t := byte_to_Z b0 * 256 + byte_to_Z b1 in
  let n := length d in
  exists p, parseDUID (Some d) = Ok p
    /\ (is_Some (lladdr p) <-> (t = 1 /\ (14 <= n)%nat) \/ (t = 3 /\ (10 <= n)%nat))
    /\ (is_Some (hwType p) <-> is_Some (lladdr p))
    /\ (is_Some (time p) <-> t = 1 /\ (14 <= n)%nat)
    /\ (is_Some (timeDate p) <-> is_Some (time p))
    /\ (is_Some (enterpriseNumber p) <-> t = 2 /\ (6 <= n)%nat)
    /\ (is_Some (identifier p) <-> is_Some (enterpriseNumber p))
    /\ (is_Some (uuid p) <-> t = 4 /\ (18 <= n)%nat).
Proof.
  cbv zeta. rewrite parseDUID_long. cbv zeta.
  change (readUInt16BE (b0 :: b1 :: rest) 0) with (byte_to_Z b0 * 256 + byte_to_Z b1).
  generalize (byte_to_Z b0 * 256 + byte_to_Z b1). intros t.
  generalize (length (b0 :: b1 :: rest)). intros n.
  unfold DUID_LLT, DUID_EN, DUID_LL, DUID_UUID.
  destruct (Z.eqb_spec t 1) as [->|H1]; [destruct (Nat.leb_spec 14 n)|];
    [| |destruct (Z.eqb_spec t 2) as [->|H2]; [destruct (Nat.leb_spec 6 n)|]];
    [| | | |destruct (Z.eqb_spec t 3) as [->|H3]; [destruct (Nat.leb_spec 10 n)|]];
    [| | | | | |destruct (Z.eqb_spec t 4) as [->|H4]; [destruct (Nat.leb_spec 18 n)|]];
    (eexists; split; [reflexivity|]);
    cbn [lladdr hwType time timeDate enterpriseNumber identifier uuid];
    rewrite ?is_Some_alt; intuition (discriminate || lia).
Qed.

(** ** Generation *)

Lemma parseDUID_EN_number ident :
  exists p, parseDUID (Some ([x00; x02; x00; x00; x00; x09] ++ ident)%list) = Ok p
    /\ type p = TypeNumber DUID_EN
    /\ enterpriseNumber p = Some 9
    /\ identifier p = Some (Buffer_toString_hex ident).
Proof. eexists. split; [reflexivity|]. repeat split; reflexivity. Qed.

(** X4. A DUID-EN is generated for every address argument, whatever its
    form: [parseDUID] reads the enterprise number 9 from it, and as
    identifier the lowercase text of the pairs of hexadecimal digits at the
    head of the address without its colons. For the text of a six-byte
    address that is the address, and for an absent one the random address. *)
Theorem EN_identifier_round_trip (mac : option string) (r : rng) (now : Z) :
  exists d p,
    generateDUID (Some DUID_EN) mac r now = Ok d
    /\ parseDUID (Some d) = Ok p
    /\ type p = TypeNumber DUID_EN
    /\ enterpriseNumber p = Some 9
    /\ identifier p
       = Some (toLowerCase (leading_hex_pairs (remove_chars is_colon (macAddr_of mac r))))
    /\ (forall m s, mac = Some s -> mac_text m s ->
          d = ([x00; x02; x00; x00; x00; x09] ++ m)%list
          /\ identifier p = Some (Buffer_toString_hex m))
    /\ (mac = None -> identifier p = Some (Buffer_toString_hex (random_mac_bytes r))).
Proof.
  rewrite generateDUID_EN.
  destruct (parseDUID_EN_number (Buffer_from_hex (remove_chars is_colon (macAddr_of mac r))))
    as (p & Hp & Hty & Hen & Hid).
  eexists. exists p. split; [reflexivity|]. split; [exact Hp|].
  split; [exact Hty|]. split; [exact Hen|]. split; [|split].
  - rewrite Hid, toString_hex_from_hex. reflexivity.
  - intros m s -> Hm. destruct (mac_text_nonempty _ _ Hm) as (c & rest & ->).
    cbn [macAddr_of] in *. destruct Hm as [_ (groups & HF & Hs)].
    rewrite Hid, Hs, (from_hex_groups _ _ HF). split; reflexivity.
  - intros ->. rewrite Hid, macAddr_of_None.
    destruct (generateRandomMAC_mac_text r) as [_ (groups & HF & Hs)].
    rewrite Hs, (from_hex_groups _ _ HF). reflexivity.
Qed.

Lemma EN_identifier_round_trip_witness :
  exists d p,
    generateDUID (Some DUID_EN) (Some "AA:BB:CC:DD:EE:FF") (fun _ => x00) 0 = Ok d
    /\ parseDUID (Some d) = Ok p
    /\ d = [x00; x02; x00; x00; x00; x09; xaa; xbb; xcc; xdd; xee; xff]
    /\ identifier p = Some "aabbccddeeff".
Proof.
  destruct (EN_identifier_round_trip (Some "AA:BB:CC:DD:EE:FF") (fun _ => x00) 0)
    as (d & p & Hd & Hp & _ & _ & _ & Htext & _).
  destruct (Htext [xaa; xbb; xcc; xdd; xee; xff] "AA:BB:CC:DD:EE:FF" eq_refl sample_mac_text)
    as [Hbytes Hid].
  exists d, p. split; [exact Hd|]. split; [exact Hp|]. split; [exact Hbytes|exact Hid].
Defined.

Lemma byte_to_Z_u8_mod z : byte_to_Z (u8 z) = z mod 256.
Proof.
  transitivity (byte_to_Z (u8 (z mod 256))).
  - unfold u8. rewrite Z.mod_mod by lia. reflexivity.
  - apply byte_to_Z_u8. apply Z.mod_pos_bound. lia.
Qed.

(** The four bytes of the time field read back as the number written. *)
Lemma read_time_bytes v :
  0 <= v <= 4294967295 ->
  ((byte_to_Z (u8 (Z.shiftr v 24)) * 256 + byte_to_Z (u8 (Z.shiftr v 16))) * 256
     + byte_to_Z (u8 (Z.shiftr v 8))) * 256 + byte_to_Z (u8 v) = v.
Proof.
  intros Hv. rewrite !byte_to_Z_u8_mod, !Z.shiftr_div_pow2 by lia.
  change (2 ^ 24) with (256 * (256 * 256)). change (2 ^ 16) with (256 * 256).
  change (2 ^ 8) with 256.
  rewrite <- !Z.div_div by lia.
  pose proof (Z.div_mod v 256). pose proof (Z.mod_pos_bound v 256).
  pose proof (Z.div_mod (v / 256) 256). pose proof (Z.mod_pos_bound (v / 256) 256).
  pose proof (Z.div_mod (v / 256 / 256) 256).
  pose proof (Z.mod_pos_bound (v / 256 / 256) 256).
  assert (0 <= v / 256 / 256 / 256 < 256).
  { split; [repeat apply Z.div_pos; lia|].
    repeat (apply Z.div_lt_upper_bound; [lia|]). lia. }
  rewrite (Z.mod_small (v / 256 / 256 / 256)) by lia. lia.
Qed.

Lemma parseDUID_LLT_time v m :
  length m = 6%nat ->
  exists p, parseDUID (Some ([x00; x01; x00; x01] ++ time_bytes v ++ m)%list) = Ok p
    /\ hwType p = Some 1
    /\ time p = Some (((byte_to_Z (u8 (Z.shiftr v 24)) * 256
                          + byte_to_Z (u8 (Z.shiftr v 16))) * 256
                         + byte_to_Z (u8 (Z.shiftr v 8))) * 256 + byte_to_Z (u8 v))
    /\ timeDate p = option_map (fun t => (t + 946684800) * 1000) (time p)
    /\ lladdr p = Some (colon_hex m).
Proof.
  intros Hlen. do 7 (destruct m as [|? m]; try discriminate Hlen).
  eexists. split; [reflexivity|]. repeat split; reflexivity.
Qed.

Lemma generateDUID_LLT_late mac r now :
  ~ clock_in_range now -> generateDUID (Some DUID_LLT) mac r now = Throw RangeError.
Proof.
  intros Hclock. rewrite generateDUID_LLT. unfold writeUInt32BE, clock_in_range in *.
  destruct (_ || _) eqn:E; [reflexivity|].
  apply orb_false_elim in E as [E1%Z.ltb_ge E2%Z.ltb_ge]. lia.
Qed.

(** X5. The time field of a DUID-LLT: while the clock is between
    2000-01-01 and 2136-02-07, a DUID-LLT generated without an address or
    from the text of one parses back to the hardware type 1, to the seconds
    since 2000-01-01 and to a date that is the clock cut to the second;
    outside that range [generateDUID] throws a [RangeError] for every
    address argument. *)
Theorem LLT_time_round_trip (r : rng) (now : Z) :
  (clock_in_range now ->
   forall mac, absent_or_mac_text mac ->
     exists d p,
       generateDUID (Some DUID_LLT) mac r now = Ok d
       /\ parseDUID (Some d) = Ok p
       /\ hwType p = Some HW_TYPE_ETHERNET
       /\ time p = Some (now / 1000 - 946684800)
       /\ timeDate p = Some (now / 1000 * 1000))
  /\ (~ clock_in_range now ->
      forall mac, generateDUID (Some DUID_LLT) mac r now = Throw RangeError).
Proof.
  split; [|intros Hclock mac; by apply generateDUID_LLT_late].
  intros Hclock mac Hmac.
  assert (exists m, length m = 6%nat
            /\ generateDUID (Some DUID_LLT) mac r now
               = Ok ([x00; x01; x00; x01] ++ time_bytes (now / 1000 - 946684800) ++ m)%list)
    as (m & Hlen & ->).
  { destruct Hmac as [-> | (m & s & -> & Hm)].
    - exists (random_mac_bytes r). split; [reflexivity|].
      by apply generateDUID_LLT_random.
    - exists m. split; [apply Hm|]. by apply generateDUID_LLT_text. }
  destruct (parseDUID_LLT_time (now / 1000 - 946684800) m Hlen)
    as (p & Hp & Hhw & Htime & Hdate & _).
  rewrite (read_time_bytes _ Hclock) in Htime.
  eexists. exists p. split; [reflexivity|]. split; [exact Hp|].
  split; [exact Hhw|]. split; [exact Htime|].
  rewrite Hdate, Htime. cbn [option_map]. f_equal. lia.
Qed.

Lemma LLT_time_round_trip_witness :
  (exists d p,
     generateDUID (Some DUID_LLT) None (fun _ => x00) 1700000000123 = Ok d
     /\ parseDUID (Some d) = Ok p
     /\ hwType p = Some 1
     /\ time p = Some 753315200
     /\ timeDate p = Some 1700000000000)
  /\ generateDUID (Some DUID_LLT) None (fun _ => x00) 0 = Throw RangeError.
Proof.
  split.
  - apply (proj1 (LLT_time_round_trip (fun _ => x00) 1700000000123)).
    + unfold clock_in_range. vm_compute. split; discriminate.
    + left. reflexivity.
  - apply (proj2 (LLT_time_round_trip (fun _ => x00) 0)).
    unfold clock_in_range. vm_compute. intros [H _]. apply H. reflexivity.
Defined.

Lemma lower_hex_byte b : forallb_string is_lower_hex (byte_to_hex b) = true.
Proof. destruct b; reflexivity. Qed.

Lemma hex_pair_facts x :
  exists c1 c2,
    byte_to_hex x = String c1 (String c2 "")
    /\ is_lower_hex c1 = true /\ is_lower_hex c2 = true.
Proof. destruct x; do 2 eexists; (split; [reflexivity|split; reflexivity]). Qed.

Lemma version_digit b :
  exists c, byte_to_hex (u8 (Z.lor (Z.land (byte_to_Z b) 15) 64)) = String "4" (String c "").
Proof. destruct b; eexists; reflexivity. Qed.

Lemma variant_digit b :
  exists c1 c2, byte_to_hex (u8 (Z.lor (Z.land (byte_to_Z b) 63) 128)) = String c1 (String c2 "")
    /\ In c1 ["8"; "9"; "a"; "b"]%char.
Proof. destruct b; do 2 eexists; (split; [reflexivity|cbn; tauto]). Qed.

Lemma append_cons c (s t : string) : String c s ++ t = String c (s ++ t).
Proof. reflexivity. Qed.

Lemma append_nil (t : string) : "" ++ t = t.
Proof. reflexivity. Qed.

Ltac hex_pair x :=
  let c1 := fresh "c" in
  let c2 := fresh "c" in
  let E := fresh "E" in
  let Hl1 := fresh "Hl" in
  let Hl2 := fresh "Hl" in
  destruct (hex_pair_facts x) as (c1 & c2 & E & Hl1 & Hl2);
  rewrite ?E.

Lemma append_assoc3 (a b c : string) : (a ++ b) ++ c = a ++ b ++ c.
Proof. induction a as [|x a IH]; [reflexivity|]. rewrite !append_cons, IH. reflexivity. Qed.

Lemma remove_dash_byte b s :
  remove_chars is_dash (byte_to_hex b ++ s) = byte_to_hex b ++ remove_chars is_dash s.
Proof. destruct b; reflexivity. Qed.

Lemma remove_dash_hex l s :
  remove_chars is_dash (Buffer_toString_hex l ++ s)
  = Buffer_toString_hex l ++ remove_chars is_dash s.
Proof.
  induction l as [|b l IH]; [reflexivity|].
  cbn [Buffer_toString_hex]. rewrite !append_assoc3, remove_dash_byte, IH. reflexivity.
Qed.

Lemma from_hex_toString_app l s :
  Buffer_from_hex (Buffer_toString_hex l ++ s) = (l ++ Buffer_from_hex s)%list.
Proof.
  induction l as [|b l IH]; [reflexivity|].
  cbn [Buffer_toString_hex]. rewrite append_assoc3, from_hex_byte, IH. reflexivity.
Qed.

Lemma append_nil_r (s : string) : s ++ "" = s.
Proof. induction s as [|c s IH]; [reflexivity|]. rewrite append_cons, IH. reflexivity. Qed.

Lemma remove_dash_sep s : remove_chars is_dash ("-" ++ s) = remove_chars is_dash s.
Proof. reflexivity. Qed.

Lemma remove_dash_last l :
  remove_chars is_dash (Buffer_toString_hex l) = Buffer_toString_hex l.
Proof.
  rewrite <- (append_nil_r (Buffer_toString_hex l)) at 1.
  rewrite remove_dash_hex. apply append_nil_r.
Qed.

(** The text of a UUID without its dashes decodes to the bytes of its
    five groups. *)
Lemma uuid_text_decodes l1 l2 l3 l4 l5 :
  Buffer_from_hex (remove_chars is_dash
    (join "-" [Buffer_toString_hex l1; Buffer_toString_hex l2; Buffer_toString_hex l3;
               Buffer_toString_hex l4; Buffer_toString_hex l5]))
  = (l1 ++ l2 ++ l3 ++ l4 ++ l5)%list.
Proof.
  rewrite !join_cons. cbn [join].
  repeat (rewrite remove_dash_hex, remove_dash_sep). rewrite remove_dash_last.
  rewrite !from_hex_toString_app, from_hex_toString_hex. reflexivity.
Qed.

Lemma uuid_text_of_bytes b0 b1 b2 b3 b4 b5 b6 b7 b8 b9 b10 b11 b12 b13 b14 b15 :
  let d := force_uuid_bits
             [x00; x04; b0; b1; b2; b3; b4; b5; b6; b7; b8; b9; b10; b11; b12; b13; b14; b15] in
  exists p u, parseDUID (Some d) = Ok p /\ uuid p = Some u /\ is_uuid_v4_text u
    /\ Buffer_from_hex (remove_chars is_dash u) = drop 2 d.
Proof.
  cbv zeta. eexists. eexists. split; [reflexivity|]. split; [reflexivity|].
  cbn [uuid]. split; [|apply uuid_text_decodes].
  cbn [force_uuid_bits byte_at lookup list_lookup insert list_insert slice take drop
       Nat.sub Buffer_toString_hex join].
  destruct (version_digit b6) as (v & Hv).
  destruct (variant_digit b8) as (w1 & w2 & Hw & Hin).
  set (B6 := u8 (Z.lor (Z.land (byte_to_Z b6) 15) 64)) in *.
  set (B8 := u8 (Z.lor (Z.land (byte_to_Z b8) 63) 128)) in *.
  hex_pair b0. hex_pair b1. hex_pair b2. hex_pair b3. hex_pair b4. hex_pair b5.
  hex_pair B6. hex_pair b7. hex_pair B8. hex_pair b9. hex_pair b10. hex_pair b11.
  hex_pair b12. hex_pair b13. hex_pair b14. hex_pair b15.
  repeat match goal with
         | H : byte_to_hex ?B = _, H' : byte_to_hex ?B = _ |- _ =>
             rewrite H in H'; injection H' as ? ?; clear H
         end.
  subst. repeat (rewrite append_cons || rewrite append_nil).
  eexists (String _ (String _ (String _ (String _ (String _ (String _ (String _ (String _ "")))))))),
          (String _ (String _ (String _ (String _ "")))),
          (String _ (String _ (String _ (String _ "")))),
          (String _ (String _ (String _ (String _ "")))),
          (String _ (String _ (String _ (String _ (String _ (String _
            (String _ (String _ (String _ (String _ (String _ (String _ "")))))))))))).
  split; [reflexivity|]. split; [reflexivity|]. split; [|split].
  - repeat constructor; cbn [forallb_string];
      repeat match goal with H : is_lower_hex _ = true |- _ => rewrite ?H; clear H end;
      reflexivity.
  - reflexivity.
  - eexists. split; [reflexivity|assumption].
Qed.

(** X6. A DUID-UUID is generated for every address argument and every
    draw, and [parseDUID] reads from it the text of a version-4 UUID: 36
    characters in five groups of 8, 4, 4, 4 and 12 lowercase hexadecimal
    digits, the third starting with 4, the fourth with 8, 9, a or b; without
    its dashes the text decodes to the sixteen bytes after the type. *)
Theorem UUID_text_shape (mac : option string) (r : rng) (now : Z) :
  exists d p u,
    generateDUID (Some DUID_UUID) mac r now = Ok d
    /\ parseDUID (Some d) = Ok p
    /\ uuid p = Some u
    /\ is_uuid_v4_text u
    /\ String.length u = 36%nat
    /\ Buffer_from_hex (remove_chars is_dash u) = drop 2 d.
Proof.
  rewrite generateDUID_UUID. unfold uuid_draws.
  generalize (rng_after_mac mac r). intros r'. cbn [seq map app].
  destruct (uuid_text_of_bytes (r' 0%nat) (r' 1%nat) (r' 2%nat) (r' 3%nat) (r' 4%nat)
              (r' 5%nat) (r' 6%nat) (r' 7%nat) (r' 8%nat) (r' 9%nat) (r' 10%nat)
              (r' 11%nat) (r' 12%nat) (r' 13%nat) (r' 14%nat) (r' 15%nat))
    as (p & u & Hp & Hu & Hshape & Hbytes).
  eexists. exists p, u. split; [reflexivity|]. split; [exact Hp|].
  split; [exact Hu|]. split; [exact Hshape|]. split; [|exact Hbytes].
  destruct Hshape as (g1 & g2 & g3 & g4 & g5 & -> & Hlen & _).
  injection Hlen as H1 H2 H3 H4 H5.
  rewrite !string_length_app, H1, H2, H3, H4, H5. reflexivity.
Qed.

(** What [write_each] makes of the groups of an address, whatever they
    are: the bytes of the groups over the buffer from [off] on, or a
    [RangeError] when a group is out of range or the groups do not fit. *)
Lemma write_each_groups groups : forall off buf,
  (off <= length buf)%nat ->
  write_each (map parseInt16 groups) off buf
  = match group_bytes groups with
    | Some bs =>
        if (off + length bs <=? length buf)%nat
        then Ok (take off buf ++ bs ++ drop (off + length bs) buf)%list
        else Throw RangeError
    | None => Throw RangeError
    end.
Proof.
  induction groups as [|g groups IH]; intros off buf Hoff;
    cbn [map write_each group_bytes].
  - cbn [length app]. rewrite Nat.add_0_r, take_drop.
    destruct (Nat.leb_spec off (length buf)) as [H|H]; [reflexivity|lia].
  - unfold writeUInt8, group_byte.
    set (v := match parseInt16 g with Some z => z | None => 0 end).
    assert (Hg : match parseInt16 g with
                 | Some v0 => if (0 <=? v0) && (v0 <=? 255) then Some (u8 v0) else None
                 | None => Some x00
                 end
                 = if (0 <=? v) && (v <=? 255) then Some (u8 v) else None).
    { subst v. destruct (parseInt16 g); reflexivity. }
    rewrite Hg. clear Hg.
    destruct (Z.leb_spec 0 v) as [H0|H0], (Z.leb_spec v 255) as [H255|H255];
      cbn [andb];
      try (replace ((255 <? v) || (v <? 0)) with true
             by (symmetry; apply orb_true_iff; rewrite !Z.ltb_lt; lia);
           reflexivity).
    replace ((255 <? v) || (v <? 0)) with false
      by (symmetry; apply orb_false_iff; rewrite !Z.ltb_ge; lia).
    destruct (Nat.ltb_spec off (length buf)) as [Hlt|Hge]; cbn [negb rbind].
    + rewrite IH by (rewrite length_insert; lia).
      destruct (group_bytes groups) as [bs|]; [|reflexivity].
      rewrite length_insert. cbn [length].
      replace (off + S (length bs) <=? length buf)%nat
        with (S off + length bs <=? length buf)%nat by (f_equal; lia).
      destruct (Nat.leb_spec (S off + length bs) (length buf)) as [Hfit|Hfit];
        [|reflexivity].
      f_equal.
      rewrite (take_S_r _ _ (u8 v)) by (apply list_lookup_insert_eq; lia).
      rewrite take_insert_ge by lia.
      rewrite drop_insert_lt by lia.
      rewrite <- app_assoc. cbn [app].
      replace (off + S (length bs))%nat with (S off + length bs)%nat by lia.
      reflexivity.
    + destruct (group_bytes groups) as [bs|]; [|reflexivity].
      cbn [length].
      destruct (Nat.leb_spec (off + S (length bs)) (length buf)); [lia|reflexivity].
Qed.

(** X7. What [generateDUID] makes of an address text of any form, for a
    DUID-LL: the text is cut at its colons and each group read as a
    hexadecimal number; a group that cannot be read counts as 0, groups
    that are missing up to six leave zeros; a group above ff or below 0, or
    a seventh group, ends in a [RangeError]. *)
Theorem generateDUID_LL_any_text (c : ascii) (rest : string) (r : rng) (now : Z) :
  generateDUID (Some DUID_LL) (Some (String c rest)) r now
  = match lenient_mac_bytes (String c rest) with
    | Some bs => Ok ([x00; x03; x00; x01] ++ bs)%list
    | None => Throw RangeError
    end.
Proof.
  rewrite generateDUID_LL. cbn [macAddr_of]. unfold lenient_mac_bytes.
  rewrite write_each_groups by (cbn; lia).
  destruct (group_bytes (split_colon (String c rest))) as [bs|]; [|reflexivity].
  cbn [length]. change (4 + length bs <=? 10)%nat with (length bs <=? 6)%nat.
  destruct (Nat.leb_spec (length bs) 6) as [Hfit|Hfit]; [|reflexivity].
  f_equal. cbn [take app]. do 4 f_equal.
  do 7 (destruct bs as [|? bs]; [reflexivity|]).
  cbn [length] in Hfit. lia.
Qed.

Example generateDUID_LL_lenient :
  generateDUID (Some DUID_LL) (Some "1:2:3") (fun _ => x00) 0
  = Ok [x00; x03; x00; x01; x01; x02; x03; x00; x00; x00]
  /\ generateDUID (Some DUID_LL) (Some "zz:0x1f:7fq: a") (fun _ => x00) 0
     = Ok [x00; x03; x00; x01; x00; x1f; x7f; x0a; x00; x00]
  /\ generateDUID (Some DUID_LL) (Some "aa:bb:cc:dd:ee:1ff") (fun _ => x00) 0
     = Throw RangeError
  /\ generateDUID (Some DUID_LL) (Some "aa:bb:cc:dd:ee:-1") (fun _ => x00) 0
     = Throw RangeError
  /\ generateDUID (Some DUID_LL) (Some "aa:bb:cc:dd:ee:ff:00") (fun _ => x00) 0
     = Throw RangeError
  /\ generateDUID (Some DUID_LL) (Some "aabbccddeeff") (fun _ => x00) 0
     = Throw RangeError.
Proof. repeat split; vm_compute; reflexivity. Qed.

Lemma colon_hex_six b0 b1 b2 b3 b4 b5 :
  String.length (colon_hex [b0; b1; b2; b3; b4; b5]) = 17%nat
  /\ forallb_string (fun c => is_lower_hex c || is_colon c)
       (colon_hex [b0; b1; b2; b3; b4; b5]) = true.
Proof.
  unfold colon_hex. cbn [map join].
  hex_pair b0. hex_pair b1. hex_pair b2. hex_pair b3. hex_pair b4. hex_pair b5.
  repeat (rewrite append_cons || rewrite append_nil).
  split; [reflexivity|]. cbn [forallb_string].
  repeat match goal with H : is_lower_hex _ = true |- _ => rewrite ?H; clear H end.
  reflexivity.
Qed.

Lemma random_first_bits b :
  Z.land (byte_to_Z (u8 (Z.land (Z.lor (byte_to_Z b) 2) 254))) 2 = 2
  /\ Z.land (byte_to_Z (u8 (Z.land (Z.lor (byte_to_Z b) 2) 254))) 1 = 0.
Proof. destruct b; split; reflexivity. Qed.

(** X8. [generateRandomMAC] returns, for every outcome of its six draws,
    the text of six bytes: 17 characters, lowercase hexadecimal digits in
    pairs with colons between. The first byte is the first draw with the
    locally administered bit set and the multicast bit cleared, the other
    five are the draws as they came; and [generateDUID] accepts the text. *)
Theorem generateRandomMAC_shape (r : rng) (now : Z) :
  let s := generateRandomMAC r in
  let m := random_mac_bytes r in
  s = colon_hex m
  /\ m = u8 (Z.land (Z.lor (byte_to_Z (r 0%nat)) 2) 254)
           :: [r 1%nat; r 2%nat; r 3%nat; r 4%nat; r 5%nat]
  /\ String.length s = 17%nat
  /\ forallb_string (fun c => is_lower_hex c || is_colon c) s = true
  /\ Z.land (byte_at m 0) 2 = 2
  /\ Z.land (byte_at m 0) 1 = 0
  /\ generateDUID (Some DUID_LL) (Some s) r now = Ok ([x00; x03; x00; x01] ++ m)%list.
Proof.
  cbv zeta. rewrite generateRandomMAC_text.
  split; [reflexivity|]. split; [reflexivity|].
  unfold random_mac_bytes. cbn [seq map].
  split; [apply colon_hex_six|]. split; [apply colon_hex_six|].
  split; [apply random_first_bits|]. split; [apply random_first_bits|].
  apply generateDUID_LL_text. apply mac_text_colon_hex. reflexivity.
Qed.

(** ** The store *)

(** X9. The three queries of the store never throw and agree on one path.
    They change no file and not the registry: at most the directory that
    the store prefers is created, where the process may create it; and a
    second round of queries returns the same path and changes nothing. *)
Theorem store_queries_read_only (h : host) (e e' : env) (w : world) :
  exists p w1,
    getOriginalDUIDPath h e w = (Ok p, w1)
    /\ hasOriginalDUID h e w = (Ok (exists_in w1 p), w1)
    /\ (exists o, getOriginalDUID h e w = (Ok o, w1))
    /\ files w1 = files w
    /\ registry_duid w1 = registry_duid w
    /\ dirs w ⊆ dirs w1
    /\ (forall d, d ∈ dirs w1 -> d ∉ dirs w -> system_dir h = Some d /\ writable h d = true)
    /\ getOriginalDUIDPath h e' w1 = (Ok p, w1)
    /\ hasOriginalDUID h e' w1 = (Ok (exists_in w1 p), w1)
    /\ snd (getOriginalDUID h e' w1) = w1.
Proof.
  exists (store_path h w), (after_path h w).
  rewrite !getOriginalDUIDPath_eq, !hasOriginalDUID_eq, !getOriginalDUID_eq.
  rewrite after_path_idem, store_path_after.
  split; [reflexivity|]. split; [reflexivity|]. split; [eauto|].
  split; [apply after_path_files|]. split; [apply after_path_registry|].
  split; [|split; [|repeat split]].
  - unfold after_path. destruct (system_dir h); [|reflexivity].
    destruct (_ && _); [|reflexivity]. cbn. apply union_subseteq_r.
  - intros d. unfold after_path. destruct (system_dir h) as [d0|]; [|tauto].
    destruct (negb (exists_in w d0) && writable h d0) eqn:E; [|tauto].
    cbn. rewrite elem_of_union, elem_of_singleton. intros [->|Hd] Hnot; [|tauto].
    apply andb_prop in E. tauto.
Qed.

Lemma store_queries_read_only_witness :
  hasOriginalDUID linux_host quiet_env linux_world = (Ok true, linux_world)
  /\ getOriginalDUIDPath linux_host failing_env linux_world
     = (Ok "/var/lib/spoofy/duid.original", linux_world).
Proof.
  destruct (store_queries_read_only linux_host quiet_env failing_env linux_world)
    as (p & w1 & Hpath & Hhas & _ & _ & _ & _ & _ & Hpath' & _).
  vm_compute in Hpath. injection Hpath as <- <-.
  split.
  - rewrite Hhas. vm_compute. reflexivity.
  - exact Hpath'.
Defined.

Lemma last_char_store_path h w : last_char (store_path h w) = Some "l"%char.
Proof.
  unfold store_path. destruct (os_platform h); cbv zeta.
  - reflexivity.
  - destruct (_ || _); [reflexivity|].
    apply (last_char_app (os_homedir h) "/.spoofy/duid.original"). discriminate.
  - destruct (_ || _).
    + cbn [path_join join sep]. apply (last_char_app _ "\duid.original"). discriminate.
    + apply (last_char_app _ "\spoofy\duid.original"). discriminate.
  - apply (last_char_app (os_homedir h) "/.spoofy/duid.original"). discriminate.
Qed.

Lemma last_char_system_dir h d : system_dir h = Some d -> last_char d = Some "y"%char.
Proof.
  unfold system_dir. destruct (os_platform h); try discriminate; intros [= <-].
  - reflexivity.
  - apply (last_char_app _ "\spoofy"). discriminate.
Qed.

Lemma system_dir_not_store_path h w d : system_dir h = Some d -> d <> store_path h w.
Proof.
  intros Hd ->. apply last_char_system_dir in Hd.
  rewrite last_char_store_path in Hd. discriminate.
Qed.

(** A change of the files away from the preferred directory moves neither
    the path of the store nor what the queries create. *)
Lemma store_path_set_files h w f :
  (forall d, system_dir h = Some d -> f !! d = files w !! d) ->
  store_path h (set_files f w) = store_path h w
  /\ after_path h (set_files f w) = set_files f (after_path h w).
Proof.
  intros Hf.
  assert (Hex : forall d, system_dir h = Some d ->
                  exists_in (set_files f w) d = exists_in w d).
  { intros d Hd. apply exists_in_set_files_other. symmetry. by apply Hf. }
  split.
  - unfold store_path. unfold system_dir in Hex.
    destruct (os_platform h); try reflexivity.
    + by rewrite (Hex _ eq_refl).
    + cbv zeta. by rewrite (Hex _ eq_refl).
  - unfold after_path. destruct (system_dir h) as [d|] eqn:Hd; [|reflexivity].
    rewrite (Hex d eq_refl). destruct (_ && _); reflexivity.
Qed.

(** X10. [clearOriginalDUID] forgets the original for good: where a record
    is stored and may be removed, it returns true; from then on
    [hasOriginalDUID] is false, [getOriginalDUID] returns null and a second
    [clearOriginalDUID] returns false; and the next [storeOriginalDUID]
    writes a new record, so that the store then holds the value given to
    it and no longer the first original. *)
Theorem clearOriginalDUID_rearms_store (h : host) (e e' : env) (w : world)
    (o B : list byte) :
  json_round_trip (node h) ->
  stored h w o ->
  store_path h w ∉ dirs w ->
  writable h (store_path h w) = true ->
  writable h (dirname (os_platform h) (store_path h w)) = true ->
  exists w1 w2,
    clearOriginalDUID h e w = (Ok true, w1)
    /\ hasOriginalDUID h e' w1 = (Ok false, w1)
    /\ getOriginalDUID h e' w1 = (Ok None, w1)
    /\ clearOriginalDUID h e' w1 = (Ok false, w1)
    /\ storeOriginalDUID B h e' w1 = (Ok true, w2)
    /\ stored h w2 B.
Proof.
  intros Hjson Ho Hdir Hwp Hwd.
  pose proof (stored_exists h w o Ho) as Hex.
  pose proof (getOriginalDUIDPath_eq h e w) as Hpath.
  assert (Hfile : is_Some (files (after_path h w) !! store_path h w)).
  { unfold stored, read_original in Ho. rewrite Hex in Ho.
    destruct (files (after_path h w) !! store_path h w); [eauto|discriminate]. }
  assert (Hsame : store_path h (after_path h w) = store_path h w) by apply store_path_after.
  assert (Hidem : after_path h (after_path h w) = after_path h w) by apply after_path_idem.
  assert (Hdir' : store_path h w ∉ dirs (after_path h w)).
  { unfold after_path. destruct (system_dir h) as [d|] eqn:Hd; [|exact Hdir].
    destruct (_ && _); [|exact Hdir]. cbn.
    rewrite elem_of_union, elem_of_singleton. intros [Heq|Hin]; [|tauto].
    by apply (system_dir_not_store_path h w d Hd). }
  assert (Hsys : forall d, system_dir h = Some d -> d <> store_path h w)
    by (intros d Hd; by apply system_dir_not_store_path).
  revert Hex Hpath Hfile Hsame Hidem Hdir' Hsys Hwp Hwd. clear Ho Hdir.
  generalize (store_path h w) (after_path h w). intros p w' Hex Hpath Hfile Hsame Hidem Hdir' Hsys Hwp Hwd.
  set (w1 := set_files (delete p (files w')) w').
  assert (Hdel : forall d, system_dir h = Some d -> delete p (files w') !! d = files w' !! d).
  { intros d Hd. apply lookup_delete_ne. intros Heq. by apply (Hsys d Hd). }
  assert (Hp1 : store_path h w1 = p).
  { unfold w1. rewrite (proj1 (store_path_set_files h w' _ Hdel)). exact Hsame. }
  assert (Ha1 : after_path h w1 = w1).
  { unfold w1. rewrite (proj2 (store_path_set_files h w' _ Hdel)). by rewrite Hidem. }
  assert (Hgone : exists_in w1 p = false).
  { unfold exists_in, w1. cbn [files dirs set_files].
    rewrite lookup_delete_eq. apply orb_false_iff. split.
    - apply bool_decide_eq_false. intros [? ?]. discriminate.
    - by apply bool_decide_eq_false. }
  assert (Hclear : clearOriginalDUID h e w = (Ok true, w1)).
  { unfold clearOriginalDUID. rewrite bind_eq, Hpath. mred.
    unfold existsSync. mred. rewrite Hex. mred.
    unfold unlinkSync. mred. destruct Hfile as [content Hfile]. rewrite Hfile, Hwp. mred.
    reflexivity. }
  destruct (storeOriginalDUID_fresh_stored h e' w1 B Hjson) as (w2 & Hstore & HB).
  { rewrite Ha1, Hp1. exact Hgone. }
  { rewrite Hp1. exact Hwp. }
  { rewrite Hp1. exact Hwd. }
  exists w1, w2. split; [exact Hclear|]. split; [|split; [|split; [|split]]].
  - rewrite hasOriginalDUID_eq, Ha1, Hp1, Hgone. reflexivity.
  - rewrite getOriginalDUID_eq, Ha1, Hp1. unfold read_original. rewrite Hgone. reflexivity.
  - unfold clearOriginalDUID. rewrite bind_eq, getOriginalDUIDPath_eq, Ha1, Hp1. mred.
    unfold existsSync. mred. rewrite Hgone. reflexivity.
  - exact Hstore.
  - exact HB.
Qed.

Lemma clearOriginalDUID_rearms_store_witness :
  exists w1 w2,
    clearOriginalDUID linux_host quiet_env linux_world = (Ok true, w1)
    /\ hasOriginalDUID linux_host quiet_env w1 = (Ok false, w1)
    /\ getOriginalDUID linux_host quiet_env w1 = (Ok None, w1)
    /\ clearOriginalDUID linux_host quiet_env w1 = (Ok false, w1)
    /\ storeOriginalDUID duid_B linux_host quiet_env w1 = (Ok true, w2)
    /\ stored linux_host w2 duid_B.
Proof.
  apply (clearOriginalDUID_rearms_store linux_host quiet_env quiet_env linux_world
           duid_A duid_B).
  - exact line_runtime_round_trip.
  - vm_compute. reflexivity.
  - intros H. change (dirs linux_world) with ({[ "/var/lib/spoofy" ]} : gset string) in H.
    apply elem_of_singleton in H. vm_compute in H. discriminate H.
  - reflexivity.
  - reflexivity.
Defined.

(** Where the process may read every file, the two functions of [Refused]
    are those of the store and of the macOS adapter. *)
Lemma all_readable_same :
  Refused.getOriginalDUID (fun _ => true) = getOriginalDUID
  /\ Refused.macos_getCurrentDUID (fun _ => true) = macos.getCurrentDUID.
Proof. split; reflexivity. Qed.

(** X11. What [getOriginalDUID] makes of a file at the path of the store;
    it never throws. A file that the process may read is never lost: the
    result is the [duid] member decoded as hexadecimal text where the
    content parses as a record, and the content itself, byte for byte,
    where it does not (the legacy format). For a file that the process may
    not read both reads throw, and the result is null, as if nothing were
    stored. *)
Theorem getOriginalDUID_file_outcome (readable : string -> bool) (h : host) (e : env)
    (w : world) (p : string) (w1 : world) (content : list byte) :
  getOriginalDUIDPath h e w = (Ok p, w1) ->
  files w !! p = Some content ->
  Refused.getOriginalDUID readable h e w
  = (Ok (if readable p
         then Some match JSON_parse_duid (node h) content with
                   | Some (inl text) => Buffer_from_hex text
                   | Some (inr bytes) => bytes
                   | None => content
                   end
         else None), w1).
Proof.
  intros Hpath Hfile. unfold Refused.getOriginalDUID.
  rewrite (bind_ok _ _ _ _ _ _ _ Hpath).
  rewrite getOriginalDUIDPath_eq in Hpath. injection Hpath as <- <-.
  unfold existsSync. mred. unfold exists_in.
  rewrite after_path_files, Hfile, bool_decide_eq_true_2 by eauto. cbn [orb]. mred.
  unfold try_catch, Refused.readFileSync. mred. rewrite after_path_files, Hfile.
  destruct (readable (store_path h w)); mred.
  - destruct (JSON_parse_duid (node h) content) as [[text|bytes]|]; mred;
      rewrite ?after_path_files, ?Hfile; reflexivity.
  - rewrite after_path_files, Hfile. reflexivity.
Qed.

Lemma getOriginalDUID_file_outcome_witness :
  let w := {| files := {[ "/var/db/dhcpclient/DUID.original" := duid_A ]};
              dirs := ∅; registry_duid := None |} in
  Refused.getOriginalDUID (fun _ => true) mac_host quiet_env w = (Ok (Some duid_A), w)
  /\ Refused.getOriginalDUID (fun _ => false) mac_host quiet_env w = (Ok None, w).
Proof.
  split.
  - apply (getOriginalDUID_file_outcome (fun _ => true) mac_host quiet_env
             {| files := {[ "/var/db/dhcpclient/DUID.original" := duid_A ]};
                dirs := ∅; registry_duid := None |}
             "/var/db/dhcpclient/DUID.original" _ duid_A).
    + reflexivity.
    + vm_compute. reflexivity.
  - apply (getOriginalDUID_file_outcome (fun _ => false) mac_host quiet_env
             {| files := {[ "/var/db/dhcpclient/DUID.original" := duid_A ]};
                dirs := ∅; registry_duid := None |}
             "/var/db/dhcpclient/DUID.original" _ duid_A).
    + reflexivity.
    + vm_compute. reflexivity.
Defined.

(** ** The adapters *)

(** A command other than the registry query and deletion. *)
Lemma execSync_plain (c : command) h e w :
  c <> reg_query -> c <> reg_delete ->
  execSync c h e w
  = if exec_ok e c then (Ok (exec_out e c), command_effect c w)
    else (Throw (Error "Command failed"), w).
Proof.
  intros H1 H2. unfold execSync. destruct (exec_ok e c); cbn [negb]; [|reflexivity].
  destruct c; try congruence; destruct (registry_duid w); reflexivity.
Qed.

Lemma detectDHCPClient_eq h e w : linux.detectDHCPClient h e w = (Ok (detected e), w).
Proof.
  unfold linux.detectDHCPClient, detected, try_catch. mred.
  rewrite execSync_plain by discriminate. cbn [command_effect].
  destruct (exec_ok e systemctl_is_active_networkd); mred; [reflexivity|].
  rewrite execSync_plain by discriminate. cbn [command_effect].
  destruct (exec_ok e pgrep_dhclient); mred; [reflexivity|].
  rewrite execSync_plain by discriminate. cbn [command_effect].
  destruct (exec_ok e pgrep_NetworkManager); mred; reflexivity.
Qed.

Lemma linux_getCurrentDUID_pure h e w :
  exists c, linux.getCurrentDUID h e w = (Ok c, w)
    /\ (detected e = linux.unknown -> c = None).
Proof.
  unfold linux.getCurrentDUID. rewrite bind_eq, detectDHCPClient_eq. mred.
  destruct (detected e); unfold try_catch; mred.
  - rewrite execSync_plain by discriminate. cbn [command_effect].
    destruct (exec_ok e networkctl_status_duid); mred; [|eexists; split; [reflexivity|discriminate]].
    destruct (match_networkctl_duid _ _); mred; eexists; (split; [reflexivity|discriminate]).
  - unfold existsSync, readFileSync. mred.
    destruct (exists_in w linux.DHCLIENT_CONF); mred;
      [|eexists; split; [reflexivity|discriminate]].
    destruct (files w !! linux.DHCLIENT_CONF); mred;
      [|eexists; split; [reflexivity|discriminate]].
    destruct (match_client_id _ _); mred; eexists; (split; [reflexivity|discriminate]).
  - rewrite execSync_plain by discriminate. cbn [command_effect].
    destruct (exec_ok e nmcli_show_duid); mred; [|eexists; split; [reflexivity|discriminate]].
    destruct (truthy _); mred; eexists; (split; [reflexivity|discriminate]).
  - eexists. split; reflexivity.
Qed.

Lemma macos_getCurrentDUID_file h e w content :
  files w !! macos.DUID_PATH = Some content ->
  macos.getCurrentDUID h e w = (Ok (Some content), w).
Proof.
  intros Hf. unfold macos.getCurrentDUID, try_catch, existsSync, readFileSync. mred.
  unfold exists_in. rewrite Hf, bool_decide_eq_true_2 by eauto. cbn [orb]. mred.
  rewrite Hf. reflexivity.
Qed.

(** [macos.getCurrentDUID] where the DUID file is there: its content when
    the process may read it, null when it may not. *)
Lemma Refused_macos_getCurrentDUID_file readable h e w content :
  files w !! macos.DUID_PATH = Some content ->
  Refused.macos_getCurrentDUID readable h e w
  = (Ok (if readable macos.DUID_PATH then Some content else None), w).
Proof.
  intros Hf. unfold Refused.macos_getCurrentDUID, try_catch, existsSync,
    Refused.readFileSync. mred.
  unfold exists_in. rewrite Hf, bool_decide_eq_true_2 by eauto. cbn [orb]. mred.
  rewrite Hf. destruct (readable macos.DUID_PATH); reflexivity.
Qed.

Lemma Refused_macos_getCurrentDUID_pure readable h e w :
  exists c, Refused.macos_getCurrentDUID readable h e w = (Ok c, w).
Proof.
  destruct (files w !! macos.DUID_PATH) as [content|] eqn:Hf.
  - rewrite (Refused_macos_getCurrentDUID_file readable h e w content Hf). eauto.
  - unfold Refused.macos_getCurrentDUID, try_catch, existsSync, Refused.readFileSync. mred.
    destruct (exists_in w macos.DUID_PATH); mred.
    + rewrite Hf. eauto.
    + unfold execSync. destruct (exec_ok e defaults_read_DUID); cbn [negb]; mred.
      * cbn [command_effect]. destruct (registry_duid w); mred;
          destruct (truthy _); mred; eauto.
      * eauto.
Qed.

(** X12. Reading the active DUID changes nothing and never throws, on each
    of the three platforms. On macOS, where the DUID file exists, its
    content is returned when the process may read it, an empty file
    included, and null when it may not: the error of the read is caught. On
    Windows the result is null or the registry value; on Linux it is null
    where no DHCP client is detected. *)
Theorem getCurrentDUID_read_only (readable : string -> bool) (h : host) (e : env)
    (w : world) :
  (exists c, Refused.macos_getCurrentDUID readable h e w = (Ok c, w)
     /\ forall content, files w !! macos.DUID_PATH = Some content ->
          c = if readable macos.DUID_PATH then Some content else None)
  /\ (exists c, linux.getCurrentDUID h e w = (Ok c, w)
        /\ (detected e = linux.unknown -> c = None))
  /\ (exists c, windows.getCurrentDUID h e w = (Ok c, w)
        /\ (c = None \/ c = registry_duid w)).
Proof.
  split; [|split].
  - destruct (Refused_macos_getCurrentDUID_pure readable h e w) as [c Hc].
    exists c. split; [exact Hc|].
    intros content Hf.
    rewrite (Refused_macos_getCurrentDUID_file readable h e w content Hf) in Hc.
    by injection Hc.
  - apply linux_getCurrentDUID_pure.
  - unfold windows.getCurrentDUID, try_catch, execSync. mred.
    destruct (exec_ok e reg_query); cbn [negb]; mred; [|eauto].
    destruct (registry_duid w) as [data|]; mred; [|eauto].
    destruct (truthy _); mred; [|eauto].
    eexists. split; [reflexivity|]. right. change (toUpperCase (Buffer_toString_hex data))
      with (duidToHex data). by rewrite hex_roundtrip.
Qed.

Lemma getCurrentDUID_read_only_witness :
  Refused.macos_getCurrentDUID (fun _ => true) mac_host failing_env mac_world
  = (Ok (Some duid_A), mac_world)
  /\ Refused.macos_getCurrentDUID (fun _ => false) mac_host failing_env mac_world
     = (Ok None, mac_world).
Proof.
  split.
  - destruct (getCurrentDUID_read_only (fun _ => true) mac_host failing_env mac_world)
      as ((c & Hc & Hfile) & _).
    rewrite (Hfile duid_A eq_refl) in Hc. exact Hc.
  - destruct (getCurrentDUID_read_only (fun _ => false) mac_host failing_env mac_world)
      as ((c & Hc & Hfile) & _).
    rewrite (Hfile duid_A eq_refl) in Hc. exact Hc.
Defined.

Lemma off_store_refl h w : off_store h w w.
Proof. split; auto. Qed.

Lemma off_store_trans h w1 w2 w3 :
  off_store h w1 w2 -> off_store h w2 w3 -> off_store h w1 w3.
Proof.
  intros [Hf1 Hr1] [Hf2 Hr2]. split; [|congruence].
  intros q Hq. rewrite Hf2, Hf1; auto.
Qed.

Lemma off_store_after_path h w : off_store h w (after_path h w).
Proof. split; [by rewrite after_path_files|apply after_path_registry]. Qed.

(** The backup writes at the path of the store and nowhere else. *)
Lemma off_store_storeOriginalDUID c : keeps off_store (storeOriginalDUID c).
Proof.
  intros h e w. unfold storeOriginalDUID. rewrite bind_eq, getOriginalDUIDPath_eq. mred.
  pose proof (off_store_after_path h w) as H0. pose proof (store_path_in h w) as Hin.
  revert H0 Hin. generalize (store_path h w) (after_path h w). intros p w' H0 Hin.
  assert (Hwrite : forall v content,
            off_store h w v ->
            off_store h w (snd (writeFileSync p content h e v))).
  { intros v content Hv. unfold writeFileSync. mred.
    destruct (writable h p); mred; [|exact Hv].
    cbn [snd]. apply (off_store_trans _ _ v); [exact Hv|].
    split; [|reflexivity]. intros q Hq. cbn.
    apply lookup_insert_ne. intros <-. contradiction. }
  unfold existsSync. mred. destruct (exists_in w' p); mred; [exact H0|].
  unfold when, mkdirSync. destruct (exists_in w' _); mred.
  - specialize (Hwrite w' (JSON_stringify (node h)
      {| duid := Buffer_toString_hex c; storedAt := now_iso e;
         platform := platform_string (os_platform h); hostname := os_hostname h |}) H0).
    destruct (writeFileSync p _ h e w') as [[[]|x] v]; exact Hwrite.
  - destruct (writable h _); mred; [|exact H0].
    set (v := set_dirs _ w').
    assert (Hv : off_store h w v) by (split; [apply H0|apply H0]).
    specialize (Hwrite v (JSON_stringify (node h)
      {| duid := Buffer_toString_hex c; storedAt := now_iso e;
         platform := platform_string (os_platform h); hostname := os_hostname h |}) Hv).
    destruct (writeFileSync p _ h e v) as [[[]|x] v']; exact Hwrite.
Qed.

Lemma off_store_backup (current : M (option (list byte))) :
  (forall h e w, exists c, current h e w = (Ok c, w)) ->
  keeps off_store
    (c ← current;
     match c : option (list byte) with
     | Some c => _ ← storeOriginalDUID c; mret true
     | None => mret false
     end).
Proof.
  intros Hpure h e w. rewrite bind_eq. destruct (Hpure h e w) as [[c|] ->]; mred.
  - pose proof (off_store_storeOriginalDUID c h e w) as H.
    destruct (storeOriginalDUID c h e w) as [[b|x] w1]; exact H.
  - apply off_store_refl.
Qed.

Lemma off_store_windows_backup : keeps off_store windows.backupOriginal.
Proof. apply off_store_backup, windows_getCurrentDUID_pure. Qed.

Lemma off_store_macos_backup : keeps off_store macos.backupOriginal.
Proof. apply off_store_backup, macos_getCurrentDUID_pure. Qed.

Lemma off_store_linux_backup : keeps off_store linux.backupOriginal.
Proof.
  apply off_store_backup. intros h e w.
  destruct (linux_getCurrentDUID_pure h e w) as (c & Hc & _). eauto.
Qed.

(** X13. What [windows.setDUID] leaves: it returns true with the DUID as
    the registry value, [reg add] having succeeded; or it throws, and then
    the registry value is what it was. Either way no file outside the
    store has changed. *)
Theorem windows_setDUID_outcome (d : list byte) (iface : option string)
    (h : host) (e : env) (w : world) :
  exists r w1,
    windows.setDUID d iface h e w = (r, w1)
    /\ (forall q, q ∉ store_paths h -> files w1 !! q = files w !! q)
    /\ ((r = Ok true /\ registry_duid w1 = Some d
         /\ exec_ok e (reg_add (duidToHex d)) = true)
        \/ (exists err, r = Throw err /\ registry_duid w1 = registry_duid w)).
Proof.
  unfold windows.setDUID. rewrite bind_eq.
  pose proof (off_store_windows_backup h e w) as [Hf Hr].
  destruct (windows.backupOriginal h e w) as [[b|x] w0]; cbn [snd] in Hf, Hr.
  - rewrite (windows_write_tail d _ true iface h e w0).
    change (toUpperCase (Buffer_toString_hex d)) with (duidToHex d).
    destruct (exec_ok e (reg_add (duidToHex d))).
    + eexists _, _. split; [reflexivity|]. split; [exact Hf|]. left. auto.
    + eexists _, _. split; [reflexivity|]. split; [exact Hf|]. right. eauto.
  - eexists _, _. split; [reflexivity|]. split; [exact Hf|]. right. eauto.
Qed.

Lemma windows_setDUID_outcome_witness :
  exists w1,
    windows.setDUID duid_B None windows_host quiet_env windows_world = (Ok true, w1)
    /\ registry_duid w1 = Some duid_B.
Proof.
  destruct (windows_setDUID_outcome duid_B None windows_host quiet_env windows_world)
    as (r & w1 & Hrun & _ & [(-> & Hreg & _) | (err & -> & _)]).
  - exists w1. split; [exact Hrun|exact Hreg].
  - vm_compute in Hrun. discriminate.
Defined.

Lemma macos_toggle_v6_world cmd iface h e w :
  (forall name, command_effect (cmd name) w = w) ->
  (forall name, cmd name <> reg_query /\ cmd name <> reg_delete) ->
  snd (macos.toggle_v6 cmd iface h e w) = w.
Proof.
  intros H1 H2. destruct (macos_toggle_v6_eq cmd iface h e w H1 H2) as (r & -> & _).
  reflexivity.
Qed.

Lemma macos_setDUID_writes (d : list byte) (iface : option string)
    (h : host) (e : env) (w w1 : world) (b : bool) :
  macos.setDUID d iface h e w = (Ok b, w1) ->
  b = true /\ files w1 !! macos.DUID_PATH = Some d.
Proof.
  unfold macos.setDUID. rewrite bind_eq.
  destruct (macos.backupOriginal h e w) as [[b0|x] w0]; [|discriminate].
  rewrite bind_eq.
  destruct (macos_toggle_v6_eq networksetup_setv6off iface h e w0)
    as (r1 & -> & _); [reflexivity|split; discriminate|].
  destruct r1 as [[]|x]; [|discriminate].
  rewrite bind_eq. destruct (macos_clear_returns rm_DUID_glob h e w0) as [w2 ->].
  mred. unfold existsSync, when, mkdirSync, writeFileSync. mred.
  destruct (exists_in w2 _); mred.
  - destruct (writable h macos.DUID_PATH); mred; [|discriminate].
    set (w3 := set_files _ w2).
    destruct (macos_toggle_v6_eq networksetup_setv6automatic iface h e w3)
      as (r2 & -> & _); [reflexivity|split; discriminate|].
    destruct r2 as [[]|x]; mred; [|discriminate].
    intros [= <- <-]. split; [reflexivity|apply lookup_insert_eq].
  - destruct (writable h (dirname _ _)); mred; [|discriminate].
    destruct (writable h macos.DUID_PATH); mred; [|discriminate].
    set (w3 := set_files _ _).
    destruct (macos_toggle_v6_eq networksetup_setv6automatic iface h e w3)
      as (r2 & -> & _); [reflexivity|split; discriminate|].
    destruct r2 as [[]|x]; mred; [|discriminate].
    intros [= <- <-]. split; [reflexivity|apply lookup_insert_eq].
Qed.

(** X14. On macOS a [setDUID] that returns has installed the DUID: the
    DUID file holds exactly the bytes given, and [getCurrentDUID] reads
    them back, an empty buffer included. *)
Theorem macos_setDUID_then_getCurrentDUID (d : list byte) (iface : option string)
    (h : host) (e e' : env) (w w1 : world) (b : bool) :
  macos.setDUID d iface h e w = (Ok b, w1) ->
  b = true
  /\ files w1 !! macos.DUID_PATH = Some d
  /\ macos.getCurrentDUID h e' w1 = (Ok (Some d), w1).
Proof.
  intros Hset. destruct (macos_setDUID_writes d iface h e w w1 b Hset) as [Hb Hfile].
  split; [exact Hb|]. split; [exact Hfile|]. by apply macos_getCurrentDUID_file.
Qed.

Lemma macos_setDUID_then_getCurrentDUID_witness :
  let w1 := snd (macos.setDUID duid_B (Some "en0") mac_host quiet_env mac_world) in
  files w1 !! macos.DUID_PATH = Some duid_B
  /\ macos.getCurrentDUID mac_host quiet_env w1 = (Ok (Some duid_B), w1).
Proof.
  apply (macos_setDUID_then_getCurrentDUID duid_B (Some "en0") mac_host quiet_env quiet_env
           mac_world _ true).
  vm_compute. reflexivity.
Defined.

Lemma macos_toggle_v6_quiet_eq cmd iface h e w :
  (forall name, command_effect (cmd name) w = w) ->
  (forall name, cmd name <> reg_query /\ cmd name <> reg_delete) ->
  macos.toggle_v6_quiet cmd iface h e w = (Ok tt, w).
Proof.
  intros Heff Hcmd. unfold macos.toggle_v6_quiet.
  destruct iface as [[|c rest]|]; try reflexivity.
  unfold macos.getHardwarePort, try_catch. mred.
  rewrite execSync_plain by apply Hcmd. rewrite Heff.
  destruct (exec_ok e _); reflexivity.
Qed.

Lemma windows_reg_delete_quiet h e w :
  exists w1,
    try_catch (_ ← execSync reg_delete; mret tt) (mret tt) h e w = (Ok tt, w1)
    /\ registry_duid w1 = (if exec_ok e reg_delete then None else registry_duid w)
    /\ files w1 = files w /\ dirs w1 = dirs w.
Proof.
  unfold try_catch, execSync. mred.
  destruct (exec_ok e reg_delete); cbn [negb]; mred.
  - destruct (registry_duid w) eqn:Hr; mred; eexists; (split; [reflexivity|]);
      repeat split; auto.
  - eexists. split; [reflexivity|]. repeat split; reflexivity.
Qed.

Lemma windows_netsh_quiet name h e w :
  try_catch
    (execSync (netsh_ipv6 name false);; execSync (netsh_ipv6 name true);; mret tt)
    (mret tt) h e w
  = (Ok tt, w).
Proof.
  unfold try_catch. mred. rewrite execSync_plain by discriminate.
  destruct (exec_ok e (netsh_ipv6 name false)); mred; [|reflexivity].
  rewrite execSync_plain by discriminate.
  destruct (exec_ok e (netsh_ipv6 name true)); mred; reflexivity.
Qed.

(** X15. [resetDUID] never throws on macOS and on Windows, whatever the
    commands do: it returns true. On macOS the DUID file is gone when [rm]
    has succeeded and every other file is as it was; on Windows the
    registry value is gone when [reg delete] has succeeded and no file has
    changed. *)
Theorem resetDUID_always_returns (iface : option string) (h : host) (e : env) (w : world) :
  (exists w1,
     macos.resetDUID iface h e w = (Ok true, w1)
     /\ files w1 !! macos.DUID_PATH
        = (if exec_ok e rm_DUID then None else files w !! macos.DUID_PATH)
     /\ (forall q, q <> macos.DUID_PATH -> files w1 !! q = files w !! q)
     /\ dirs w1 = dirs w /\ registry_duid w1 = registry_duid w)
  /\ (exists w1,
        windows.resetDUID iface h e w = (Ok true, w1)
        /\ registry_duid w1 = (if exec_ok e reg_delete then None else registry_duid w)
        /\ files w1 = files w /\ dirs w1 = dirs w).
Proof.
  split.
  - unfold macos.resetDUID. mred.
    rewrite macos_toggle_v6_quiet_eq by (reflexivity || (split; discriminate)).
    unfold try_catch. mred. rewrite execSync_plain by discriminate.
    destruct (exec_ok e rm_DUID); mred;
      rewrite macos_toggle_v6_quiet_eq by (reflexivity || (split; discriminate));
      eexists; (split; [reflexivity|]).
    + cbn. split; [apply lookup_delete_eq|]. split; [|split; reflexivity].
      intros q Hq. apply lookup_delete_ne. intros Heq. apply Hq. symmetry. exact Heq.
    + repeat split; reflexivity.
  - unfold windows.resetDUID. rewrite bind_eq.
    destruct (windows_reg_delete_quiet h e w) as (w1 & -> & Hr & Hf & Hd).
    exists w1. split; [|auto].
    destruct iface as [[|c rest]|]; try reflexivity.
    rewrite bind_eq, windows_netsh_quiet. reflexivity.
Qed.

Lemma resetDUID_always_returns_witness :
  exists w1,
    macos.resetDUID (Some "en0") mac_host quiet_env mac_world = (Ok true, w1)
    /\ files w1 !! macos.DUID_PATH = None.
Proof.
  destruct (resetDUID_always_returns (Some "en0") mac_host quiet_env mac_world)
    as ((w1 & Hrun & Hfile & _) & _).
  exists w1. split; [exact Hrun|exact Hfile].
Defined.

(** *** What the steps of [macos.restoreDUID] leave of the record *)

Lemma path_kept_refl q h w : path_kept q h w w.
Proof. split; reflexivity. Qed.

Lemma path_kept_trans q h w1 w2 w3 :
  path_kept q h w1 w2 -> path_kept q h w2 w3 -> path_kept q h w1 w3.
Proof. intros [Hf1 Hd1] [Hf2 Hd2]. split; [congruence|by rewrite Hd2]. Qed.

Lemma path_kept_execSync c :
  c <> rm_DUID_glob -> keeps (path_kept DUID_ORIGINAL) (execSync c).
Proof.
  intros Hc h e w. unfold execSync.
  destruct (exec_ok e c); cbn [negb]; [|apply path_kept_refl].
  destruct c; try congruence; destruct (registry_duid w);
    try apply path_kept_refl; cbn [snd command_effect];
    try (split; reflexivity).
  - split; [|reflexivity]. cbn. apply lookup_delete_ne. discriminate.
  - split; [|reflexivity]. cbn. apply lookup_delete_ne. discriminate.
  - split; cbn.
    + rewrite map_lookup_filter. destruct (files w !! DUID_ORIGINAL); reflexivity.
    + rewrite elem_of_filter. split; [tauto|]. intros H. split; [reflexivity|exact H].
  - split; cbn.
    + rewrite map_lookup_filter. destruct (files w !! DUID_ORIGINAL); reflexivity.
    + rewrite elem_of_filter. split; [tauto|]. intros H. split; [reflexivity|exact H].
Qed.

Lemma path_kept_writeFileSync q p content :
  p <> q -> keeps (path_kept q) (writeFileSync p content).
Proof.
  intros Hp h e w. unfold writeFileSync. mred.
  destruct (writable h p); mred; [|apply path_kept_refl].
  split; [|reflexivity]. cbn. by apply lookup_insert_ne.
Qed.

Lemma path_kept_getHardwarePort q device : keeps (path_kept q) (macos.getHardwarePort device).
Proof. intros h e w. apply path_kept_refl. Qed.

Ltac path_kept q :=
  repeat keeps_step (path_kept_refl q) (path_kept_trans q)
    ltac:(first [ apply path_kept_execSync; discriminate
                | apply path_kept_writeFileSync; discriminate
                | apply path_kept_getHardwarePort ]).

Lemma path_kept_restore_tail iface original :
  keeps (path_kept DUID_ORIGINAL)
    (macos.toggle_v6 networksetup_setv6off iface;;
     try_catch (execSync rm_DUID;; execSync rm_leases;; mret tt) (mret tt);;
     writeFileSync macos.DUID_PATH original;;
     macos.toggle_v6 networksetup_setv6automatic iface;;
     mret Restored).
Proof. unfold macos.toggle_v6. path_kept DUID_ORIGINAL. Qed.

Lemma darwin_store h w :
  os_platform h = Darwin -> store_path h w = DUID_ORIGINAL /\ after_path h w = w.
Proof.
  intros Hp. unfold store_path, after_path, system_dir. rewrite Hp. split; reflexivity.
Qed.

Lemma read_original_kept h w w1 q :
  path_kept q h w w1 -> read_original h w1 q = read_original h w q.
Proof.
  intros [Hf Hd]. unfold read_original, exists_in. rewrite Hf.
  replace (bool_decide (q ∈ dirs w1)) with (bool_decide (q ∈ dirs w))
    by (apply bool_decide_ext; by rewrite Hd).
  reflexivity.
Qed.

(** X16. On macOS a restore can be repeated: after a [restoreDUID] that
    returned true the record of the original is still in the store and the
    DUID file holds the original, so that the next [restoreDUID], for any
    interface and whatever the commands do, returns 'not_spoofed' and
    changes nothing. *)
Theorem macos_restoreDUID_repeatable (iface iface' : option string) (h : host)
    (e e' : env) (w w1 : world) :
  os_platform h = Darwin ->
  API.restoreDUID iface h e w = (Ok Restored, w1) ->
  (exists o, fst (getOriginalDUID h e' w1) = Ok (Some o)
     /\ fst (getOriginalDUID h e w) = Ok (Some o)
     /\ files w1 !! macos.DUID_PATH = Some o)
  /\ API.restoreDUID iface' h e' w1 = (Ok NotSpoofed, w1).
Proof.
  intros Hp. destruct (darwin_store h w Hp) as [Hsp Hap].
  destruct (darwin_store h w1 Hp) as [Hsp1 Hap1].
  unfold API.restoreDUID, API.getPlatformImpl. mred. rewrite Hp. mred.
  cbn [restoreDUID macos_impl]. unfold macos.restoreDUID at 1.
  rewrite bind_eq, getOriginalDUID_eq, Hsp, Hap.
  destruct (read_original h w DUID_ORIGINAL) as [o|] eqn:Ho; mred; [|discriminate].
  destruct (macos_getCurrentDUID_pure h e w) as [c ->]. mred.
  rewrite same_as_original.
  destruct (bool_decide (c = Some o)); [cbn [mret M_ret]; discriminate|].
  pose proof (path_kept_restore_tail iface o h e w) as Hkept.
  destruct (macos_restore_tail iface o h e w) as [[(w1' & Htail & Hfile)|(err & w1' & Htail)] _];
    cbv zeta in Htail; rewrite Htail in Hkept |- *; [|discriminate].
  intros [= <-]. cbn [snd] in Hkept.
  assert (Ho1 : read_original h w1' DUID_ORIGINAL = Some o)
    by (rewrite (read_original_kept h w w1' _ Hkept); exact Ho).
  split.
  - refine (ex_intro _ o _). rewrite getOriginalDUID_eq, Hsp1, Hap1, Ho1. auto.
  - unfold macos.restoreDUID. rewrite bind_eq, getOriginalDUID_eq, Hsp1, Hap1, Ho1. mred.
    rewrite (macos_getCurrentDUID_file h e' w1' o Hfile). mred.
    unfold Buffer_equals. rewrite bool_decide_eq_true_2 by reflexivity. reflexivity.
Qed.

Lemma macos_restoreDUID_repeatable_witness :
  let w1 := snd (API.restoreDUID None mac_host quiet_env spoofed_mac_world) in
  API.restoreDUID (Some "en0") mac_host failing_env w1 = (Ok NotSpoofed, w1).
Proof.
  apply (macos_restoreDUID_repeatable None (Some "en0") mac_host quiet_env failing_env
           spoofed_mac_world).
  - reflexivity.
  - vm_compute. reflexivity.
Defined.

(** *** Windows: set, then restore *)

Lemma windows_getCurrentDUID_eq h e w :
  exec_ok e reg_query = true ->
  windows.getCurrentDUID h e w
  = (Ok match registry_duid w with
        | Some (b :: rest) => Some (b :: rest)
        | _ => None
        end, w).
Proof.
  intros Hq. unfold windows.getCurrentDUID, try_catch, execSync. mred.
  rewrite Hq. cbn [negb]. destruct (registry_duid w) as [[|b rest]|]; mred; try reflexivity.
  change (toUpperCase (Buffer_toString_hex (b :: rest))) with (duidToHex (b :: rest)).
  rewrite hex_roundtrip. reflexivity.
Qed.

Lemma stored_set_registry h w r o : stored h (set_registry_duid r w) o <-> stored h w o.
Proof.
  assert (Hex : forall q, exists_in (set_registry_duid r w) q = exists_in w q) by reflexivity.
  assert (Hsp : store_path h (set_registry_duid r w) = store_path h w).
  { unfold store_path. destruct (os_platform h); try reflexivity. }
  assert (Hap : forall q, exists_in (after_path h (set_registry_duid r w)) q
                          = exists_in (after_path h w) q
                /\ files (after_path h (set_registry_duid r w)) = files (after_path h w)).
  { intros q. unfold after_path. destruct (system_dir h); [|split; reflexivity].
    rewrite Hex. destruct (_ && _); split; reflexivity. }
  unfold stored, read_original. rewrite Hsp.
  destruct (Hap (store_path h w)) as [-> ->]. reflexivity.
Qed.

Lemma API_windows h :
  os_platform h = Win32 ->
  (forall d iface e w, API.setDUID (inl d) iface h e w = windows.setDUID d iface h e w)
  /\ (forall iface e w, API.restoreDUID iface h e w = windows.restoreDUID iface h e w).
Proof.
  intros Hp. split; intros; unfold API.setDUID, API.restoreDUID, API.getPlatformImpl;
    mred; rewrite Hp; reflexivity.
Qed.

(** X17. On Windows, set and restore compose to the identity on the active
    DUID. Where the registry holds a DUID [c], no original is stored yet and
    the store may be written, a [setDUID d] whose [reg add] succeeds
    returns true, leaves [d] in the registry and [c] in the store; the
    [restoreDUID] that follows brings [c] back into the registry and returns
    true, or 'not_spoofed' when [d] was [c] itself. *)
Theorem windows_set_then_restore (h : host) (e1 e2 : env) (w : world)
    (c d : list byte) (iface iface' : option string) :
  os_platform h = Win32 ->
  json_round_trip (node h) ->
  registry_duid w = Some c -> c <> [] ->
  fst (hasOriginalDUID h e1 w) = Ok false ->
  writable h (store_path h w) = true ->
  writable h (dirname (os_platform h) (store_path h w)) = true ->
  exec_ok e1 reg_query = true ->
  exec_ok e1 (reg_add (duidToHex d)) = true ->
  exec_ok e2 reg_query = true ->
  exec_ok e2 (reg_add (duidToHex c)) = true ->
  exists w1 w2,
    API.setDUID (inl d) iface h e1 w = (Ok true, w1)
    /\ registry_duid w1 = Some d
    /\ stored h w1 c
    /\ API.restoreDUID iface' h e2 w1
       = (Ok (if bool_decide (d = c) then NotSpoofed else Restored), w2)
    /\ registry_duid w2 = Some c
    /\ stored h w2 c.
Proof.
  intros Hp Hjson Hreg Hc Hhas Hwp Hwd Hq1 Hadd1 Hq2 Hadd2.
  destruct (API_windows h Hp) as [Hset Hrestore]. rewrite Hset.
  rewrite hasOriginalDUID_eq in Hhas. injection Hhas as Hhas.
  destruct (storeOriginalDUID_fresh_stored h e1 w c Hjson Hhas Hwp Hwd)
    as (w0 & Hstore & Hstored).
  pose proof (off_store_storeOriginalDUID c h e1 w) as [_ Hr0].
  rewrite Hstore in Hr0. cbn [snd] in Hr0.
  assert (Hbackup : windows.backupOriginal h e1 w = (Ok true, w0)).
  { unfold windows.backupOriginal. rewrite bind_eq, windows_getCurrentDUID_eq, Hreg by exact Hq1.
    destruct c as [|b rest]; [contradiction|]. mred. rewrite Hstore. reflexivity. }
  set (w1 := set_registry_duid (Some d) w0).
  assert (Hrun : windows.setDUID d iface h e1 w = (Ok true, w1)).
  { unfold windows.setDUID. rewrite bind_eq, Hbackup.
    rewrite (windows_write_tail d _ true iface h e1 w0).
    change (toUpperCase (Buffer_toString_hex d)) with (duidToHex d). by rewrite Hadd1. }
  assert (Hstored1 : stored h w1 c) by (by apply stored_set_registry).
  set (w1' := after_path h w1).
  assert (Hreg1 : registry_duid w1' = Some d) by (unfold w1'; by rewrite after_path_registry).
  assert (Hstored1' : stored h w1' c) by (by apply stored_after_path).
  exists w1.
  exists (if bool_decide (d = c) then w1' else set_registry_duid (Some c) w1').
  split; [exact Hrun|]. split; [reflexivity|]. split; [exact Hstored1|].
  rewrite Hrestore. unfold windows.restoreDUID.
  rewrite bind_eq, getOriginalDUID_eq. fold w1'.
  unfold stored in Hstored1. fold w1' in Hstored1. rewrite Hstored1. mred.
  rewrite windows_getCurrentDUID_eq, Hreg1 by exact Hq2. mred.
  assert (Hsame : match match d with b :: rest => Some (b :: rest) | [] => None end with
                  | Some c0 => Buffer_equals c0 c
                  | None => false
                  end = bool_decide (d = c)).
  { destruct d as [|b rest].
    - symmetry. apply bool_decide_eq_false. congruence.
    - reflexivity. }
  rewrite Hsame. destruct (bool_decide (d = c)) eqn:Hdc.
  - apply bool_decide_eq_true in Hdc. subst d.
    split; [reflexivity|]. split; [exact Hreg1|exact Hstored1'].
  - rewrite (windows_write_tail c _ Restored iface' h e2 w1').
    change (toUpperCase (Buffer_toString_hex c)) with (duidToHex c). rewrite Hadd2.
    split; [reflexivity|]. split; [reflexivity|]. by apply stored_set_registry.
Qed.

Lemma windows_set_then_restore_witness :
  exists w1 w2,
    API.setDUID (inl duid_B) (Some "Ethernet") windows_host quiet_env windows_world
    = (Ok true, w1)
    /\ registry_duid w1 = Some duid_B
    /\ stored windows_host w1 duid_A
    /\ API.restoreDUID None windows_host quiet_env w1 = (Ok Restored, w2)
    /\ registry_duid w2 = Some duid_A
    /\ stored windows_host w2 duid_A.
Proof.
  apply (windows_set_then_restore windows_host quiet_env quiet_env windows_world
           duid_A duid_B (Some "Ethernet") None);
    try reflexivity.
  - exact line_runtime_round_trip.
  - discriminate.
Defined.

(** *** Linux *)

Lemma detected_unknown e :
  exec_ok e systemctl_is_active_networkd = false ->
  exec_ok e pgrep_dhclient = false ->
  exec_ok e pgrep_NetworkManager = false ->
  detected e = linux.unknown.
Proof. intros H1 H2 H3. unfold detected. by rewrite H1, H2, H3. Qed.

Lemma linux_getCurrentDUID_unknown h e w :
  detected e = linux.unknown -> linux.getCurrentDUID h e w = (Ok None, w).
Proof.
  intros Hd. destruct (linux_getCurrentDUID_pure h e w) as (c & -> & Hc).
  by rewrite (Hc Hd).
Qed.

(** X18. Linux with no DHCP client detected (none of the three probing
    commands succeeds): [getCurrentDUID] returns null; [setDUID] throws and
    has changed nothing, with the message that no client could be detected,
    or with a [TypeError] for an empty DUID; [resetDUID] returns true and
    has changed nothing; and [restoreDUID], where a non-empty original is
    stored, returns true although no file and no setting has changed. *)
Theorem linux_without_client (h : host) (e : env) (w : world) (d : list byte)
    (iface : option string) :
  exec_ok e systemctl_is_active_networkd = false ->
  exec_ok e pgrep_dhclient = false ->
  exec_ok e pgrep_NetworkManager = false ->
  linux.getCurrentDUID h e w = (Ok None, w)
  /\ linux.setDUID d iface h e w
     = (Throw match d with
              | [] => TypeError
              | _ => Error "Could not detect DHCP client. Please configure DUID manually."
              end, w)
  /\ linux.resetDUID iface h e w = (Ok true, w)
  /\ (forall o, stored h w o -> o <> [] ->
        exists w1, linux.restoreDUID iface h e w = (Ok Restored, w1)
          /\ files w1 = files w /\ registry_duid w1 = registry_duid w).
Proof.
  intros H1 H2 H3. pose proof (detected_unknown e H1 H2 H3) as Hd.
  split; [by apply linux_getCurrentDUID_unknown|]. split; [|split].
  - unfold linux.setDUID, linux.backupOriginal.
    rewrite !bind_eq, linux_getCurrentDUID_unknown by exact Hd. mred.
    rewrite detectDHCPClient_eq, Hd. mred. destruct d; reflexivity.
  - unfold linux.resetDUID. rewrite !bind_eq, detectDHCPClient_eq, Hd. reflexivity.
  - intros o Ho Hne. unfold linux.restoreDUID.
    rewrite bind_eq, getOriginalDUID_eq. unfold stored in Ho. rewrite Ho. mred.
    rewrite linux_getCurrentDUID_unknown by exact Hd. mred.
    rewrite detectDHCPClient_eq, Hd. mred.
    destruct o as [|b rest]; [contradiction|]. rewrite formatDUID_text. mred.
    eexists. split; [reflexivity|]. split; [apply after_path_files|apply after_path_registry].
Qed.

Lemma linux_without_client_witness :
  linux.setDUID duid_B (Some "eth0") linux_host failing_env linux_world
  = (Throw (Error "Could not detect DHCP client. Please configure DUID manually."),
     linux_world)
  /\ exists w1, linux.restoreDUID (Some "eth0") linux_host failing_env linux_world
                = (Ok Restored, w1)
       /\ files w1 = files linux_world /\ registry_duid w1 = registry_duid linux_world.
Proof.
  destruct (linux_without_client linux_host failing_env linux_world duid_B (Some "eth0")
              eq_refl eq_refl eq_refl) as (_ & Hset & _ & Hrestore).
  split; [exact Hset|].
  apply (Hrestore duid_A); [vm_compute; reflexivity|discriminate].
Defined.

Lemma restart_networkd_quiet h e w :
  try_catch (_ ← execSync systemctl_restart_networkd; mret tt) (mret tt) h e w = (Ok tt, w).
Proof.
  unfold try_catch. mred. rewrite execSync_plain by discriminate.
  destruct (exec_ok e _); reflexivity.
Qed.

Lemma systemd_target_last iface :
  last_char (systemd_target iface) = Some "k"%char
  \/ last_char (systemd_target iface) = Some "f"%char.
Proof.
  destruct iface as [[|c rest]|]; [right; reflexivity| |right; reflexivity].
  left. apply last_char_network.
Qed.

Lemma systemd_target_off_store h iface : systemd_target iface ∉ store_paths h.
Proof.
  destruct (systemd_target_last iface) as [H|H];
    apply (not_store_path h _ _ H); discriminate.
Qed.

Lemma systemd_write_steps iface content h e v b w1 :
  (ex ← existsSync linux.SYSTEMD_DUID_PATH;
   when (negb ex) (mkdirSync linux.SYSTEMD_DUID_PATH);;
   when (negb (truthy iface))
     (writeFileSync (linux.SYSTEMD_DUID_PATH ++ "/00-duid.conf") content);;
   when (truthy iface)
     (writeFileSync
        match iface with
        | Some (String c rest) =>
            linux.SYSTEMD_DUID_PATH ++ "/" ++ String c rest ++ ".network"
        | _ => linux.SYSTEMD_DUID_PATH ++ "/00-duid.network"
        end content);;
   try_catch (_ ← execSync systemctl_restart_networkd; mret tt) (mret tt);;
   mret true) h e v = (Ok b, w1) ->
  b = true /\ files w1 = <[systemd_target iface := content]> (files v).
Proof.
  assert (Hstep : forall v',
            (when (negb (truthy iface))
               (writeFileSync (linux.SYSTEMD_DUID_PATH ++ "/00-duid.conf") content);;
             when (truthy iface)
               (writeFileSync
                  match iface with
                  | Some (String c rest) =>
                      linux.SYSTEMD_DUID_PATH ++ "/" ++ String c rest ++ ".network"
                  | _ => linux.SYSTEMD_DUID_PATH ++ "/00-duid.network"
                  end content);;
             try_catch (_ ← execSync systemctl_restart_networkd; mret tt) (mret tt);;
             mret true) h e v'
            = if writable h (systemd_target iface)
              then (Ok true, set_files (<[systemd_target iface := content]> (files v')) v')
              else (Throw (Error "EACCES"), v')).
  { intros v'. destruct iface as [[|c rest]|]; cbn [truthy negb when systemd_target];
      unfold writeFileSync; mred;
      match goal with |- context [writable h ?p] => destruct (writable h p) end; mred;
      rewrite ?restart_networkd_quiet; reflexivity. }
  assert (Hmk : forall p, mkdirSync p h e v
            = if writable h p then (Ok tt, set_dirs ({[p]} ∪ dirs v) v)
              else (Throw (Error "EACCES"), v)).
  { intros p. unfold mkdirSync. mred. destruct (writable h p); reflexivity. }
  rewrite (bind_ok (existsSync linux.SYSTEMD_DUID_PATH) _ h e v
             (exists_in v linux.SYSTEMD_DUID_PATH) v) by reflexivity.
  destruct (exists_in v linux.SYSTEMD_DUID_PATH); cbn [negb when].
  - rewrite (bind_ok (mret tt) _ h e v tt v) by reflexivity.
    rewrite Hstep. destruct (writable h (systemd_target iface)); [|discriminate].
    intros [= <- <-]. split; reflexivity.
  - rewrite bind_eq, Hmk. destruct (writable h linux.SYSTEMD_DUID_PATH); [|discriminate].
    rewrite Hstep. destruct (writable h (systemd_target iface)); [|discriminate].
    intros [= <- <-]. split; reflexivity.
Qed.

(** X19. [linux.setDUID] under systemd-networkd writes one file: the
    network file of the interface when one is given, the system-wide
    [00-duid.conf] otherwise. When the call returns, that file holds the
    section with the raw DUID in lowercase hexadecimal, and no other file
    outside the store has changed; in particular no [00-duid.network] is
    written. An empty DUID never gets that far. *)
Theorem linux_systemd_setDUID_files (d : list byte) (iface : option string)
    (h : host) (e : env) (w w1 : world) (b : bool) :
  exec_ok e systemctl_is_active_networkd = true ->
  linux.setDUID d iface h e w = (Ok b, w1) ->
  b = true
  /\ d <> []
  /\ files w1 !! systemd_target iface
     = Some (utf8 (linux.network_file_content iface (Buffer_toString_hex d)))
  /\ (forall q, q <> systemd_target iface -> q ∉ store_paths h ->
        files w1 !! q = files w !! q).
Proof.
  intros Hsys. unfold linux.setDUID. rewrite bind_eq.
  pose proof (off_store_linux_backup h e w) as [Hf _].
  destruct (linux.backupOriginal h e w) as [[b0|x] w0]; [|discriminate].
  cbn [snd] in Hf. rewrite (bind_ok _ _ _ _ _ _ _ (detectDHCPClient_eq h e w0)).
  unfold detected. rewrite Hsys.
  destruct d as [|x d']; [discriminate|].
  rewrite (bind_ok (lift (formatDUID (x :: d'))) _ h e w0 (upper_colon_hex (x :: d')) w0)
    by (unfold lift; by rewrite formatDUID_text).
  cbv beta iota zeta. intros Hrun.
  apply systemd_write_steps in Hrun as [-> Hfiles].
  split; [reflexivity|]. split; [discriminate|]. rewrite Hfiles. split.
  - apply lookup_insert_eq.
  - intros q Hq Hs. rewrite lookup_insert_ne by congruence. by apply Hf.
Qed.

Lemma linux_systemd_setDUID_files_witness :
  let w1 := snd (linux.setDUID duid_B (Some "eth0") linux_host quiet_env empty_world) in
  files w1 !! "/etc/systemd/network/eth0.network"
  = Some (utf8 (linux.network_file_content (Some "eth0") "00030001aabbccddeeff"))
  /\ files w1 !! "/etc/systemd/network/00-duid.conf" = None
  /\ files w1 !! "/etc/systemd/network/00-duid.network" = None.
Proof.
  destruct (linux_systemd_setDUID_files duid_B (Some "eth0") linux_host quiet_env
              empty_world
              (snd (linux.setDUID duid_B (Some "eth0") linux_host quiet_env empty_world))
              true eq_refl)
    as (_ & _ & Hfile & Hrest).
  - vm_compute. reflexivity.
  - split; [exact Hfile|]. split; (rewrite Hrest; [reflexivity|discriminate|]).
    + apply (not_store_path _ _ "f"%char); [reflexivity|discriminate|discriminate].
    + apply (not_store_path _ _ "k"%char); [reflexivity|discriminate|discriminate].
Defined.

(** X20. [linux.restoreDUID] under systemd-networkd, when it returns true,
    has written the stored original into the system-wide [00-duid.conf]
    and has changed no other file: the network file of an interface, where
    [setDUID] puts a DUID given with an interface, is left as it is. *)
Theorem linux_systemd_restoreDUID_files (iface : option string) (h : host) (e : env)
    (w w1 : world) :
  exec_ok e systemctl_is_active_networkd = true ->
  linux.restoreDUID iface h e w = (Ok Restored, w1) ->
  exists o,
    fst (getOriginalDUID h e w) = Ok (Some o)
    /\ files w1 !! systemd_target None
       = Some (utf8 (linux.network_file_content None (Buffer_toString_hex o)))
    /\ (forall q, q <> systemd_target None -> files w1 !! q = files w !! q).
Proof.
  intros Hsys. unfold linux.restoreDUID.
  rewrite bind_eq, getOriginalDUID_eq. cbn [fst].
  destruct (read_original h (after_path h w) (store_path h w)) as [o|]; [|discriminate].
  pose proof (after_path_files h w) as Hf. revert Hf.
  generalize (after_path h w). intros w0 Hf. cbv beta iota.
  destruct (linux_getCurrentDUID_pure h e w0) as (c & Hc & _).
  rewrite (bind_ok _ _ _ _ _ _ _ Hc). cbv beta iota zeta.
  rewrite same_as_original. destruct (bool_decide (c = Some o)); [discriminate|].
  rewrite (bind_ok _ _ _ _ _ _ _ (detectDHCPClient_eq h e w0)).
  unfold detected. rewrite Hsys.
  destruct o as [|x o']; [discriminate|].
  rewrite (bind_ok (lift (formatDUID (x :: o'))) _ h e w0 (upper_colon_hex (x :: o')) w0)
    by (unfold lift; by rewrite formatDUID_text).
  cbv beta iota zeta. rewrite !bind_eq. unfold writeFileSync at 1. mred.
  destruct (writable h _); mred; [|discriminate].
  rewrite restart_networkd_quiet. mred. intros [= <-].
  exists (x :: o'). split; [reflexivity|]. cbn. split; [apply lookup_insert_eq|].
  intros q Hq. rewrite lookup_insert_ne by congruence. by rewrite Hf.
Qed.

Lemma linux_systemd_restoreDUID_files_witness :
  let w1 := snd (linux.restoreDUID (Some "eth0") linux_host quiet_env spoofed_linux_world) in
  files w1 !! "/etc/systemd/network/00-duid.conf"
  = Some (utf8 (linux.network_file_content None "00030001112233445566"))
  /\ files w1 !! "/etc/systemd/network/eth0.network"
     = Some (utf8 (linux.network_file_content (Some "eth0") "00030001aabbccddeeff")).
Proof.
  destruct (linux_systemd_restoreDUID_files (Some "eth0") linux_host quiet_env
              spoofed_linux_world
              (snd (linux.restoreDUID (Some "eth0") linux_host quiet_env spoofed_linux_world))
              eq_refl)
    as (o & Ho & Hfile & Hrest).
  - vm_compute. reflexivity.
  - assert (o = duid_A) as -> by (vm_compute in Ho; injection Ho as <-; reflexivity).
    split; [exact Hfile|]. rewrite Hrest by discriminate. vm_compute. reflexivity.
Defined.

(** ** Generating and applying in one call *)

Lemma API_macos h :
  os_platform h = Darwin ->
  forall d iface e w, API.setDUID (inl d) iface h e w = macos.setDUID d iface h e w.
Proof.
  intros Hp d iface e w. unfold API.setDUID, API.getPlatformImpl. mred. rewrite Hp.
  reflexivity.
Qed.

Lemma randomizeDUID_eq type iface mac r now h e w :
  randomizeDUID type iface mac r now h e w
  = match generateDUID type mac r now with
    | Ok d =>
        match API.setDUID (inl d) iface h e w with
        | (Ok _, w1) => (Ok d, w1)
        | (Throw x, w1) => (Throw x, w1)
        end
    | Throw x => (Throw x, w)
    end.
Proof.
  unfold randomizeDUID, lift. rewrite bind_eq.
  destruct (generateDUID type mac r now) as [d|x]; [|reflexivity].
  rewrite bind_eq. destruct (API.setDUID (inl d) iface h e w) as [[b|x] w1]; reflexivity.
Qed.

(** X21. [randomizeDUID] generates before it touches anything: when
    [generateDUID] throws, for an unknown type or an address it cannot
    take, the call throws the same error and the system is as it was. On
    macOS a call that returns has returned the DUID it generated, and that
    DUID is the active one. *)
Theorem randomizeDUID_generates_first (type : option Z) (iface mac : option string)
    (r : rng) (now : Z) (h : host) (e e' : env) (w : world) :
  (forall x, generateDUID type mac r now = Throw x ->
     randomizeDUID type iface mac r now h e w = (Throw x, w))
  /\ (os_platform h = Darwin ->
      forall d w1, randomizeDUID type iface mac r now h e w = (Ok d, w1) ->
        generateDUID type mac r now = Ok d
        /\ files w1 !! macos.DUID_PATH = Some d
        /\ API.getCurrentDUID h e' w1 = (Ok (Some d), w1)).
Proof.
  rewrite randomizeDUID_eq. split.
  - intros x ->. reflexivity.
  - intros Hp d w1. destruct (generateDUID type mac r now) as [d0|x]; [|discriminate].
    rewrite (API_macos h Hp).
    destruct (macos.setDUID d0 iface h e w) as [[b|x] w2] eqn:Hset; [|discriminate].
    intros [= <- <-].
    destruct (macos_setDUID_writes d0 iface h e w w2 b Hset) as [_ Hfile].
    split; [reflexivity|]. split; [exact Hfile|].
    unfold API.getCurrentDUID, API.getPlatformImpl. mred. rewrite Hp.
    by apply macos_getCurrentDUID_file.
Qed.

Lemma randomizeDUID_generates_first_witness :
  randomizeDUID (Some 9) (Some "en0") None (fun _ => x00) 0 mac_host quiet_env mac_world
  = (Throw (Error "Unknown DUID type"), mac_world)
  /\ (let w1 := snd (randomizeDUID (Some DUID_LL) None (Some "aa:bb:cc:dd:ee:ff")
                       (fun _ => x00) 0 mac_host quiet_env mac_world) in
      API.getCurrentDUID mac_host quiet_env w1 = (Ok (Some duid_B), w1)).
Proof.
  split.
  - apply (proj1 (randomizeDUID_generates_first (Some 9) (Some "en0") None (fun _ => x00) 0
                    mac_host quiet_env quiet_env mac_world)).
    reflexivity.
  - apply (proj2 (randomizeDUID_generates_first (Some DUID_LL) None (Some "aa:bb:cc:dd:ee:ff")
                    (fun _ => x00) 0 mac_host quiet_env quiet_env mac_world) eq_refl duid_B).
    vm_compute. reflexivity.
Defined.

(** ** The address of an interface *)

Lemma class_run_shape n : forall s run,
  class_run n s = Some run ->
  String.length run = n /\ forallb_string is_hex_or_colon run = true.
Proof.
  induction n as [|n IH]; intros s run; cbn [class_run].
  - intros [= <-]. split; reflexivity.
  - destruct s as [|c rest]; [discriminate|].
    destruct (is_hex_or_colon c) eqn:Hc; [|discriminate].
    destruct (class_run n rest) as [run'|] eqn:Hrun; [|discriminate].
    intros [= <-]. destruct (IH _ _ Hrun) as [Hlen Hall].
    cbn [String.length forallb_string]. rewrite Hlen, Hc, Hall. split; reflexivity.
Qed.

Lemma match_ether_shape lit : forall s run,
  match_ether lit s = Some run ->
  String.length run = 17%nat /\ forallb_string is_hex_or_colon run = true.
Proof.
  induction s as [|c rest IH]; intros run; cbn [match_ether].
  - destruct (ether_at lit "") as [m|] eqn:E; [|discriminate].
    intros [= <-]. unfold ether_at in E.
    destruct (literal_ci lit "") as [[|c rest]|]; try discriminate.
    destruct (is_space c); [|discriminate]. by apply class_run_shape in E.
  - destruct (ether_at lit (String c rest)) as [m|] eqn:E; [|apply IH].
    intros [= <-]. unfold ether_at in E.
    destruct (literal_ci lit (String c rest)) as [[|c' rest']|]; try discriminate.
    destruct (is_space c'); [|discriminate]. by apply class_run_shape in E.
Qed.

Lemma fallback_mac_truthy ifaces iface m :
  fallback_mac ifaces iface = Some m -> m <> "".
Proof.
  induction ifaces as [|[name macs] rest IH]; cbn [fallback_mac]; [discriminate|].
  destruct (String.eqb _ _); [|exact IH].
  intros Hfind. apply find_some in Hfind as [_ Hm]. intros ->. discriminate.
Qed.

Lemma map_string_nonempty f s : s <> "" -> map_string f s <> "".
Proof. destruct s; [contradiction|discriminate]. Qed.

(** X22. [getCurrentMACAddress] changes nothing. It throws in one case
    only, when no interface name is given; for a name it returns null or a
    text that is not empty. On macOS and on Linux, whenever the command
    succeeds, the fallback to [os.networkInterfaces()] is not consulted and
    a text returned is 17 characters of hexadecimal digits and colons, as
    the command printed them. *)
Theorem getCurrentMACAddress_outcome (pr : link_probe) (iface : option string)
    (h : host) (e : env) (w : world) :
  match iface with
  | Some (String c rest) =>
      exists m, getCurrentMACAddress pr iface h e w = (Ok m, w)
        /\ m <> Some ""
        /\ (forall out, os_platform h = Darwin -> ifconfig pr (String c rest) = Ok out ->
              m = match_ether "ether" out /\ mac_shaped m)
        /\ (forall out, os_platform h = Linux -> ip_link_show pr (String c rest) = Ok out ->
              m = match_ether "link/ether" out /\ mac_shaped m)
  | _ => getCurrentMACAddress pr iface h e w = (Throw (Error "Interface name required"), w)
  end.
Proof.
  destruct iface as [[|c rest]|]; try reflexivity.
  assert (Hshape : forall lit out, mac_shaped (match_ether lit out)).
  { intros lit out s Hs. by apply match_ether_shape in Hs. }
  unfold getCurrentMACAddress, try_catch, lift. mred.
  pose proof (fallback_mac_truthy (networkInterfaces pr) (String c rest)) as Hfb.
  destruct (os_platform h) eqn:Hp; mred.
  - destruct (ifconfig pr (String c rest)) as [out|x] eqn:Hout; mred;
      (eexists; split; [reflexivity|]; split; [|split]);
      try (intros; discriminate).
    + intros Hm. apply match_ether_shape in Hm as [Hlen _]. discriminate.
    + intros out' _ [= <-]. split; [reflexivity|apply Hshape].
    + intros Hm. by apply Hfb in Hm.
  - destruct (ip_link_show pr (String c rest)) as [out|x] eqn:Hout; mred;
      (eexists; split; [reflexivity|]; split; [|split]);
      try (intros; discriminate).
    + intros Hm. apply match_ether_shape in Hm as [Hlen _]. discriminate.
    + intros out' _ [= <-]. split; [reflexivity|apply Hshape].
    + intros Hm. by apply Hfb in Hm.
  - destruct (Get_NetAdapter_MacAddress pr (String c rest)) as [out|x]; mred.
    + destruct (trim out) as [|c' rest'] eqn:Ht; mred;
        (eexists; split; [reflexivity|]; split; [|split]);
        intros; discriminate.
    + eexists; split; [reflexivity|]; split; [|split];
        try (intros; discriminate).
      intros Hm. by apply Hfb in Hm.
  - eexists; split; [reflexivity|]; split; [|split];
      intros; discriminate.
Qed.

Lemma getCurrentMACAddress_outcome_witness :
  getCurrentMACAddress en0_probe (Some "en0") mac_host quiet_env mac_world
  = (Ok (Some "02:00:00:00:00:01"), mac_world)
  /\ mac_shaped (Some "02:00:00:00:00:01").
Proof.
  destruct (getCurrentMACAddress_outcome en0_probe (Some "en0") mac_host quiet_env mac_world)
    as (m & Hrun & _ & Hdarwin & _).
  destruct (Hdarwin ifconfig_en0 eq_refl eq_refl) as [Hm Hshape].
  assert (Hval : m = Some "02:00:00:00:00:01") by (rewrite Hm; vm_compute; reflexivity).
  rewrite Hval in Hrun, Hshape. split; [exact Hrun|exact Hshape].
Defined.

Lemma getCurrentMACAddress_darwin pr name h e w out :
  name <> "" -> os_platform h = Darwin -> ifconfig pr name = Ok out ->
  getCurrentMACAddress pr (Some name) h e w = (Ok (match_ether "ether" out), w).
Proof.
  intros Hname Hp Hout. destruct name as [|c rest]; [contradiction|].
  unfold getCurrentMACAddress, try_catch, lift. mred. rewrite Hp, Hout. reflexivity.
Qed.

(** X23. [syncDUID] on macOS. Without an interface name it throws
    'Interface name required'; when [ifconfig] runs and prints no address
    it throws 'Could not get MAC address for interface: ' and the name;
    either way nothing has changed. When [ifconfig] prints an address and
    the call returns, the DUID returned is the one generated from that
    address and it is the active DUID; for the type DUID-LL and the text of
    a six-byte address it is 00 03 00 01 and those six bytes. *)
Theorem syncDUID_outcome (pr : link_probe) (type : option Z) (r : rng) (now : Z)
    (h : host) (e e' : env) (w : world) :
  syncDUID pr None type r now h e w = (Throw (Error "Interface name required"), w)
  /\ syncDUID pr (Some "") type r now h e w = (Throw (Error "Interface name required"), w)
  /\ (forall name out,
        name <> "" -> os_platform h = Darwin -> ifconfig pr name = Ok out ->
        match match_ether "ether" out with
        | None =>
            syncDUID pr (Some name) type r now h e w
            = (Throw (Error ("Could not get MAC address for interface: " ++ name)), w)
        | Some s =>
            forall d w1, syncDUID pr (Some name) type r now h e w = (Ok d, w1) ->
              generateDUID type (Some s) r now = Ok d
              /\ API.getCurrentDUID h e' w1 = (Ok (Some d), w1)
              /\ (forall m, mac_text m s -> default DUID_LL type = DUID_LL ->
                    d = ([x00; x03; x00; x01] ++ m)%list)
        end).
Proof.
  split; [reflexivity|]. split; [reflexivity|].
  intros name out Hname Hp Hout. unfold syncDUID.
  rewrite (bind_ok _ _ _ _ _ _ _ (getCurrentMACAddress_darwin pr name h e w out Hname Hp Hout)).
  destruct (match_ether "ether" out) as [s|] eqn:Hm; [|reflexivity].
  assert (Hs : truthy (Some s) = true).
  { apply match_ether_shape in Hm as [Hlen _]. destruct s; [discriminate|reflexivity]. }
  rewrite Hs. intros d w1. unfold lift. rewrite bind_eq.
  destruct (generateDUID type (Some s) r now) as [d0|x] eqn:Hgen; [|discriminate].
  rewrite bind_eq, (API_macos h Hp).
  destruct (macos.setDUID d0 (Some name) h e w) as [[b|x] w2] eqn:Hset; [|discriminate].
  intros [= <- <-]. destruct (macos_setDUID_writes _ _ _ _ _ _ _ Hset) as [_ Hfile].
  split; [reflexivity|]. split.
  - unfold API.getCurrentDUID, API.getPlatformImpl. mred. rewrite Hp.
    by apply macos_getCurrentDUID_file.
  - intros m Hmac Hty.
    assert (Hgen' : generateDUID (Some DUID_LL) (Some s) r now = Ok d0).
    { rewrite <- Hgen. unfold generateDUID. rewrite Hty. reflexivity. }
    rewrite (generateDUID_LL_text m s r now Hmac) in Hgen'. by injection Hgen'.
Qed.

Lemma syncDUID_outcome_witness :
  let w1 := snd (syncDUID en0_probe (Some "en0") None (fun _ => x00) 0
                   mac_host quiet_env mac_world) in
  generateDUID None (Some "02:00:00:00:00:01") (fun _ => x00) 0 = Ok duid_C
  /\ API.getCurrentDUID mac_host quiet_env w1 = (Ok (Some duid_C), w1).
Proof.
  pose proof (proj2 (proj2 (syncDUID_outcome en0_probe None (fun _ => x00) 0
                              mac_host quiet_env quiet_env mac_world))
                "en0" ifconfig_en0) as H.
  assert (Hm : match_ether "ether" ifconfig_en0 = Some "02:00:00:00:00:01")
    by (vm_compute; reflexivity).
  rewrite Hm in H.
  destruct (H ltac:(discriminate) eq_refl eq_refl duid_C
              (snd (syncDUID en0_probe (Some "en0") None (fun _ => x00) 0
                      mac_host quiet_env mac_world)))
    as (Hgen & Hget & _).
  - vm_compute. reflexivity.
  - split; [exact Hgen|exact Hget].
Defined.

(** ** The command line *)

Import (hints) CLI.
Import CLIShape.

Lemma C_bind_eq {A B} (m : CLI.C A) (k : A -> CLI.C B) s h e w :
  (m ≫= k) s h e w
  = match m s h e w with
    | (CLI.Returned a, w') => k a s h e w'
    | (CLI.Uncaught x, w') => (CLI.Uncaught x, w')
    | (CLI.Exited c, w') => (CLI.Exited c, w')
    end.
Proof. reflexivity. Qed.

Lemma C_ret_eq {A} (a : A) s h e w : (mret a : CLI.C A) s h e w = (CLI.Returned a, w).
Proof. reflexivity. Qed.

Lemma call_eq {A} (m : M A) s h e w :
  CLI.call m s h e w
  = match m h e w with
    | (Ok a, w') => (CLI.Returned a, w')
    | (Throw x, w') => (CLI.Uncaught x, w')
    end.
Proof. reflexivity. Qed.

Lemma try_or_exit_eq {A} (body : CLI.C A) s h e w :
  CLI.try_or_exit body s h e w
  = match body s h e w with
    | (CLI.Uncaught _, w') => (CLI.Exited 1, w')
    | other => other
    end.
Proof. reflexivity. Qed.

(** One step of a command. *)
Ltac cred :=
  repeat first
    [ rewrite !C_bind_eq
    | rewrite !call_eq
    | rewrite !C_ret_eq
    | progress (unfold CLI.say, CLI.get_session, CLI.process_exit)
    | progress (cbn [mret CLI.C_ret M_ret get_host lift negb])
    | progress (cbv beta iota zeta) ].

Lemma checkPrivileges_returns s h e w :
  exists b, CLI.checkPrivileges s h e w = (CLI.Returned b, w).
Proof.
  unfold CLI.checkPrivileges. cred. destruct (os_platform h); cred; eauto.
Qed.

Lemma checkPrivileges_fst s h e w b :
  fst (CLI.checkPrivileges s h e w) = CLI.Returned b ->
  CLI.checkPrivileges s h e w = (CLI.Returned b, w).
Proof.
  destruct (checkPrivileges_returns s h e w) as [b' Hb]. rewrite Hb.
  intros [= ->]. reflexivity.
Qed.

Lemma parseDUID_returns d : exists p, parseDUID d = Ok p.
Proof.
  destruct d as [[|b0 [|b1 rest]]|]; try (eexists; reflexivity).
  rewrite parseDUID_long. cbv zeta.
  repeat match goal with
         | |- context [if ?c then _ else _] => destruct c
         end; eexists; reflexivity.
Qed.

Lemma printDUIDInfo_returns d s h e w :
  CLI.printDUIDInfo d s h e w = (CLI.Returned tt, w).
Proof.
  destruct d as [buf|]; [|reflexivity]. unfold CLI.printDUIDInfo. cred.
  destruct (parseDUID_returns (Some buf)) as [p ->]. reflexivity.
Qed.

(** X24. Without the rights of the superuser, or of an administrator on
    Windows, the commands [randomize], [set], [reset], [restore] and [sync]
    and the subcommand [original clear] end the process with status 1
    before they read or change anything, whatever their arguments. *)
Theorem commands_need_privileges (s : CLI.session) (h : host) (e : env) (w : world)
    (command : string) (args : CLI.argv) :
  fst (CLI.checkPrivileges s h e w) = CLI.Returned false ->
  command ∈ ["randomize"; "set"; "reset"; "restore"; "sync"]
  \/ (command = "original" /\ args !! 0%nat = Some "clear") ->
  CLI.run (command :: args) s h e w = (CLI.Exited 1, w).
Proof.
  intros Hpriv Hcmd. apply checkPrivileges_fst in Hpriv.
  destruct Hcmd as [Hcmd | [-> Hclear]].
  - repeat (apply elem_of_cons in Hcmd as [-> | Hcmd]);
      [..|by apply elem_of_nil in Hcmd];
      unfold CLI.run; change (drop 1 (_ :: args)) with args;
      cbn [CLI.arg_or_null lookup list_lookup default from_option id String.eqb Ascii.eqb
           Bool.eqb];
      [unfold CLI.randomize|unfold CLI.set|unfold CLI.reset|unfold CLI.restore
      |unfold CLI.sync];
      rewrite C_bind_eq, Hpriv; reflexivity.
  - unfold CLI.run. change (drop 1 (_ :: args)) with args.
    cbn [CLI.arg_or_null lookup list_lookup default from_option id String.eqb Ascii.eqb
         Bool.eqb].
    unfold CLI.original, CLI.arg_or_null. rewrite Hclear.
    cbn [default from_option id String.eqb Ascii.eqb Bool.eqb].
    rewrite C_bind_eq, Hpriv. reflexivity.
Qed.

Lemma commands_need_privileges_witness :
  CLI.run ["set"; "00:03:00:01:aa:bb:cc:dd:ee:ff"; "en0"] user_session mac_host quiet_env
    mac_world
  = (CLI.Exited 1, mac_world).
Proof.
  apply commands_need_privileges.
  - reflexivity.
  - left. apply elem_of_cons. right. apply elem_of_cons. left. reflexivity.
Defined.

Lemma formatDUID_returns b rest : exists text, formatDUID (b :: rest) = Ok text.
Proof. eexists. reflexivity. Qed.

(** X25. [set] with the rights it needs. A text that decodes to no byte,
    such as an empty one or one that starts with no two hexadecimal digits,
    ends the process with status 1 and nothing has changed: [formatDUID]
    throws on the empty buffer before [setDUID] is reached. For any other
    text the command does what [setDUID] does with the decoded bytes and
    the second argument as interface: it returns when the call returns and
    exits with 1 when the call throws, and the system is as the call leaves
    it. Without an argument it exits with 1. *)
Theorem set_command_outcome (s : CLI.session) (h : host) (e : env) (w : world)
    (duidHex : string) (rest : CLI.argv) :
  fst (CLI.checkPrivileges s h e w) = CLI.Returned true ->
  CLI.set (duidHex :: rest) s h e w
  = match hexToDuid duidHex with
    | [] => (CLI.Exited 1, w)
    | d => follows (API.setDUID (inl d) (CLI.arg_or_null (duidHex :: rest) 1) h e w)
    end
  /\ CLI.set [] s h e w = (CLI.Exited 1, w).
Proof.
  intros Hpriv. apply checkPrivileges_fst in Hpriv.
  unfold CLI.set. rewrite !C_bind_eq, Hpriv. cbn [negb]. split; [|reflexivity].
  rewrite try_or_exit_eq. cbv zeta.
  destruct (hexToDuid duidHex) as [|b d]; [reflexivity|].
  cred. cbn [formatDUID]. cred.
  destruct (API.setDUID _ _ h e w) as [[ok|x] w']; [|reflexivity].
  cred. rewrite printDUIDInfo_returns. reflexivity.
Qed.

Lemma set_command_outcome_witness :
  CLI.set ["zz"; "en0"] root_session mac_host quiet_env mac_world
  = (CLI.Exited 1, mac_world).
Proof.
  exact (proj1 (set_command_outcome root_session mac_host quiet_env mac_world "zz" ["en0"]
                  eq_refl)).
Defined.

Lemma API_getCurrentDUID_pure h e w :
  (forall name, os_platform h <> OtherPlatform name) ->
  exists c, API.getCurrentDUID h e w = (Ok c, w).
Proof.
  intros Hp. unfold API.getCurrentDUID, API.getPlatformImpl. mred.
  destruct (os_platform h) eqn:E; mred; cbn [getCurrentDUID macos_impl linux_impl windows_impl].
  - apply macos_getCurrentDUID_pure.
  - destruct (linux_getCurrentDUID_pure h e w) as (c & Hc & _). eauto.
  - apply windows_getCurrentDUID_pure.
  - by destruct (Hp name).
Qed.

Lemma API_unsupported {A} (f : adapter -> M A) h e w name :
  os_platform h = OtherPlatform name ->
  (API.getPlatformImpl ≫= f) h e w = (Throw (Error "Unsupported platform"), w).
Proof. intros Hp. unfold API.getPlatformImpl. mred. rewrite Hp. reflexivity. Qed.

(** X26. [restore] with the rights it needs. Where the store holds no
    record the command exits with 1 before [restoreDUID] is called, and no
    file has changed. Where it holds one, the command does what
    [restoreDUID] does with the first argument as interface: it exits with
    1 when the call throws and returns otherwise, also when the call
    reports that nothing could be restored; reading the DUID for the
    report changes nothing. *)
Theorem restore_command_outcome (s : CLI.session) (h : host) (e : env) (w : world)
    (args : CLI.argv) :
  fst (CLI.checkPrivileges s h e w) = CLI.Returned true ->
  let w0 := snd (hasOriginalDUID h e w) in
  files w0 = files w /\ registry_duid w0 = registry_duid w
  /\ (fst (hasOriginalDUID h e w) = Ok false ->
      CLI.restore args s h e w = (CLI.Exited 1, w0))
  /\ (fst (hasOriginalDUID h e w) = Ok true ->
      CLI.restore args s h e w
      = follows (API.restoreDUID (CLI.arg_or_null args 0) h e w0)).
Proof.
  intros Hpriv. apply checkPrivileges_fst in Hpriv. cbv zeta.
  rewrite hasOriginalDUID_eq. cbn [fst snd].
  split; [apply after_path_files|]. split; [apply after_path_registry|].
  unfold CLI.restore. rewrite C_bind_eq, Hpriv. cred. rewrite hasOriginalDUID_eq.
  split; intros [= ->]; cbn [negb]; [reflexivity|].
  cbv beta iota. rewrite try_or_exit_eq. cred.
  destruct (API.restoreDUID _ h e (after_path h w)) as [[r|x] w'] eqn:Hr; [|reflexivity].
  assert (Hp : forall name, os_platform h <> OtherPlatform name).
  { intros name Hname. unfold API.restoreDUID in Hr.
    rewrite (API_unsupported _ _ _ _ _ Hname) in Hr. discriminate. }
  destruct (API_getCurrentDUID_pure h e w' Hp) as [c Hc].
  destruct r; cred; rewrite ?Hc; cred; rewrite ?printDUIDInfo_returns; reflexivity.
Qed.

Lemma restore_command_outcome_witness :
  CLI.restore ["en0"] root_session mac_host quiet_env mac_world
  = (CLI.Exited 1, mac_world).
Proof.
  exact (proj1 (proj2 (proj2 (restore_command_outcome root_session mac_host quiet_env
                                mac_world ["en0"] eq_refl))) eq_refl).
Defined.

(** X27. [original clear] deletes the record only with [--force]. Without
    that word among the arguments no file is changed, whatever the rights
    of the process: the command exits with 1, unless it has the rights and
    finds no record, when it returns. With the word anywhere after [clear],
    the rights and a record, the command is [clearOriginalDUID]: it returns
    when the call returns, and an error of the call, such as a refused
    deletion, leaves the command as an uncaught exception. *)
Theorem original_clear_force (s : CLI.session) (h : host) (e : env) (w : world)
    (rest : CLI.argv) :
  let out := CLI.original ("clear" :: rest) s h e w in
  ("--force" ∉ rest ->
     files (snd out) = files w /\ registry_duid (snd out) = registry_duid w
     /\ (fst out = CLI.Exited 1
         \/ fst out = CLI.Returned tt /\ fst (hasOriginalDUID h e w) = Ok false))
  /\ ("--force" ∈ rest ->
      fst (CLI.checkPrivileges s h e w) = CLI.Returned true ->
      fst (hasOriginalDUID h e w) = Ok true ->
      out = match clearOriginalDUID h e (snd (hasOriginalDUID h e w)) with
            | (Ok _, w') => (CLI.Returned tt, w')
            | (Throw x, w') => (CLI.Uncaught x, w')
            end).
Proof.
  cbv zeta. unfold CLI.original.
  cbn [CLI.arg_or_null lookup list_lookup default from_option id String.eqb Ascii.eqb
       Bool.eqb].
  destruct (checkPrivileges_returns s h e w) as [ok Hok].
  rewrite C_bind_eq, Hok, hasOriginalDUID_eq. cbn [fst snd]. split.
  - intros Hforce. destruct ok; cbn [negb]; cred; [|auto].
    rewrite hasOriginalDUID_eq.
    destruct (exists_in (after_path h w) (store_path h w)); cred.
    + destruct (bool_decide _) eqn:Hin.
      { apply bool_decide_eq_true, elem_of_cons in Hin as [Heq|Hin]; [discriminate|].
        by destruct Hforce. }
      cbn [negb]. cred. cbn [fst snd]. rewrite after_path_files, after_path_registry. auto.
    + cbn [fst snd]. rewrite after_path_files, after_path_registry. auto.
  - intros Hforce Hpriv [= Hhas]. cbn [fst] in Hpriv. injection Hpriv as ->.
    cbn [negb]. cred. rewrite hasOriginalDUID_eq, Hhas. cred.
    destruct (bool_decide _) eqn:Hin;
      [|apply bool_decide_eq_false in Hin; destruct Hin; apply elem_of_cons; by right].
    cbn [negb]. cred.
    destruct (clearOriginalDUID h e (after_path h w)) as [[b|x] w']; reflexivity.
Qed.

Lemma original_clear_force_witness :
  let out := CLI.original ["clear"] root_session mac_host quiet_env spoofed_mac_world in
  fst out = CLI.Exited 1 /\ files (snd out) = files spoofed_mac_world.
Proof.
  destruct (proj1 (original_clear_force root_session mac_host quiet_env spoofed_mac_world [])
              ltac:(apply not_elem_of_nil))
    as (Hfiles & _ & [Hexit | [_ Hnone]]).
  - split; [exact Hexit|exact Hfiles].
  - vm_compute in Hnone. discriminate.
Defined.

(** An argument that starts with [--type=] has a part after its first
    equals sign. *)
Lemma split_equals_1_type a :
  String.prefix "--type=" a = true -> exists v, CLI.split_equals_1 a = Some v.
Proof.
  intros H.
  do 7 (destruct a as [|? a]; [discriminate|];
        cbn [String.prefix] in H;
        match type of H with
        | (if ?d then _ else _) = true => destruct d as [<-|]; [|discriminate]
        end).
  eexists. reflexivity.
Qed.

Lemma duidType_of_returns args :
  exists t, CLI.duidType_of args = Ok t
    /\ t ∈ [DUID_LLT; DUID_EN; DUID_LL; DUID_UUID]
    /\ ((forall a, a ∈ args -> String.prefix "--type=" a = false) -> t = DUID_LL).
Proof.
  unfold CLI.duidType_of, CLI.find_arg.
  destruct (find (String.prefix "--type=") args) as [a|] eqn:Hfind.
  - apply find_some in Hfind as [Hin Hpre].
    destruct (split_equals_1_type a Hpre) as [v ->].
    eexists. split; [reflexivity|]. split.
    + repeat match goal with
             | |- context [if ?c then _ else _] => destruct c
             end; set_solver.
    + intros Hnone. apply list_elem_of_In in Hin. rewrite (Hnone a Hin) in Hpre.
      discriminate.
  - exists DUID_LL. split; [reflexivity|]. split; [set_solver|auto].
Qed.

Lemma generateDUID_nonempty t mac r now d :
  generateDUID (Some t) mac r now = Ok d -> d <> [].
Proof.
  intros Hd ->.
  destruct (Z.eq_dec t DUID_LLT) as [->|N1].
  { rewrite generateDUID_LLT in Hd.
    destruct (writeUInt32BE _ _ _) as [buf|] eqn:E; [|discriminate].
    cbn [rbind] in Hd. apply write_each_length in Hd.
    apply writeUInt32BE_length in E. rewrite E in Hd. discriminate. }
  destruct (Z.eq_dec t DUID_EN) as [->|N2].
  { rewrite generateDUID_EN in Hd. discriminate. }
  destruct (Z.eq_dec t DUID_LL) as [->|N3].
  { rewrite generateDUID_LL in Hd. apply write_each_length in Hd. discriminate. }
  destruct (Z.eq_dec t DUID_UUID) as [->|N4].
  { rewrite generateDUID_UUID in Hd. injection Hd as Hd.
    apply (f_equal length) in Hd. rewrite force_uuid_bits_length in Hd. discriminate. }
  unfold generateDUID in Hd. cbn [default from_option id] in Hd.
  apply Z.eqb_neq in N1, N2, N3, N4. rewrite N1, N2, N3, N4 in Hd.
  destruct mac as [[|c m]|]; discriminate.
Qed.

(** X28. [generate] changes nothing and never ends the process by itself.
    The type it passes on is one of the four, DUID-LL when no argument
    starts with [--type=]: a type name it does not know is not refused. It
    returns exactly when [generateDUID] returns for that type and the
    address of the first [--mac=] argument, as it always does for the types
    DUID-EN and DUID-UUID; an error of [generateDUID] leaves the command as
    an uncaught exception. *)
Theorem generate_command_changes_nothing (s : CLI.session) (h : host) (e : env)
    (w : world) (args : CLI.argv) :
  exists t,
    CLI.duidType_of args = Ok t
    /\ t ∈ [DUID_LLT; DUID_EN; DUID_LL; DUID_UUID]
    /\ ((forall a, a ∈ args -> String.prefix "--type=" a = false) -> t = DUID_LL)
    /\ (let mac := match CLI.find_arg "--mac=" args with
                   | Some macArg => CLI.split_equals_1 macArg
                   | None => None
                   end in
        CLI.generate args s h e w
        = match generateDUID (Some t) mac (CLI.draws s) (CLI.clock s) with
          | Ok _ => (CLI.Returned tt, w)
          | Throw x => (CLI.Uncaught x, w)
          end)
    /\ (t = DUID_EN \/ t = DUID_UUID -> CLI.generate args s h e w = (CLI.Returned tt, w)).
Proof.
  destruct (duidType_of_returns args) as (t & Ht & Hin & Hdefault).
  exists t. split; [exact Ht|]. split; [exact Hin|]. split; [exact Hdefault|].
  assert (Hgen : forall mac,
    (CLI.call (lift (CLI.duidType_of args)) ≫= λ duidType,
       CLI.get_session ≫= λ s0,
         CLI.call (lift (generateDUID (Some duidType) mac (CLI.draws s0) (CLI.clock s0)))
         ≫= λ generated,
              CLI.say ≫= λ _, CLI.printDUIDInfo (Some generated) ≫= λ _,
                CLI.say ≫= λ _, CLI.call (lift (formatDUID generated)) ≫= λ _, CLI.say)
      s h e w
    = match generateDUID (Some t) mac (CLI.draws s) (CLI.clock s) with
      | Ok _ => (CLI.Returned tt, w)
      | Throw x => (CLI.Uncaught x, w)
      end).
  { intros mac. cred. rewrite Ht. cred.
    destruct (generateDUID (Some t) mac (CLI.draws s) (CLI.clock s)) as [d|x] eqn:Hd;
      [|reflexivity].
    cred. rewrite printDUIDInfo_returns. cred.
    destruct d as [|b d]; [by apply generateDUID_nonempty in Hd|]. reflexivity. }
  split; [apply Hgen|].
  unfold CLI.generate. cbv zeta. rewrite Hgen.
  intros [-> | ->]; [rewrite generateDUID_EN|rewrite generateDUID_UUID]; reflexivity.
Qed.

Lemma generate_command_changes_nothing_witness :
  CLI.generate ["--type=uuid"; "--mac=zz"] user_session linux_host failing_env linux_world
  = (CLI.Returned tt, linux_world).
Proof.
  destruct (generate_command_changes_nothing user_session linux_host failing_env linux_world
              ["--type=uuid"; "--mac=zz"]) as (t & Ht & _ & _ & _ & Hret).
  apply Hret. right. vm_compute in Ht. by injection Ht as <-.
Defined.

Lemma platform_cases h :
  (exists name, os_platform h = OtherPlatform name)
  \/ (forall name, os_platform h <> OtherPlatform name).
Proof. destruct (os_platform h); eauto; right; discriminate. Qed.

(** [list] on a platform that the library supports, by what the two
    reads return. *)
Lemma list_supported s h e w c :
  API.getCurrentDUID h e w = (Ok c, w) ->
  CLI.list s h e w
  = (match c, read_original h (after_path h w) (store_path h w) with
     | Some (_ :: _ as current), Some [] =>
         if exists_in (after_path h w) (store_path h w) then CLI.Exited 1
         else CLI.Returned tt
     | _, _ => CLI.Returned tt
     end, after_path h w).
Proof.
  intros Hc. unfold CLI.list. rewrite try_or_exit_eq. cred. rewrite Hc. cred.
  rewrite printDUIDInfo_returns. cred. rewrite hasOriginalDUID_eq. cred.
  destruct (exists_in (after_path h w) (store_path h w)) eqn:Hex; cred.
  - rewrite getOriginalDUID_eq, store_path_after, !after_path_idem. cred.
    rewrite getOriginalDUIDPath_eq, !after_path_idem. cred.
    destruct c as [current|], (read_original h (after_path h w) (store_path h w)) as [o|];
      cred; try reflexivity.
    unfold Buffer_equals.
    destruct o as [|b o].
    + destruct current as [|b' current].
      * rewrite bool_decide_eq_true_2 by reflexivity. reflexivity.
      * rewrite bool_decide_eq_false_2 by discriminate. reflexivity.
    + assert (Hsame : forall eq : bool,
                (if negb eq
                 then CLI.call (lift (formatDUID (b :: o))) ≫= λ _ : string, CLI.say
                 else CLI.say) s h e (after_path h w)
                = (CLI.Returned tt, after_path h w))
        by (intros [|]; reflexivity).
      rewrite Hsame. by destruct current.
    + by destruct current.
  - destruct c as [[|b current]|]; try reflexivity.
    destruct (read_original _ _ _) as [[|b' o]|]; reflexivity.
Qed.

(** X29. [list], and [show], which is the same command, read only: no
    file and not the registry value is changed, and no exception leaves the
    command. On a platform that the library does not know it exits with 1.
    On the three it knows it returns, with one exception: where a DUID is
    active and the store holds an original of no bytes, formatting that
    original throws and the command exits with 1. *)
Theorem list_command_reads_only (s : CLI.session) (h : host) (e : env) (w : world) :
  let out := CLI.list s h e w in
  CLI.show s h e w = out
  /\ files (snd out) = files w /\ registry_duid (snd out) = registry_duid w
  /\ (fst out = CLI.Returned tt \/ fst out = CLI.Exited 1)
  /\ (forall name, os_platform h = OtherPlatform name -> out = (CLI.Exited 1, w))
  /\ ((forall name, os_platform h <> OtherPlatform name) ->
      (~ stored h w [] -> fst out = CLI.Returned tt)
      /\ (forall b current, fst (API.getCurrentDUID h e w) = Ok (Some (b :: current)) ->
            stored h w [] -> fst out = CLI.Exited 1)).
Proof.
  cbv zeta. split; [reflexivity|].
  assert (Hother : forall name, os_platform h = OtherPlatform name ->
            CLI.list s h e w = (CLI.Exited 1, w)).
  { intros name Hname. unfold CLI.list. rewrite try_or_exit_eq, C_bind_eq, call_eq.
    unfold API.getCurrentDUID. rewrite (API_unsupported _ _ _ _ _ Hname). reflexivity. }
  destruct (platform_cases h) as [[name Hname]|Hp].
  - rewrite (Hother name Hname). cbn [fst snd].
    split; [reflexivity|]. split; [reflexivity|]. split; [auto|]. split; [auto|].
    intros Hsup. by destruct (Hsup name).
  - destruct (API_getCurrentDUID_pure h e w Hp) as [c Hc].
    rewrite (list_supported s h e w c Hc), Hc. cbn [fst snd].
    split; [apply after_path_files|]. split; [apply after_path_registry|].
    split; [|split; [intros name Hname; by destruct (Hp name)|intros _; split]].
    + destruct c as [[|b current]|]; auto.
      destruct (read_original _ _ _) as [[|b' o]|]; auto.
      destruct (exists_in _ _); auto.
    + intros Hnot. destruct c as [[|b current]|]; auto.
      destruct (read_original _ _ _) as [[|b' o]|] eqn:Ho; auto.
      by destruct Hnot.
    + intros b current [= ->] Ho. rewrite (stored_exists h w [] Ho).
      unfold stored in Ho. rewrite Ho. reflexivity.
Qed.

Lemma list_command_reads_only_witness :
  let out := CLI.list user_session mac_host quiet_env spoofed_mac_world in
  fst out = CLI.Returned tt /\ files (snd out) = files spoofed_mac_world.
Proof.
  destruct (list_command_reads_only user_session mac_host quiet_env spoofed_mac_world)
    as (_ & Hfiles & _ & _ & _ & Hsup).
  split; [|exact Hfiles].
  apply Hsup; [discriminate|]. intros Ho. vm_compute in Ho. discriminate.
Defined.

Lemma getCurrentMACAddress_world pr iface h e w :
  snd (getCurrentMACAddress pr iface h e w) = w.
Proof.
  destruct iface as [[|c rest]|]; try reflexivity.
  unfold getCurrentMACAddress, try_catch, lift. mred.
  destruct (os_platform h); mred.
  - destruct (ifconfig pr (String c rest)); reflexivity.
  - destruct (ip_link_show pr (String c rest)); reflexivity.
  - destruct (Get_NetAdapter_MacAddress pr (String c rest)) as [out|x]; mred;
      [|reflexivity].
    destruct (truthy (Some (trim out))); reflexivity.
  - reflexivity.
Qed.

Lemma syncDUID_without_address pr iface type r now h e w :
  (forall m, fst (getCurrentMACAddress pr iface h e w) = Ok m -> truthy m = false) ->
  exists x, syncDUID pr iface type r now h e w = (Throw x, w).
Proof.
  intros Hm. unfold syncDUID. rewrite bind_eq.
  pose proof (getCurrentMACAddress_world pr iface h e w) as Hw.
  destruct (getCurrentMACAddress pr iface h e w) as [[m|x] w1]; cbn [fst snd] in *;
    subst w1; [|eauto].
  rewrite (Hm m eq_refl). eauto.
Qed.

(** X30. [reset], [randomize] and [sync] with the rights they need do
    what the library call does and nothing else: the command returns when
    the call returns and exits with 1 when the call throws, and the system
    is as the call leaves it. The call is [resetDUID] for the first
    argument; [randomizeDUID] for the type read from the arguments, the
    first argument as interface, also where that argument is the type
    option, and no address; [syncDUID] for the first argument and that
    type, where the address read beforehand for the report changes
    nothing. [sync] without an argument exits with 1. *)
Theorem commands_follow_the_library (s : CLI.session) (h : host) (e : env) (w : world)
    (args : CLI.argv) :
  fst (CLI.checkPrivileges s h e w) = CLI.Returned true ->
  exists t,
    CLI.duidType_of args = Ok t
    /\ CLI.reset args s h e w = follows (API.resetDUID (CLI.arg_or_null args 0) h e w)
    /\ CLI.randomize args s h e w
       = follows (randomizeDUID (Some t) (CLI.arg_or_null args 0) None
                    (CLI.draws s) (CLI.clock s) h e w)
    /\ match args with
       | [] => CLI.sync args s h e w = (CLI.Exited 1, w)
       | iface :: _ =>
           CLI.sync args s h e w
           = follows (syncDUID (CLI.probe s) (Some iface) (Some t)
                        (CLI.draws s) (CLI.clock s) h e w)
       end.
Proof.
  intros Hpriv. apply checkPrivileges_fst in Hpriv.
  destruct (duidType_of_returns args) as (t & Ht & _).
  exists t. split; [exact Ht|]. split; [|split].
  - unfold CLI.reset. rewrite C_bind_eq, Hpriv. cred. rewrite try_or_exit_eq. cred.
    destruct (API.resetDUID _ h e w) as [[b|x] w']; reflexivity.
  - unfold CLI.randomize. rewrite C_bind_eq, Hpriv. cred. rewrite Ht. cred.
    rewrite try_or_exit_eq. cred.
    destruct (randomizeDUID _ _ _ _ _ h e w) as [[d|x] w']; [|reflexivity].
    cred. rewrite printDUIDInfo_returns. reflexivity.
  - unfold CLI.sync. rewrite C_bind_eq, Hpriv. cred.
    destruct args as [|iface rest]; [reflexivity|].
    cred. rewrite Ht. cred. rewrite try_or_exit_eq. cred.
    pose proof (getCurrentMACAddress_world (CLI.probe s) (Some iface) h e w) as Hw.
    pose proof (syncDUID_without_address (CLI.probe s) (Some iface) (Some t)
                  (CLI.draws s) (CLI.clock s) h e w) as Hnone.
    destruct (getCurrentMACAddress (CLI.probe s) (Some iface) h e w) as [[m|x] w1];
      cbn [fst snd] in Hw, Hnone; subst w1.
    + destruct (truthy m) eqn:Hm; cbn [negb]; cred.
      * destruct (syncDUID _ _ _ _ _ h e w) as [[d|x] w']; [|reflexivity].
        cred. rewrite printDUIDInfo_returns. reflexivity.
      * destruct Hnone as [x ->]; [by intros ? [= <-]|]. reflexivity.
    + destruct Hnone as [x' ->]; [discriminate|]. reflexivity.
Qed.

Lemma commands_follow_the_library_witness :
  CLI.sync ["lo0"] root_session mac_host quiet_env mac_world = (CLI.Exited 1, mac_world).
Proof.
  destruct (commands_follow_the_library root_session mac_host quiet_env mac_world ["lo0"]
              eq_refl) as (t & _ & _ & _ & Hsync).
  rewrite Hsync. vm_compute. reflexivity.
Defined.

(** ** Text handed to [setDUID] *)








